(** * vite-planner: the task store of [src/lib/DB.ts]

    A shallow embedding of the [DB] class (a single [task] table held by an
    embedded SQL engine and snapshotted into [localStorage]) together with
    [startOfPeriod] of [src/lib/utils.ts], and the properties of the store
    that the specification states. *)

From Stdlib Require Import ZArith List String Ascii Bool Lia Permutation Sorted.
From Stdlib.Strings Require Import Byte.
From Stdlib Require Import DecimalString DecimalN DecimalPos.
From stdpp Require Import gmap strings.

Local Open Scope Z_scope.

(** ** Dates

    A JavaScript [Date] that holds a valid instant is its number of
    milliseconds since the epoch.  The [date] column stores
    [toISOString()] of such an instant; for instants whose year has four
    digits that text has a fixed width and compares, as TEXT, exactly as
    the instants compare, and [new Date(text)] gives the instant back.  The
    column is therefore kept as the instant itself. *)
Abbreviation Date := Z (only parsing).

(** [type Period = "days" | "weeks" | "months" | "year"]: a string at run
    time, which is what the [else] branches of the code can still see. *)
Abbreviation Period := string (only parsing).

(** The functions imported from date-fns.  They depend on the time zone of
    the host, so the store is developed over any implementation of them. *)
Class DateFns := {
  startOfDay : Date -> Date;
  endOfDay : Date -> Date;
  startOfWeek : Date -> Date;
  startOfMonth : Date -> Date;
  startOfYear : Date -> Date;
  subDays : Date -> Z -> Date;
  subWeeks : Date -> Z -> Date;
  subMonths : Date -> Z -> Date;
  subYears : Date -> Z -> Date
}.

(** date-fns on a host whose local time zone is UTC, over the proleptic
    Gregorian calendar. *)
Module UTC.

Definition msPerDay : Z := 86400000.

(** Day number (days since 1970-01-01) of a civil date. *)
Definition days_from_civil (y m d : Z) : Z :=
  let y' := if m <=? 2 then y - 1 else y in
  let era := y' / 400 in
  let yoe := y' - era * 400 in
  let mp := if 2 <? m then m - 3 else m + 9 in
  let doy := (153 * mp + 2) / 5 + d - 1 in
  let doe := yoe * 365 + yoe / 4 - yoe / 100 + doy in
  era * 146097 + doe - 719468.

(** Civil date (year, month 1..12, day 1..31) of a day number. *)
Definition civil_from_days (z : Z) : Z * Z * Z :=
  let z' := z + 719468 in
  let era := z' / 146097 in
  let doe := z' - era * 146097 in
  let yoe := (doe - doe / 1460 + doe / 36524 - doe / 146096) / 365 in
  let doy := doe - (365 * yoe + yoe / 4 - yoe / 100) in
  let mp := (5 * doy + 2) / 153 in
  let d := doy - (153 * mp + 2) / 5 + 1 in
  let m := if mp <? 10 then mp + 3 else mp - 9 in
  let y := yoe + era * 400 in
  ((if m <=? 2 then y + 1 else y), m, d).

Definition dayNumber (t : Date) : Z := t / msPerDay.
Definition timeOfDay (t : Date) : Z := t mod msPerDay.

Definition startOfDay (t : Date) : Date := dayNumber t * msPerDay.
Definition endOfDay (t : Date) : Date := startOfDay t + (msPerDay - 1).

(** Weeks start on Sunday; 1970-01-01 was a Thursday. *)
Definition startOfWeek (t : Date) : Date :=
  let n := dayNumber t in (n - (n + 4) mod 7) * msPerDay.

Definition startOfMonth (t : Date) : Date :=
  let '(y, m, _) := civil_from_days (dayNumber t) in
  days_from_civil y m 1 * msPerDay.

Definition startOfYear (t : Date) : Date :=
  let '(y, _, _) := civil_from_days (dayNumber t) in
  days_from_civil y 1 1 * msPerDay.

Definition daysInMonth (y m : Z) : Z :=
  days_from_civil (if m =? 12 then y + 1 else y) (if m =? 12 then 1 else m + 1) 1
  - days_from_civil y m 1.

(** [addMonths]: the day of the month is clamped to the target month. *)
Definition addMonths (t : Date) (n : Z) : Date :=
  let '(y, m, d) := civil_from_days (dayNumber t) in
  let k := y * 12 + (m - 1) + n in
  let y' := k / 12 in
  let m' := k mod 12 + 1 in
  let d' := Z.min d (daysInMonth y' m') in
  days_from_civil y' m' d' * msPerDay + timeOfDay t.

Definition subDays (t : Date) (n : Z) : Date := t - n * msPerDay.
Definition subWeeks (t : Date) (n : Z) : Date := subDays t (7 * n).
Definition subMonths (t : Date) (n : Z) : Date := addMonths t (- n).
Definition subYears (t : Date) (n : Z) : Date := addMonths t (- (12 * n)).

(** [new Date(Date.UTC(y, m - 1, d))], for writing examples down. *)
Definition utc (y m d : Z) : Date := days_from_civil y m d * msPerDay.

End UTC.

#[global] Instance utcDateFns : DateFns := {|
  startOfDay := UTC.startOfDay;
  endOfDay := UTC.endOfDay;
  startOfWeek := UTC.startOfWeek;
  startOfMonth := UTC.startOfMonth;
  startOfYear := UTC.startOfYear;
  subDays := UTC.subDays;
  subWeeks := UTC.subWeeks;
  subMonths := UTC.subMonths;
  subYears := UTC.subYears
|}.

(** ** [startOfPeriod] of [src/lib/utils.ts] *)
Definition startOfPeriod `{DateFns} (date : Date) (period : Period) : Date :=
  if String.eqb period "days" then startOfDay date
  else if String.eqb period "weeks" then startOfWeek date
  else if String.eqb period "months" then startOfMonth date
  else if String.eqb period "year" then startOfYear date
  else date.

(** ** The data model *)

(** [interface Task]. *)
Record Task := {
  id : string;
  name : string;
  complete : bool;
  sortOrder : Z;
  period : Period;
  date : Date
}.

(** A row of [CREATE TABLE task (id TEXT UNIQUE, name TEXT, complete
    BOOLEAN, sortOrder INTEGER DEFAULT 0, period TEXT, date TEXT)].  The
    table is the list of its rows in rowid order. *)
Record Row := {
  row_id : string;
  row_name : string;
  row_complete : Z;
  row_sortOrder : Z;
  row_period : string;
  row_date : Date
}.

(** sql.js hands a TEXT value of a result row to JavaScript through
    [UTF8ToString], which reads the stored text up to its first NUL. *)
Fixpoint UTF8ToString (text : string) : string :=
  match text with
  | EmptyString => EmptyString
  | String c rest =>
      if Ascii.eqb c Ascii.zero then EmptyString else String c (UTF8ToString rest)
  end.

(** The object built from a result row in [list] and [read].  The name
    is free text of the form and is read back as sql.js returns it; the
    ids are those of the generator and the periods the literals of
    [Period], which hold no NUL. *)
Definition toTask (r : Row) : Task := {|
  id := row_id r;
  name := UTF8ToString (row_name r);
  complete := row_complete r =? 1;
  sortOrder := row_sortOrder r;
  period := row_period r;
  date := row_date r
|}.

(** sql.js: [Database.export()] and [new SQL.Database(bytes)]. *)
Class SqlJs := {
  db_export : list Row -> list byte;
  db_open : list byte -> list Row
}.

(** nanoid: [nanoid k] is the identifier that the [k]-th call of the
    generator made by [customAlphabet] returns. *)
Class Nanoid := { nanoid : nat -> string }.

(** The [DB] object ([db]) and the parts of its environment that it reads
    and writes: [localStorage] and the identifiers drawn so far. *)
Record State := {
  db : list Row;
  localStorage : gmap string string;
  ids_drawn : nat
}.

Definition set_db (rows : list Row) (s : State) : State :=
  {| db := rows; localStorage := localStorage s; ids_drawn := ids_drawn s |}.

Definition DB_KEY : string := "PLANNER_SQLITE".

(** ** Exceptions and the monad of the methods

    A method either returns or throws; what it did to the state before it
    threw stays done. *)
Inductive Exn := Error (message : string).

Inductive Completion (A : Type) :=
| Return (a : A)
| Throw (e : Exn).
Arguments Return {A} a.
Arguments Throw {A} e.

Definition JS (A : Type) : Type := State -> Completion A * State.

Definition ret {A} (a : A) : JS A := fun s => (Return a, s).

Definition bind {A B} (m : JS A) (k : A -> JS B) : JS B :=
  fun s =>
    match m s with
    | (Return a, s') => k a s'
    | (Throw e, s') => (Throw e, s')
    end.

Definition throw {A} (e : Exn) : JS A := fun s => (Throw e, s).

Declare Scope js_scope.
Delimit Scope js_scope with js.
Notation "x <- m ;; k" := (bind m (fun x => k))
  (at level 100, m at next level, right associativity) : js_scope.
Notation "m ;; k" := (bind m (fun _ => k))
  (at level 100, right associativity) : js_scope.

(** [this.db.exec] of a SELECT, and [this.db.run] of a statement. *)
Definition query {A} (q : list Row -> A) : JS A := fun s => (Return (q (db s)), s).

Definition run (stmt : list Row -> Completion (list Row)) : JS unit :=
  fun s =>
    match stmt (db s) with
    | Return rows => (Return tt, set_db rows s)
    | Throw e => (Throw e, s)
    end.

(** [array.forEach((x, index) => body)] and [for (const x of array) body]. *)
Fixpoint forEach_from {A} (body : A -> nat -> JS unit) (l : list A) (index : nat) : JS unit :=
  match l with
  | [] => ret tt
  | x :: l' => (body x index ;; forEach_from body l' (S index))%js
  end.

Definition forEach {A} (body : A -> nat -> JS unit) (l : list A) : JS unit :=
  forEach_from body l 0.

Fixpoint for_of {A} (body : A -> JS unit) (l : list A) : JS unit :=
  match l with
  | [] => ret tt
  | x :: l' => (body x ;; for_of body l')%js
  end.

(** ** The SQL statements *)
Module SQL.

(** [ORDER BY sortOrder]: the rows that a scan of the table selects,
    sorted by a stable sort (rows with equal [sortOrder] stay in rowid
    order). *)
Fixpoint insert (r : Row) (l : list Row) : list Row :=
  match l with
  | [] => [r]
  | r' :: l' =>
      if row_sortOrder r <=? row_sortOrder r' then r :: l else r' :: insert r l'
  end.

Fixpoint orderBy (l : list Row) : list Row :=
  match l with
  | [] => []
  | r :: l' => insert r (orderBy l')
  end.

(** [date >= ? AND date < ?] *)
Definition dateBetween (lo hi : Date) (r : Row) : bool :=
  (lo <=? row_date r) && (row_date r <? hi).

(** [period = ?] *)
Definition periodIs (p : string) (r : Row) : bool := String.eqb (row_period r) p.

(** [id = ?] *)
Definition idIs (i : string) (r : Row) : bool := String.eqb (row_id r) i.

(** [SELECT id, name, complete, sortOrder, period, date FROM task WHERE
    ... ORDER BY sortOrder] ([orderBy] is left off for the query
    without ORDER BY); [exec] returns no result set at all when no row
    is selected. *)
Definition exec (rows : list Row) : list (list Row) :=
  match rows with
  | [] => []
  | _ => [rows]
  end.

Definition select (where_ : Row -> bool) (table : list Row) : list (list Row) :=
  exec (orderBy (List.filter where_ table)).

Definition selectById (i : string) (table : list Row) : list (list Row) :=
  exec (List.filter (idIs i) table).

(** [INSERT INTO task (...) VALUES (...)]; the UNIQUE constraint on [id]
    rejects a second row with the same [id]. *)
Definition insertInto (r : Row) (table : list Row) : Completion (list Row) :=
  if existsb (idIs (row_id r)) table
  then Throw (Error "UNIQUE constraint failed: task.id")
  else Return (table ++ [r]).

Definition setName (v : string) (r : Row) : Row :=
  {| row_id := row_id r; row_name := v; row_complete := row_complete r;
     row_sortOrder := row_sortOrder r; row_period := row_period r;
     row_date := row_date r |}.

Definition setComplete (v : Z) (r : Row) : Row :=
  {| row_id := row_id r; row_name := row_name r; row_complete := v;
     row_sortOrder := row_sortOrder r; row_period := row_period r;
     row_date := row_date r |}.

Definition setSortOrder (v : Z) (r : Row) : Row :=
  {| row_id := row_id r; row_name := row_name r; row_complete := row_complete r;
     row_sortOrder := v; row_period := row_period r;
     row_date := row_date r |}.

(** [UPDATE task SET column = ? WHERE id = ?] *)
Definition updateById (set : Row -> Row) (i : string) (table : list Row)
  : Completion (list Row) :=
  Return (map (fun r => if idIs i r then set r else r) table).

(** [DELETE FROM task WHERE ...] *)
Definition deleteWhere (where_ : Row -> bool) (table : list Row)
  : Completion (list Row) :=
  Return (List.filter (fun r => negb (where_ r)) table).

End SQL.

(** ** [JSON.stringify] and [JSON.parse] on arrays of byte values *)
Module JSON.

Definition number (n : N) : string := NilEmpty.string_of_uint (N.to_uint n).

Fixpoint join (l : list string) : string :=
  match l with
  | [] => ""
  | [x] => x
  | x :: l' => x +:+ "," +:+ join l'
  end.

(** [JSON.stringify(array)] *)
Definition stringify (a : list N) : string := "[" +:+ join (map number a) +:+ "]".

(** The texts between the commas, up to the closing bracket, which has
    to end the text. *)
Fixpoint elements (s : string) : option (string * list string) :=
  match s with
  | EmptyString => None
  | String c s' =>
      if Ascii.eqb c "]" then
        match s' with EmptyString => Some (EmptyString, []) | _ => None end
      else
        match elements s' with
        | Some (tok, toks) =>
            if Ascii.eqb c "," then Some (EmptyString, tok :: toks)
            else Some (String c tok, toks)
        | None => None
        end
  end.

Definition parseNumber (tok : string) : option N :=
  match tok with
  | EmptyString => None
  | _ => option_map N.of_uint (NilEmpty.uint_of_string tok)
  end.

Fixpoint parseNumbers (toks : list string) : option (list N) :=
  match toks with
  | [] => Some []
  | tok :: toks' =>
      match parseNumber tok, parseNumbers toks' with
      | Some n, Some ns => Some (n :: ns)
      | _, _ => None
      end
  end.

(** [JSON.parse(text)] for the texts that are arrays of unsigned decimal
    numbers; on any other text the result is [None] (in the code: a
    SyntaxError, or a value that is not such an array). *)
Definition parse (text : string) : option (list N) :=
  match text with
  | String c s =>
      if Ascii.eqb c "[" then
        match elements s with
        | Some (EmptyString, []) => Some []
        | Some (tok, toks) => parseNumbers (tok :: toks)
        | None => None
        end
      else None
  | EmptyString => None
  end.

End JSON.

(** A text without a comma and without a closing bracket. *)
Fixpoint plain (s : string) : bool :=
  match s with
  | EmptyString => true
  | String c s' => negb (Ascii.eqb c "]") && negb (Ascii.eqb c ",") && plain s'
  end.

(** [Array.from(uint8Array)] and [new Uint8Array(array)]. *)
Definition Array_from (a : list byte) : list N := map Byte.to_N a.

Definition Uint8Array (a : list N) : list byte :=
  map (fun n => match Byte.of_N (n mod 256) with Some b => b | None => x00 end) a.

(** ** The [DB] class *)
Section DB.

Context `{DateFns} `{SqlJs} `{Nanoid}.

Local Open Scope js_scope.

(** [!!period]: a string is truthy unless it is empty; an argument left
    out is [undefined].  ([!!day] holds for every [Date] object.) *)
Definition truthy (period : option Period) : option Period :=
  match period with
  | Some p => if String.eqb p "" then None else Some p
  | None => None
  end.

(** [save()] *)
Definition DB_save : JS unit :=
  fun s =>
    (Return tt,
     {| db := db s;
        localStorage :=
          <[DB_KEY := JSON.stringify (Array_from (db_export (db s)))]> (localStorage s);
        ids_drawn := ids_drawn s |}).

(** [constructor(SQL)]: the table of the new object.  ([save] only ever
    writes the JSON text of an array of byte values under [DB_KEY]; on a
    text that [JSON.parse] does not read as such an array the model stops
    with an exception.) *)
Definition DB_constructor : JS unit :=
  fun s =>
    match localStorage s !! DB_KEY with
    | Some (String c text as savedData) =>
        match JSON.parse savedData with
        | Some a => (Return tt, set_db (db_open (Uint8Array a)) s)
        | None => (Throw (Error "JSON.parse"), s)
        end
    | _ => (Return tt, set_db [] s)
    end.

(** [list(day?, period?)]: the guard on [res] and the loop that builds
    the tasks.  (Every result row has six columns, so the third test of
    the guard, [res[0].values[0].length < 3], never holds.) *)
Definition tasksOf (res : list (list Row)) : list Task :=
  match res with
  | [] => []
  | values :: _ =>
      match values with
      | [] => []
      | _ => map toTask values
      end
  end.

Definition DB_list (day : option Date) (period : option Period) (table : list Row)
  : list Task :=
  let res :=
    match day, truthy period with
    | Some day, Some period =>
        SQL.select (fun r => SQL.dateBetween (startOfDay day) (endOfDay day) r
                             && SQL.periodIs period r) table
    | Some day, None =>
        SQL.select (SQL.dateBetween (startOfDay day) (endOfDay day)) table
    | None, Some period =>
        SQL.select (SQL.periodIs period) table
    | None, None =>
        SQL.select (fun _ => true) table
    end in
  tasksOf res.

(** [read(id)] *)
Definition DB_read (id : string) (table : list Row) : option Task :=
  match SQL.selectById id table with
  | [] => None
  | values :: _ =>
      match values with
      | [] => None
      | r :: _ => Some (toTask r)
      end
  end.

(** [checkExists(id)] *)
Definition DB_checkExists (id : string) : JS Task :=
  task <- query (DB_read id) ;;
  match task with
  | None => throw (Error "Not Found")
  | Some task => ret task
  end.

(** [generateId()] *)
Definition generateId : JS string :=
  fun s =>
    (Return (nanoid (ids_drawn s)),
     {| db := db s; localStorage := localStorage s; ids_drawn := S (ids_drawn s) |}).

(** [create(name, day, period)] *)
Definition DB_create (name : string) (day : Date) (period : Period) : JS (option Task) :=
  id <- generateId ;;
  tasks <- query (DB_list (Some day) None) ;;
  let date := startOfPeriod day period in
  run (SQL.insertInto {| row_id := id; row_name := name; row_complete := 0;
                         row_sortOrder := Z.of_nat (length tasks) + 1;
                         row_period := period; row_date := date |}) ;;
  DB_save ;;
  query (DB_read id).

(** [update(id, name)] *)
Definition DB_update (id : string) (name : string) : JS (option Task) :=
  DB_checkExists id ;;
  run (SQL.updateById (SQL.setName name) id) ;;
  query (DB_read id).

(** [markComplete(id)] *)
Definition DB_markComplete (id : string) : JS (option Task) :=
  DB_checkExists id ;;
  run (SQL.updateById (SQL.setComplete 1) id) ;;
  DB_save ;;
  query (DB_read id).

(** [markIncomplete(id)] *)
Definition DB_markIncomplete (id : string) : JS (option Task) :=
  DB_checkExists id ;;
  run (SQL.updateById (SQL.setComplete 0) id) ;;
  DB_save ;;
  query (DB_read id).

Definition validationMessage (id : string) : string :=
  "Task with id " +:+ id +:+ " does not exist for the specified day.".

(** The callback of [orderedIds.forEach] in [updateOrder]. *)
Definition reorder (taskIdsForDay : gset string) (id : string) (index : nat) : JS unit :=
  (if bool_decide (id ∈ taskIdsForDay) then ret tt
   else throw (Error (validationMessage id))) ;;
  run (SQL.updateById (SQL.setSortOrder (Z.of_nat index)) id).

(** [updateOrder(day, period, orderedIds)] *)
Definition DB_updateOrder (day : Date) (period : Period) (orderedIds : list string)
  : JS unit :=
  tasks <- query (DB_list (Some day) (Some period)) ;;
  let taskIdsForDay : gset string := list_to_set (map id tasks) in
  forEach (reorder taskIdsForDay) orderedIds ;;
  DB_save.

(** [delete(id)] *)
Definition DB_delete (id_ : string) : JS unit :=
  taskToBeDeleted <- DB_checkExists id_ ;;
  run (SQL.deleteWhere (SQL.idIs id_)) ;;
  tasks <- query (DB_list (Some (date taskToBeDeleted)) (Some (period taskToBeDeleted))) ;;
  DB_updateOrder (date taskToBeDeleted) (period taskToBeDeleted)
    (map id (List.filter (fun t => negb (String.eqb (id taskToBeDeleted) (id t))) tasks)) ;;
  DB_save.

(** [copyIncompletes(day, period)] *)
Definition DB_copyIncompletes (day : Date) (period : Period) : JS unit :=
  previous <-
    query (if String.eqb period "days"
           then DB_list (Some (startOfDay (subDays day 1))) (Some period)
           else if String.eqb period "weeks"
           then DB_list (Some (startOfWeek (subWeeks day 1))) (Some period)
           else if String.eqb period "months"
           then DB_list (Some (startOfMonth (subMonths day 1))) (Some period)
           else DB_list (Some (startOfYear (subYears day 1))) (Some period)) ;;
  let incompletes := List.filter (fun task => negb (complete task)) previous in
  for_of (fun task => DB_create (name task) day period ;; ret tt) incompletes ;;
  DB_save.

(** [clearPeriod(day, period)] *)
Definition DB_clearPeriod (day : Date) (period : Period) : JS unit :=
  run (SQL.deleteWhere
         (fun r => SQL.dateBetween (startOfDay day) (endOfDay day) r
                   && SQL.periodIs period r)) ;;
  DB_save.

End DB.

(** ** The vocabulary of the specification *)
Section Specification.

Context `{DateFns} `{SqlJs} `{Nanoid}.

(** The state a method leaves behind, whether it returns or throws. *)
Definition after {A} (m : JS A) (s : State) : State := snd (m s).

(** The [sortOrder] values of a listing are [0 .. n-1], each once. *)
Definition dense (tasks : list Task) : Prop :=
  Permutation (map sortOrder tasks) (map Z.of_nat (seq 0 (length tasks))).

(** Every bucket of the table is dense. *)
Definition Dense (table : list Row) : Prop :=
  forall (day : Date) (period : Period),
    period <> "" -> dense (DB_list (Some day) (Some period) table).

(** What the schema and the [Period] type guarantee of a table: the
    UNIQUE constraint on [id], and no empty [period]. *)
Definition uniqueIds (table : list Row) : Prop := List.NoDup (map row_id table).

Definition wellFormed (table : list Row) : Prop :=
  uniqueIds table /\ Forall (fun r => row_period r <> "") table.

(** Membership of a row in the bucket that [(day, period)] names: the
    WHERE clause of [list(day, period)] and of [clearPeriod]. *)
Definition inBucket (day : Date) (period : Period) (r : Row) : bool :=
  SQL.dateBetween (startOfDay day) (endOfDay day) r && SQL.periodIs period r.

(** The one fact about date-fns that relates two buckets: every instant
    of the window of a day has that same window. *)
Definition DayWindows : Prop :=
  forall day x : Date,
    startOfDay day <= x < endOfDay day ->
    startOfDay x = startOfDay day /\ endOfDay x = endOfDay day.

(** The calls of the interface, and the states that a first run can
    reach through them. *)
Inductive Call :=
| create (name : string) (day : Date) (period : Period)
| update (id : string) (name : string)
| markComplete (id : string)
| markIncomplete (id : string)
| delete_ (id : string)
| copyIncompletes (day : Date) (period : Period)
| clearPeriod (day : Date) (period : Period)
| updateOrder (day : Date) (period : Period) (orderedIds : list string).

Definition perform (c : Call) (s : State) : State :=
  match c with
  | create n d p => after (DB_create n d p) s
  | update i n => after (DB_update i n) s
  | markComplete i => after (DB_markComplete i) s
  | markIncomplete i => after (DB_markIncomplete i) s
  | delete_ i => after (DB_delete i) s
  | copyIncompletes d p => after (DB_copyIncompletes d p) s
  | clearPeriod d p => after (DB_clearPeriod d p) s
  | updateOrder d p ids => after (DB_updateOrder d p ids) s
  end.

Definition firstRun : State :=
  after DB_constructor {| db := []; localStorage := ∅; ids_drawn := 0 |}.

Inductive reachable : State -> Prop :=
| reachable_firstRun : reachable firstRun
| reachable_call c s : reachable s -> reachable (perform c s).

(** [UPDATE task SET sortOrder = index WHERE id = orderedIds[index]], for
    the indices from [k] on in turn: what the loop of [updateOrder] does
    to the table, and to one row of it. *)
Fixpoint renumberRow (ids : list string) (k : nat) (r : Row) : Row :=
  match ids with
  | [] => r
  | i :: ids' =>
      renumberRow ids' (S k)
        (if SQL.idIs i r then SQL.setSortOrder (Z.of_nat k) r else r)
  end.

Definition renumber (ids : list string) (k : nat) (table : list Row) : list Row :=
  map (renumberRow ids k) table.

(** A listing with its [sortOrder] values replaced by [k, k+1, ...]. *)
Definition withSortOrder (v : Z) (t : Task) : Task :=
  {| id := id t; name := name t; complete := complete t; sortOrder := v;
     period := period t; date := date t |}.

Fixpoint compactFrom (k : nat) (tasks : list Task) : list Task :=
  match tasks with
  | [] => []
  | t :: tasks' => withSortOrder (Z.of_nat k) t :: compactFrom (S k) tasks'
  end.

(** The row that [create] inserts. *)
Definition newRow (id name : string) (day : Date) (period : Period) (table : list Row)
  : Row :=
  {| row_id := id; row_name := name; row_complete := 0;
     row_sortOrder := Z.of_nat (length (DB_list (Some day) None table)) + 1;
     row_period := period; row_date := startOfPeriod day period |}.

(** The persisted image of a table. *)
Definition image (table : list Row) : string :=
  JSON.stringify (Array_from (db_export table)).

(** The order of [ORDER BY sortOrder]. *)
Definition byKey (a b : Row) : Prop := row_sortOrder a <= row_sortOrder b.

(** A method keeps a property of the table, whether it returns or
    throws. *)
Definition preserves (Inv : list Row -> Prop) {A} (m : JS A) : Prop :=
  forall s, Inv (db s) -> Inv (db (after m s)).

(** The slot of [localStorage] holds the image of the table. *)
Definition persisted (s : State) : Prop :=
  localStorage s !! DB_KEY = Some (image (db s)).

(** [UPDATE task SET ... WHERE id = i] as a function on tables. *)
Definition updated (set : Row -> Row) (i : string) (table : list Row) : list Row :=
  map (fun r => if SQL.idIs i r then set r else r) table.

(** The day whose bucket [copyIncompletes] copies from. *)
Definition previousAnchor (day : Date) (period : Period) : Date :=
  if String.eqb period "days" then startOfDay (subDays day 1)
  else if String.eqb period "weeks" then startOfWeek (subWeeks day 1)
  else if String.eqb period "months" then startOfMonth (subMonths day 1)
  else startOfYear (subYears day 1).

(** The next [k] identifiers of the generator are new: different from one
    another and from the ids of the table. *)
Definition freshIds (s : State) (k : nat) : Prop :=
  List.NoDup (map nanoid (seq (ids_drawn s) k))
  /\ forall j, (ids_drawn s <= j < ids_drawn s + k)%nat ->
       ~ In (nanoid j) (map row_id (db s)).

End Specification.

(** ** A host for the worked examples

    A UTC host, a generator that counts in the alphabet of [generateId],
    and an engine whose image is the fields of the rows, each closed by a
    NUL byte (for tables whose texts hold no NUL). *)
Module Host.

Definition alphabet : string := "23456789ABCDEFGHIJKMNPQRSTUVWXYZ".

Definition letter (n : nat) : ascii :=
  match String.get (n mod 32) alphabet with
  | Some c => c
  | None => "2"%char
  end.

Fixpoint code (size : nat) (n : nat) : string :=
  match size with
  | O => EmptyString
  | S size' => code size' (n / 32) +:+ String (letter n) EmptyString
  end.

#[global] Instance counting : Nanoid := {| nanoid := code 10 |}.

Definition text (s : string) : list byte := list_byte_of_string s ++ [x00].

Definition integer (z : Z) : list byte := text (NilZero.string_of_int (Z.to_int z)).

Definition export (table : list Row) : list byte :=
  flat_map (fun r => text (row_id r) ++ text (row_name r) ++ integer (row_complete r)
                     ++ integer (row_sortOrder r) ++ text (row_period r)
                     ++ integer (row_date r)) table.

Fixpoint fields (bytes : list byte) (field : list byte) : list string :=
  match bytes with
  | [] => []
  | b :: bytes' =>
      if Byte.eqb b x00 then string_of_list_byte (rev field) :: fields bytes' []
      else fields bytes' (b :: field)
  end.

Definition toInteger (s : string) : Z :=
  match NilZero.int_of_string s with
  | Some d => Z.of_int d
  | None => 0
  end.

Fixpoint rows (fs : list string) : list Row :=
  match fs with
  | i :: n :: c :: o :: p :: d :: fs' =>
      {| row_id := i; row_name := n; row_complete := toInteger c;
         row_sortOrder := toInteger o; row_period := p; row_date := toInteger d |}
      :: rows fs'
  | _ => []
  end.

Definition open (bytes : list byte) : list Row := rows (fields bytes []).

#[global] Instance engine : SqlJs := {| db_export := export; db_open := open |}.

Definition june10 : Date := UTC.utc 2024 6 10.
Definition june11 : Date := UTC.utc 2024 6 11.

(** Scenario A, and a second task in the same bucket. *)
Definition oneTask : State := perform (create "Buy milk" june10 "days") firstRun.
Definition twoTasks : State := perform (create "Call home" june10 "days") oneTask.

(** The two tasks after a drag that put them in dense order. *)
Definition twoTasksOrdered : State :=
  perform (updateOrder june10 "days" [code 10 0; code 10 1]) twoTasks.

(** Scenario B: the two tasks dragged into the opposite order. *)
Definition twoTasksSwapped : State :=
  perform (updateOrder june10 "days" [code 10 1; code 10 0]) twoTasks.

(** Scenario D: three tasks of the month of June and one of its first
    day, and the month then cleared. *)
Definition june1 : Date := UTC.utc 2024 6 1.

Definition busyJune : State :=
  perform (create "Water plants" june1 "days")
    (perform (create "Taxes" june1 "months")
       (perform (create "Dentist" june1 "months")
          (perform (create "Rent" june1 "months") firstRun))).

Definition clearedJune : State := perform (clearPeriod june1 "months") busyJune.

(** Scenario C: the second task is complete, the first is not. *)
Definition secondDone : State := perform (markComplete (code 10 1)) twoTasks.

End Host.

(** * The rest of the code: the components that call the store *)

(** ** Arrays *)

(** [array.findIndex(p)]: the index of the first element that satisfies
    [p], or -1. *)
Fixpoint findIndex_from {A} (p : A -> bool) (l : list A) (k : Z) : Z :=
  match l with
  | [] => -1
  | x :: l' => if p x then k else findIndex_from p l' (k + 1)
  end.

Definition findIndex {A} (p : A -> bool) (l : list A) : Z := findIndex_from p l 0.

(** [array.splice(start, deleteCount, ...items)]: the removed elements and
    the array as it is afterwards.  A negative [start] counts from the
    end, and both are clamped to the array. *)
Definition splice {A} (l : list A) (start deleteCount : Z) (items : list A)
  : list A * list A :=
  let len := Z.of_nat (length l) in
  let actualStart := if start <? 0 then Z.max (len + start) 0 else Z.min start len in
  let actualDeleteCount := Z.min (Z.max deleteCount 0) (len - actualStart) in
  let a := Z.to_nat actualStart in
  let d := Z.to_nat actualDeleteCount in
  (firstn d (skipn a l), firstn a l ++ items ++ skipn (a + d) l).

(** An array with the element at index [i] taken out and [x] put in at
    index [j] of what is left. *)
Definition moved {A} (l : list A) (i j : nat) (x : A) : list A :=
  let rest := firstn i l ++ skipn (S i) l in
  firstn j rest ++ [x] ++ skipn j rest.

(** The functions of date-fns that only the list of buckets uses. *)
Class DateFnsView := {
  addDays : Date -> Z -> Date;
  addWeeks : Date -> Z -> Date;
  addMonths : Date -> Z -> Date;
  endOfMonth : Date -> Date;
  differenceInCalendarWeeks : Date -> Date -> Z
}.

Section Components.

Context `{DateFns} `{SqlJs} `{Nanoid} `{DateFnsView}.

Local Open Scope js_scope.

(** [onDragEnd] of [TaskList]: [active] and [over] are the ids of the
    dragged item and of the item it is dropped on, when there are such.
    ([refresh()] re-reads the lists into the state of the view and does
    not touch the store.) *)
Definition onDragEnd (tasks : list Task) (period : Period) (active over : option string)
  : JS unit :=
  match active, over with
  | Some active_id, Some over_id =>
      let _tasks := tasks in
      let oldIndex := findIndex (fun item => String.eqb (id item) active_id) _tasks in
      let newIndex := findIndex (fun item => String.eqb (id item) over_id) _tasks in
      if negb (oldIndex =? newIndex) then
        let '(removed, _tasks) := splice _tasks oldIndex 1 [] in
        match removed with
        | task :: _ =>
            let '(_, _tasks) := splice _tasks newIndex 0 [task] in
            DB_updateOrder (date task) period (map id _tasks)
        | [] => throw (Error "TypeError: task is undefined")
        end
      else ret tt
  | _, _ => ret tt
  end.

(** [onCheckedChange] and the Delete item of [TaskItem]. *)
Definition onCheckedChange (task : Task) (val : bool) : JS unit :=
  (if val then DB_markComplete (id task) else DB_markIncomplete (id task)) ;;
  ret tt.

Definition onDeleteClick (task : Task) : JS unit := DB_delete (id task).

(** [onSubmit] of [CreateModal]: nothing without a day, a toast and
    nothing else without a name. *)
Definition onSubmit (day : option Date) (name : string) (period : Period) : JS unit :=
  match day with
  | None => ret tt
  | Some day =>
      if String.eqb name "" then ret tt
      else (DB_create name day period ;; ret tt)
  end.

(** [BuildDatesWithTasks(day, period, db)] of [DatesWithTasksList]. *)
Definition BuildDatesWithTasks (day : Date) (period : Period) (table : list Row)
  : list (Date * list Task) :=
  let dates :=
    if String.eqb period "days" then
      let startOfTheWeek := startOfWeek day in
      map (fun i => addDays startOfTheWeek (Z.of_nat i)) (seq 0 7)
    else if String.eqb period "weeks" then
      let startMonth := startOfMonth day in
      let endMonth := endOfMonth day in
      let numWeeks := differenceInCalendarWeeks endMonth startMonth + 1 in
      map (fun i => addWeeks startMonth (Z.of_nat i)) (seq 0 (Z.to_nat numWeeks))
    else if String.eqb period "months" then
      let startOfYearDate := startOfYear day in
      map (fun i => addMonths startOfYearDate (Z.of_nat i)) (seq 0 12)
    else if String.eqb period "year" then [startOfYear day]
    else [] in
  map (fun date => (date, DB_list (Some date) (Some period) table)) dates.

(** The count of the header of a bucket:
    [tasks.reduce((total, task) => total + (task.complete ? 1 : 0), 0)]. *)
Definition completedCount (tasks : list Task) : Z :=
  fold_left (fun total task => total + (if complete task then 1 else 0)) tasks 0.

(** The periods of the buttons of [App]; [selectedPeriod] is one of them. *)
Definition periods : list Period := ["days"; "weeks"; "months"; "year"].

(** What the user can do to the store through the components. *)
Inductive Event :=
| Submit (day : option Date) (name : string) (period : Period)
| DragEnd (date : Date) (period : Period) (active over : option string)
| CheckedChange (task : Task) (val : bool)
| DeleteItem (task : Task)
| CopyPrevious (date : Date) (period : Period)
| ClearAll (date : Date) (period : Period).

(** The handler of an event.  A drag happens in the list of one bucket
    of the view, which holds the listing of that bucket. *)
Definition handle (e : Event) : JS unit :=
  match e with
  | Submit day name period => onSubmit day name period
  | DragEnd date period active over =>
      tasks <- query (DB_list (Some date) (Some period)) ;;
      onDragEnd tasks period active over
  | CheckedChange task val => onCheckedChange task val
  | DeleteItem task => onDeleteClick task
  | CopyPrevious date period => DB_copyIncompletes date period
  | ClearAll date period => DB_clearPeriod date period
  end.

Definition eventPeriod (e : Event) : option Period :=
  match e with
  | Submit _ _ period | DragEnd _ period _ _ | CopyPrevious _ period
  | ClearAll _ period => Some period
  | CheckedChange _ _ | DeleteItem _ => None
  end.

(** The states that a first run reaches through the components, the
    period being the selected one. *)
Inductive uiReachable : State -> Prop :=
| uiReachable_firstRun : uiReachable firstRun
| uiReachable_event e s :
    uiReachable s ->
    (forall period, eventPeriod e = Some period -> In period periods) ->
    uiReachable (after (handle e) s).

(** The text that an event submits. *)
Definition eventName (e : Event) : option string :=
  match e with
  | Submit _ name _ => Some name
  | _ => None
  end.

(** The states reached when, besides, the text submitted holds no NUL
    (it is read back whole). *)
Inductive uiTyped : State -> Prop :=
| uiTyped_firstRun : uiTyped firstRun
| uiTyped_event e s :
    uiTyped s ->
    (forall period, eventPeriod e = Some period -> In period periods) ->
    (forall text, eventName e = Some text -> UTF8ToString text = text) ->
    uiTyped (after (handle e) s).

(** The table has the periods of the selector. *)
Definition selected (table : list Row) : Prop :=
  Forall (fun r => In (row_period r) periods) table.

(** The table has names that are not empty and are read back whole. *)
Definition named (table : list Row) : Prop :=
  Forall (fun r => row_name r <> "" /\ UTF8ToString (row_name r) = row_name r) table.

(** Nothing was stored yet, or the slot holds the image of the table. *)
Definition durable (s : State) : Prop :=
  (db s = [] /\ localStorage s !! DB_KEY = None) \/ persisted s.

(** The index of the last place of an id in a list. *)
Fixpoint lastIndex (i : string) (ids : list string) (k : nat) : option nat :=
  match ids with
  | [] => None
  | j :: ids' =>
      match lastIndex i ids' (S k) with
      | Some n => Some n
      | None => if String.eqb j i then Some k else None
      end
  end.

(** The WHERE clause of [list(day?, period?)] in each of its four modes. *)
Definition selector (day : option Date) (period : option Period) (r : Row) : bool :=
  match day, truthy period with
  | Some day, Some period =>
      SQL.dateBetween (startOfDay day) (endOfDay day) r && SQL.periodIs period r
  | Some day, None => SQL.dateBetween (startOfDay day) (endOfDay day) r
  | None, Some period => SQL.periodIs period r
  | None, None => true
  end.

(** A method keeps a property of the state, whether it returns or
    throws. *)
Definition keeps (P : State -> Prop) {A} (m : JS A) : Prop :=
  forall s, P s -> P (after m s).

(** What [list] shows of a task apart from its [complete] flag, and apart
    from its [name]. *)
Definition unflagged (t : Task) : string * string * Z * Period * Date :=
  (id t, name t, sortOrder t, period t, date t).

Definition unnamed (t : Task) : string * bool * Z * Period * Date :=
  (id t, complete t, sortOrder t, period t, date t).

(** What a row is apart from its [sortOrder]. *)
Definition unordered (r : Row) : string * string * Z * string * Date :=
  (row_id r, row_name r, row_complete r, row_period r, row_date r).

End Components.

(** A generator that is stuck on one identifier, and the example host with
    the calendar of date-fns that the list of buckets needs. *)
Module Desk.

Definition stuck : Nanoid := {| nanoid := fun _ => Host.code 10 0 |}.

#[global] Instance utcView : DateFnsView := {|
  addDays := fun t n => UTC.subDays t (- n);
  addWeeks := fun t n => UTC.subWeeks t (- n);
  addMonths := UTC.addMonths;
  endOfMonth := fun t => UTC.addMonths (UTC.startOfMonth t) 1 - 1;
  differenceInCalendarWeeks := fun a b =>
    (UTC.startOfWeek a - UTC.startOfWeek b) / (7 * UTC.msPerDay)
|}.

(** A task of the week of 10 June 2024, a Monday. *)
Definition weekTask : State := perform (create "Review" Host.june10 "weeks") firstRun.

(** A session at the components: two tasks are entered for 10 June, a
    form without a name is submitted, the second task is dragged onto
    the first, and the tasks are copied to 11 June. *)
Definition session : State :=
  after (handle (CopyPrevious Host.june11 "days"))
    (after (handle (DragEnd Host.june10 "days" (Some (Host.code 10 1))
                      (Some (Host.code 10 0))))
       (after (handle (Submit (Some Host.june10) "" "days"))
          (after (handle (Submit (Some Host.june10) "Call home" "days"))
             (after (handle (Submit (Some Host.june10) "Buy milk" "days")) firstRun)))).

End Desk.

(** * Properties *)

(** ** [ORDER BY sortOrder] *)
Module OrderBy.

Import SQL.

Lemma insert_perm r l : Permutation (insert r l) (r :: l).
Proof.
  induction l as [|r' l IH]; simpl; [reflexivity|].
  destruct (row_sortOrder r <=? row_sortOrder r'); [reflexivity|].
  rewrite IH. apply perm_swap.
Qed.

Lemma orderBy_perm l : Permutation (orderBy l) l.
Proof.
  induction l as [|r l IH]; simpl; [reflexivity|].
  rewrite insert_perm. now constructor.
Qed.

Lemma orderBy_In r l : In r (orderBy l) <-> In r l.
Proof.
  split; apply Permutation_in; [|symmetry]; apply orderBy_perm.
Qed.

Lemma orderBy_length l : length (orderBy l) = length l.
Proof. apply Permutation_length, orderBy_perm. Qed.

Lemma insert_sorted r l :
  StronglySorted byKey l -> StronglySorted byKey (insert r l).
Proof.
  induction 1 as [|r' l Hl IH Hall]; simpl.
  - repeat constructor.
  - destruct (Z.leb_spec (row_sortOrder r) (row_sortOrder r')) as [Hle|Hgt].
    + constructor; [now constructor|].
      constructor; [exact Hle|].
      eapply List.Forall_impl; [|exact Hall].
      unfold byKey; intros; lia.
    + constructor; [exact IH|].
      apply (Permutation_Forall (x := r :: l)); [symmetry; apply insert_perm|].
      constructor; [unfold byKey; lia | exact Hall].
Qed.

Lemma orderBy_sorted l : StronglySorted byKey (orderBy l).
Proof.
  induction l; simpl; [constructor | now apply insert_sorted].
Qed.

(** The sort is stable: selecting rows commutes with it. *)
Lemma insert_filter (q : Row -> bool) r l :
  StronglySorted byKey l ->
  List.filter q (insert r l) =
  if q r then insert r (List.filter q l) else List.filter q l.
Proof.
  induction 1 as [|r' l Hl IH Hall]; simpl.
  - now destruct (q r).
  - destruct (Z.leb_spec (row_sortOrder r) (row_sortOrder r')) as [Hle|Hgt]; simpl.
    + destruct (q r) eqn:Hr, (q r') eqn:Hr'; simpl; try reflexivity.
      * destruct (Z.leb_spec (row_sortOrder r) (row_sortOrder r')); [reflexivity|lia].
      * assert (Hhd : forall l', Forall (byKey r) l' -> insert r l' = r :: l').
        { intros [|x l'] Hx; [reflexivity|]. simpl.
          inversion Hx as [|? ? Hrx _]; subst. unfold byKey in Hrx.
          destruct (Z.leb_spec (row_sortOrder r) (row_sortOrder x)); [reflexivity|lia]. }
        rewrite Hhd; [reflexivity|].
        apply incl_Forall with (l1 := l); [apply incl_filter|].
        eapply List.Forall_impl; [|exact Hall]. unfold byKey; intros; lia.
    + rewrite IH. destruct (q r) eqn:Hr, (q r') eqn:Hr'; simpl; try reflexivity.
      destruct (Z.leb_spec (row_sortOrder r) (row_sortOrder r')); [lia|reflexivity].
Qed.

Lemma orderBy_filter (q : Row -> bool) l :
  List.filter q (orderBy l) = orderBy (List.filter q l).
Proof.
  induction l as [|r l IH]; simpl; [reflexivity|].
  rewrite insert_filter by apply orderBy_sorted.
  rewrite IH. now destruct (q r).
Qed.

(** Rewriting the rows without touching [sortOrder] commutes with it. *)
Lemma insert_map (f : Row -> Row) r l :
  (forall x, row_sortOrder (f x) = row_sortOrder x) ->
  insert (f r) (map f l) = map f (insert r l).
Proof.
  intros Hf. induction l as [|r' l IH]; simpl; [reflexivity|].
  rewrite !Hf. destruct (row_sortOrder r <=? row_sortOrder r'); simpl; [reflexivity|].
  now rewrite IH.
Qed.

Lemma orderBy_map (f : Row -> Row) l :
  (forall x, row_sortOrder (f x) = row_sortOrder x) ->
  orderBy (map f l) = map f (orderBy l).
Proof.
  intros Hf. induction l as [|r l IH]; simpl; [reflexivity|].
  rewrite IH. now apply insert_map.
Qed.

(** Two sorted arrangements of the same rows are equal when no two rows
    share a key. *)
Lemma sorted_unique (l1 : list Row) :
  forall l2,
    List.NoDup (map row_sortOrder l1) ->
    StronglySorted byKey l1 -> StronglySorted byKey l2 ->
    Permutation l1 l2 -> l1 = l2.
Proof.
  induction l1 as [|a l1 IH]; intros l2 Hnd S1 S2 Hp.
  - now apply Permutation_nil in Hp.
  - destruct l2 as [|b l2]; [now apply Permutation_sym, Permutation_nil in Hp|].
    inversion S1 as [|? ? S1' Ha]; subst.
    inversion S2 as [|? ? S2' Hb]; subst.
    inversion Hnd as [|? ? Hnotin Hnd']; subst.
    assert (a = b) as ->.
    { assert (Hbin : In b (a :: l1))
        by (eapply Permutation_in; [symmetry; exact Hp | now left]).
      assert (Hain : In a (b :: l2))
        by (eapply Permutation_in; [exact Hp | now left]).
      destruct Hbin as [|Hbin]; [assumption|].
      destruct Hain as [|Hain]; [congruence|].
      rewrite List.Forall_forall in Ha, Hb.
      pose proof (Ha _ Hbin) as H1. pose proof (Hb _ Hain) as H2.
      unfold byKey in H1, H2.
      exfalso. apply Hnotin.
      replace (row_sortOrder a) with (row_sortOrder b) by lia.
      now apply in_map. }
    f_equal. apply IH; auto.
    now apply Permutation_cons_inv in Hp.
Qed.

Lemma orderBy_unique l l' :
  List.NoDup (map row_sortOrder l') -> StronglySorted byKey l' ->
  Permutation l l' -> orderBy l = l'.
Proof.
  intros Hnd Hs Hp. symmetry. apply sorted_unique; auto.
  - apply orderBy_sorted.
  - rewrite orderBy_perm. now symmetry.
Qed.

End OrderBy.

(** ** Queries *)
Section Queries.

Context `{DateFns}.

Lemma tasksOf_exec l : tasksOf (SQL.exec l) = map toTask l.
Proof. now destruct l. Qed.

Lemma truthy_Some (p : Period) : p <> "" -> truthy (Some p) = Some p.
Proof.
  intros Hp. unfold truthy.
  destruct (String.eqb_spec p ""); [contradiction|reflexivity].
Qed.

Lemma DB_list_bucket day (period : Period) table :
  period <> "" ->
  DB_list (Some day) (Some period) table =
  map toTask (SQL.orderBy (List.filter (inBucket day period) table)).
Proof.
  intros Hp. unfold DB_list. rewrite truthy_Some by assumption.
  apply tasksOf_exec.
Qed.

Lemma DB_list_day day table :
  DB_list (Some day) None table =
  map toTask
    (SQL.orderBy (List.filter (SQL.dateBetween (startOfDay day) (endOfDay day)) table)).
Proof. unfold DB_list. apply tasksOf_exec. Qed.

Lemma DB_list_all table :
  DB_list None None table = map toTask (SQL.orderBy table).
Proof.
  unfold DB_list, SQL.select; simpl. rewrite tasksOf_exec.
  f_equal. f_equal. induction table; simpl; congruence.
Qed.

Lemma DB_read_find i table :
  DB_read i table = option_map toTask (List.find (SQL.idIs i) table).
Proof.
  unfold DB_read, SQL.selectById.
  induction table as [|r table IH]; simpl; [reflexivity|].
  destruct (SQL.idIs i r); simpl; [reflexivity|exact IH].
Qed.

Lemma idIs_eq i r : SQL.idIs i r = true <-> row_id r = i.
Proof. unfold SQL.idIs. apply String.eqb_eq. Qed.

Lemma find_id_None i table :
  ~ In i (map row_id table) -> List.find (SQL.idIs i) table = None.
Proof.
  intros Hnot. destruct (List.find (SQL.idIs i) table) as [r|] eqn:Hf; [|reflexivity].
  apply find_some in Hf as [Hin Hid]. apply idIs_eq in Hid.
  exfalso. apply Hnot. rewrite <- Hid. now apply in_map.
Qed.

Lemma find_id_Some i table :
  In i (map row_id table) ->
  exists r, List.find (SQL.idIs i) table = Some r /\ In r table /\ row_id r = i.
Proof.
  intros Hin. apply in_map_iff in Hin as (r0 & Hid & Hr0).
  destruct (List.find (SQL.idIs i) table) as [r|] eqn:Hf.
  - exists r. apply find_some in Hf as [? ?%idIs_eq]. auto.
  - exfalso. apply (find_none _ _ Hf) in Hr0.
    apply idIs_eq in Hid. congruence.
Qed.

Lemma find_id_unique i table r :
  uniqueIds table -> In r table -> row_id r = i ->
  List.find (SQL.idIs i) table = Some r.
Proof.
  unfold uniqueIds. induction table as [|r' table IH]; intros Hnd Hin Hid; [easy|].
  simpl in *. inversion Hnd as [|? ? Hnotin Hnd']; subst.
  destruct (SQL.idIs (row_id r) r') eqn:Hr'.
  - destruct Hin as [->|Hin]; [reflexivity|].
    apply idIs_eq in Hr'. exfalso. apply Hnotin. rewrite Hr'. now apply in_map.
  - destruct Hin as [->|Hin]; [|now apply IH].
    apply not_true_iff_false in Hr'. exfalso. apply Hr'. now apply idIs_eq.
Qed.

Lemma toTask_id r : id (toTask r) = row_id r.
Proof. reflexivity. Qed.

Lemma toTask_name r : name (toTask r) = UTF8ToString (row_name r).
Proof. reflexivity. Qed.

(** A text without NUL is read back whole, and what is read back has no
    NUL. *)
Lemma UTF8ToString_whole text :
  ~ In Ascii.zero (list_ascii_of_string text) -> UTF8ToString text = text.
Proof.
  induction text as [|c text IH]; simpl; intros Hnot; [reflexivity|].
  destruct (Ascii.eqb_spec c Ascii.zero) as [->|_]; [exfalso; apply Hnot; now left|].
  f_equal. apply IH. intros Hin. apply Hnot. now right.
Qed.

Lemma UTF8ToString_read text :
  UTF8ToString (UTF8ToString text) = UTF8ToString text.
Proof.
  induction text as [|c text IH]; simpl; [reflexivity|].
  destruct (Ascii.eqb c Ascii.zero) eqn:Hc; simpl; [reflexivity|].
  now rewrite Hc, IH.
Qed.

Lemma map_id_toTask l : map id (map toTask l) = map row_id l.
Proof. rewrite map_map. reflexivity. Qed.

Lemma map_sortOrder_toTask l : map sortOrder (map toTask l) = map row_sortOrder l.
Proof. rewrite map_map. reflexivity. Qed.

End Queries.

(** ** Running the methods *)
Section Running.

Context `{DateFns} `{SqlJs} `{Nanoid}.

Lemma set_db_same s : set_db (db s) s = s.
Proof. now destruct s. Qed.

Lemma bind_Return {A B} (m : JS A) (k : A -> JS B) s a s1 :
  m s = (Return a, s1) -> bind m k s = k a s1.
Proof. intros Hm. unfold bind. now rewrite Hm. Qed.

Lemma bind_Throw {A B} (m : JS A) (k : A -> JS B) s e s1 :
  m s = (Throw e, s1) -> bind m k s = (Throw e, s1).
Proof. intros Hm. unfold bind. now rewrite Hm. Qed.


Lemma DB_save_persisted s : persisted (after DB_save s).
Proof. unfold persisted, after; simpl. apply lookup_insert_eq. Qed.

Lemma DB_save_eq s :
  DB_save s =
  (Return tt,
   {| db := db s; localStorage := <[DB_KEY := image (db s)]> (localStorage s);
      ids_drawn := ids_drawn s |}).
Proof. reflexivity. Qed.

Lemma DB_checkExists_eq i s :
  DB_checkExists i s =
  match List.find (SQL.idIs i) (db s) with
  | Some r => (Return (toTask r), s)
  | None => (Throw (Error "Not Found"), s)
  end.
Proof.
  unfold DB_checkExists, bind, query. rewrite DB_read_find.
  now destruct (List.find (SQL.idIs i) (db s)).
Qed.

Lemma DB_update_eq i n s :
  DB_update i n s =
  match List.find (SQL.idIs i) (db s) with
  | Some _ =>
      let s' := set_db (updated (SQL.setName n) i (db s)) s in
      (Return (DB_read i (db s')), s')
  | None => (Throw (Error "Not Found"), s)
  end.
Proof.
  unfold DB_update. unfold bind at 1. rewrite DB_checkExists_eq.
  now destruct (List.find (SQL.idIs i) (db s)).
Qed.

Lemma DB_markComplete_eq i s :
  DB_markComplete i s =
  match List.find (SQL.idIs i) (db s) with
  | Some _ =>
      let s' := after DB_save (set_db (updated (SQL.setComplete 1) i (db s)) s) in
      (Return (DB_read i (db s')), s')
  | None => (Throw (Error "Not Found"), s)
  end.
Proof.
  unfold DB_markComplete. unfold bind at 1. rewrite DB_checkExists_eq.
  now destruct (List.find (SQL.idIs i) (db s)).
Qed.

Lemma DB_markIncomplete_eq i s :
  DB_markIncomplete i s =
  match List.find (SQL.idIs i) (db s) with
  | Some _ =>
      let s' := after DB_save (set_db (updated (SQL.setComplete 0) i (db s)) s) in
      (Return (DB_read i (db s')), s')
  | None => (Throw (Error "Not Found"), s)
  end.
Proof.
  unfold DB_markIncomplete. unfold bind at 1. rewrite DB_checkExists_eq.
  now destruct (List.find (SQL.idIs i) (db s)).
Qed.

Lemma DB_clearPeriod_eq day period s :
  DB_clearPeriod day period s =
  (Return tt,
   after DB_save
     (set_db (List.filter (fun r => negb (inBucket day period r)) (db s)) s)).
Proof. reflexivity. Qed.

Lemma DB_create_eq n d p s :
  DB_create n d p s =
  let i := nanoid (ids_drawn s) in
  let s1 := {| db := db s; localStorage := localStorage s;
               ids_drawn := S (ids_drawn s) |} in
  if existsb (SQL.idIs i) (db s)
  then (Throw (Error "UNIQUE constraint failed: task.id"), s1)
  else
    let s' := after DB_save (set_db (db s ++ [newRow i n d p (db s)]) s1) in
    (Return (DB_read i (db s')), s').
Proof.
  unfold DB_create, bind, generateId, query, run, SQL.insertInto; simpl.
  now destruct (existsb (SQL.idIs (nanoid (ids_drawn s))) (db s)).
Qed.

End Running.

(** ** The loop of [updateOrder] *)
Section Renumbering.

Context `{DateFns} `{SqlJs} `{Nanoid}.

Lemma setSortOrder_twice v w r :
  SQL.setSortOrder v (SQL.setSortOrder w r) = SQL.setSortOrder v r.
Proof. reflexivity. Qed.

Lemma renumberRow_id ids k r : row_id (renumberRow ids k r) = row_id r.
Proof.
  revert k r. induction ids as [|i ids IH]; intros k r; simpl; [reflexivity|].
  rewrite IH. now destruct (SQL.idIs i r).
Qed.

(** Only [sortOrder] changes. *)
Lemma renumberRow_shape ids k r :
  renumberRow ids k r = SQL.setSortOrder (row_sortOrder (renumberRow ids k r)) r.
Proof.
  revert k r. induction ids as [|i ids IH]; intros k r; simpl.
  - now destruct r.
  - destruct (SQL.idIs i r); [|apply IH].
    rewrite IH at 1. apply setSortOrder_twice.
Qed.

Lemma renumberRow_notin ids k r :
  ~ In (row_id r) ids -> renumberRow ids k r = r.
Proof.
  revert k r. induction ids as [|i ids IH]; intros k r Hnot; simpl; [reflexivity|].
  destruct (SQL.idIs i r) eqn:Hi.
  - apply idIs_eq in Hi. exfalso. apply Hnot. now left.
  - apply IH. intros Hin. apply Hnot. now right.
Qed.

Lemma renumberRow_nth ids k j r :
  List.NoDup ids -> nth_error ids j = Some (row_id r) ->
  renumberRow ids k r = SQL.setSortOrder (Z.of_nat (k + j)) r.
Proof.
  revert k j r. induction ids as [|i ids IH]; intros k j r Hnd Hj.
  - now destruct j.
  - inversion Hnd as [|? ? Hnotin Hnd']; subst. destruct j as [|j]; simpl in *.
    + injection Hj as ->.
      assert (Hi : SQL.idIs (row_id r) r = true) by now apply idIs_eq.
      rewrite Hi. rewrite renumberRow_notin by exact Hnotin.
      now rewrite Nat.add_0_r.
    + assert (Hi : SQL.idIs i r = false).
      { apply not_true_iff_false. intros Hi%idIs_eq.
        apply Hnotin. rewrite <- Hi. eapply nth_error_In, Hj. }
      rewrite Hi. rewrite (IH (S k) j) by assumption.
      do 2 f_equal. lia.
Qed.

Lemma renumber_cons i ids k table :
  renumber (i :: ids) k table =
  renumber ids (S k) (updated (SQL.setSortOrder (Z.of_nat k)) i table).
Proof. unfold renumber, updated. now rewrite map_map. Qed.

Lemma renumber_nil k table : renumber [] k table = table.
Proof. unfold renumber; simpl. apply map_id. Qed.

Lemma renumber_length ids k table : length (renumber ids k table) = length table.
Proof. apply length_map. Qed.

Lemma set_db_set_db x y s : set_db x (set_db y s) = set_db x s.
Proof. reflexivity. Qed.

Variable taskIdsForDay : gset string.

Lemma reorder_member i k s :
  i ∈ taskIdsForDay ->
  reorder taskIdsForDay i k s = (Return tt, set_db (updated (SQL.setSortOrder (Z.of_nat k)) i (db s)) s).
Proof.
  intros Hi. unfold reorder, bind. now rewrite bool_decide_eq_true_2.
Qed.

Lemma reorder_stranger i k s :
  i ∉ taskIdsForDay -> reorder taskIdsForDay i k s = (Throw (Error (validationMessage i)), s).
Proof.
  intros Hi. unfold reorder, bind. now rewrite bool_decide_eq_false_2.
Qed.

Lemma forEach_from_members ids : forall k s,
  (forall i, In i ids -> i ∈ taskIdsForDay) ->
  forEach_from (reorder taskIdsForDay) ids k s = (Return tt, set_db (renumber ids k (db s)) s).
Proof.
  induction ids as [|i ids IH]; intros k s Hall; simpl.
  - now rewrite renumber_nil, set_db_same.
  - unfold bind. rewrite reorder_member by (apply Hall; now left).
    rewrite IH by (intros; apply Hall; now right).
    now rewrite renumber_cons.
Qed.

Lemma forEach_from_stranger pre bad post : forall k s,
  (forall i, In i pre -> i ∈ taskIdsForDay) -> bad ∉ taskIdsForDay ->
  forEach_from (reorder taskIdsForDay) (pre ++ bad :: post) k s =
  (Throw (Error (validationMessage bad)), set_db (renumber pre k (db s)) s).
Proof.
  induction pre as [|i pre IH]; intros k s Hall Hbad; simpl.
  - unfold bind. rewrite reorder_stranger by assumption.
    now rewrite renumber_nil, set_db_same.
  - unfold bind. rewrite reorder_member by (apply Hall; now left).
    rewrite IH by (try assumption; intros; apply Hall; now right).
    now rewrite renumber_cons.
Qed.

End Renumbering.

Section UpdateOrder.

Context `{DateFns} `{SqlJs} `{Nanoid}.

Lemma taskIds_member i (tasks : list Task) :
  i ∈ (list_to_set (map id tasks) : gset string) <-> In i (map id tasks).
Proof. rewrite elem_of_list_to_set. apply list_elem_of_In. Qed.

Lemma DB_updateOrder_members day period ids s :
  (forall i, In i ids -> In i (map id (DB_list (Some day) (Some period) (db s)))) ->
  DB_updateOrder day period ids s =
  (Return tt, after DB_save (set_db (renumber ids 0 (db s)) s)).
Proof.
  intros Hall. unfold DB_updateOrder, forEach. unfold bind at 1, query at 1.
  unfold bind at 1. rewrite forEach_from_members; [reflexivity|].
  intros i Hi. apply taskIds_member. auto.
Qed.

Lemma DB_updateOrder_stranger day period pre bad post s :
  (forall i, In i pre -> In i (map id (DB_list (Some day) (Some period) (db s)))) ->
  ~ In bad (map id (DB_list (Some day) (Some period) (db s))) ->
  DB_updateOrder day period (pre ++ bad :: post) s =
  (Throw (Error (validationMessage bad)), set_db (renumber pre 0 (db s)) s).
Proof.
  intros Hall Hbad. unfold DB_updateOrder, forEach. unfold bind at 1, query at 1.
  unfold bind at 1. rewrite forEach_from_stranger; [reflexivity| |].
  - intros i Hi. apply taskIds_member. auto.
  - rewrite taskIds_member. exact Hbad.
Qed.

(** The first id that is not in a list, with the ids before it. *)
Lemma first_stranger (known ids : list string) :
  (exists i, In i ids /\ ~ In i known) ->
  exists pre bad post,
    ids = pre ++ bad :: post /\ (forall i, In i pre -> In i known) /\ ~ In bad known.
Proof.
  induction ids as [|i ids IH]; intros (x & Hx & Hnot); [easy|].
  destruct (in_dec string_dec i known) as [Hi|Hi].
  - destruct IH as (pre & bad & post & -> & Hpre & Hbad).
    { destruct Hx as [->|Hx]; [contradiction|eauto]. }
    exists (i :: pre), bad, post. repeat split; auto.
    intros j [<-|Hj]; auto.
  - exists [], i, ids. repeat split; auto. intros j [].
Qed.

End UpdateOrder.

(** ** Buckets under renumbering *)
Section Buckets.

Context `{DateFns}.

Lemma filter_map_commute {A} (q : A -> bool) (f : A -> A) l :
  (forall x, q (f x) = q x) ->
  List.filter q (map f l) = map f (List.filter q l).
Proof.
  intros Hq. induction l as [|x l IH]; simpl; [reflexivity|].
  rewrite Hq. destruct (q x); simpl; now rewrite IH.
Qed.

Lemma filter_filter_commute {A} (p q : A -> bool) l :
  List.filter p (List.filter q l) = List.filter q (List.filter p l).
Proof.
  induction l as [|x l IH]; simpl; [reflexivity|].
  destruct (p x) eqn:Hp, (q x) eqn:Hq; simpl; rewrite ?Hp, ?Hq, IH; reflexivity.
Qed.

Lemma filter_all {A} (q : A -> bool) l :
  (forall x, In x l -> q x = true) -> List.filter q l = l.
Proof.
  induction l as [|x l IH]; intros Hall; simpl; [reflexivity|].
  rewrite (Hall x) by now left. f_equal. apply IH. intros; apply Hall; now right.
Qed.

Lemma filter_none {A} (q : A -> bool) l :
  (forall x, In x l -> q x = false) -> List.filter q l = [].
Proof.
  induction l as [|x l IH]; intros Hall; simpl; [reflexivity|].
  rewrite (Hall x) by now left. apply IH. intros; apply Hall; now right.
Qed.

Lemma inBucket_spec day period r :
  inBucket day period r = true <->
  (startOfDay day <= row_date r < endOfDay day) /\ row_period r = period.
Proof.
  unfold inBucket, SQL.dateBetween, SQL.periodIs.
  rewrite !andb_true_iff, Z.leb_le, Z.ltb_lt, String.eqb_eq. tauto.
Qed.

Lemma inBucket_setSortOrder day period v r :
  inBucket day period (SQL.setSortOrder v r) = inBucket day period r.
Proof. reflexivity. Qed.

Lemma inBucket_renumberRow day period ids k r :
  inBucket day period (renumberRow ids k r) = inBucket day period r.
Proof. rewrite renumberRow_shape. apply inBucket_setSortOrder. Qed.

Lemma filter_renumber day period ids k table :
  List.filter (inBucket day period) (renumber ids k table) =
  renumber ids k (List.filter (inBucket day period) table).
Proof. apply filter_map_commute. intros; apply inBucket_renumberRow. Qed.

Lemma uniqueIds_filter q table : uniqueIds table -> uniqueIds (List.filter q table).
Proof.
  unfold uniqueIds. induction table as [|r table IH]; simpl; intros Hnd; [constructor|].
  inversion Hnd as [|? ? Hnotin Hnd']; subst.
  destruct (q r); simpl; [|auto].
  constructor; [|auto].
  intros Hin. apply Hnotin. apply in_map_iff in Hin as (x & Hx & Hin).
  apply filter_In in Hin as [Hin _]. rewrite <- Hx. now apply in_map.
Qed.

Lemma uniqueIds_perm l l' : Permutation l l' -> uniqueIds l -> uniqueIds l'.
Proof.
  unfold uniqueIds. intros Hp. apply Permutation_NoDup. now apply Permutation_map.
Qed.

Lemma uniqueIds_eq table r r' :
  uniqueIds table -> In r table -> In r' table -> row_id r = row_id r' -> r = r'.
Proof.
  unfold uniqueIds. induction table as [|x table IH]; intros Hnd Hr Hr' Hid; [easy|].
  simpl in Hnd. inversion Hnd as [|? ? Hnotin Hnd']; subst.
  destruct Hr as [->|Hr], Hr' as [->|Hr']; auto.
  - exfalso. apply Hnotin. rewrite Hid. now apply in_map.
  - exfalso. apply Hnotin. rewrite <- Hid. now apply in_map.
Qed.

(** Rows that are numbered by their position. *)
Lemma numbered_rows (f : Row -> Row) L : forall k,
  (forall j r, nth_error L j = Some r -> f r = SQL.setSortOrder (Z.of_nat (k + j)) r) ->
  map row_sortOrder (map f L) = map Z.of_nat (seq k (length L))
  /\ map toTask (map f L) = compactFrom k (map toTask L).
Proof.
  induction L as [|r L IH]; intros k Hf; simpl; [now split|].
  destruct (IH (S k)) as [IH1 IH2].
  { intros j x Hj. rewrite (Hf (S j) x Hj). do 2 f_equal. lia. }
  rewrite (Hf 0%nat r eq_refl), Nat.add_0_r.
  rewrite IH1, IH2. now split.
Qed.

Lemma renumber_in_order L k :
  uniqueIds L ->
  map row_sortOrder (renumber (map row_id L) k L) = map Z.of_nat (seq k (length L))
  /\ map toTask (renumber (map row_id L) k L) = compactFrom k (map toTask L).
Proof.
  intros Hnd. apply numbered_rows. intros j r Hj.
  apply renumberRow_nth; [exact Hnd|]. now apply map_nth_error.
Qed.

Lemma NoDup_numbers k n : List.NoDup (map Z.of_nat (seq k n)).
Proof.
  apply Finite.Injective_map_NoDup; [|apply seq_NoDup].
  intros x y. apply Nat2Z.inj.
Qed.

Lemma sorted_numbers (l : list Row) : forall k,
  map row_sortOrder l = map Z.of_nat (seq k (length l)) ->
  StronglySorted byKey l.
Proof.
  induction l as [|r l IH]; intros k Hk; [constructor|].
  simpl in Hk. injection Hk as Hr Hl. constructor; [now apply (IH (S k))|].
  apply List.Forall_forall. intros x Hx. unfold byKey.
  apply (in_map row_sortOrder) in Hx. rewrite Hl in Hx.
  apply in_map_iff in Hx as (j & <- & Hj). apply in_seq in Hj. lia.
Qed.

(** Renumbering a bucket in the order of its listing keeps the listing
    and makes its keys [0 .. n-1]. *)
Lemma orderBy_renumber_in_order B :
  uniqueIds B ->
  let L := SQL.orderBy B in
  SQL.orderBy (renumber (map row_id L) 0 B) = renumber (map row_id L) 0 L.
Proof.
  intros Hnd L.
  assert (HL : uniqueIds L)
    by (eapply uniqueIds_perm; [symmetry; apply OrderBy.orderBy_perm | exact Hnd]).
  destruct (renumber_in_order L 0 HL) as [Hkeys _].
  apply OrderBy.orderBy_unique.
  - rewrite Hkeys. apply NoDup_numbers.
  - apply (sorted_numbers _ 0%nat). now rewrite renumber_length.
  - apply Permutation_map. symmetry. apply OrderBy.orderBy_perm.
Qed.

(** Renumbering a bucket by any arrangement of its ids makes its keys a
    rearrangement of [0 .. n-1]. *)
Lemma renumber_dense B ids :
  uniqueIds B -> Permutation ids (map row_id B) ->
  Permutation (map row_sortOrder (renumber ids 0 B))
              (map Z.of_nat (seq 0 (length B))).
Proof.
  intros Hnd Hp.
  apply Permutation_map_inv in Hp as (L & -> & HBL).
  assert (HL : uniqueIds L) by (eapply uniqueIds_perm; eauto).
  destruct (renumber_in_order L 0 HL) as [Hkeys _].
  rewrite (Permutation_length HBL), <- Hkeys.
  apply Permutation_map. unfold renumber. now apply Permutation_map.
Qed.

End Buckets.

(** ** [delete] *)
Section Delete.

Context `{DateFns} `{SqlJs} `{Nanoid}.

Lemma DB_delete_eq i s :
  DB_delete i s =
  match List.find (SQL.idIs i) (db s) with
  | None => (Throw (Error "Not Found"), s)
  | Some r0 =>
      let table1 := List.filter (fun r => negb (SQL.idIs i r)) (db s) in
      let tasks := DB_list (Some (row_date r0)) (Some (row_period r0)) table1 in
      let ids :=
        map id (List.filter (fun t => negb (String.eqb (row_id r0) (id t))) tasks) in
      (Return tt, after DB_save (after DB_save (set_db (renumber ids 0 table1) s)))
  end.
Proof.
  unfold DB_delete. unfold bind at 1. rewrite DB_checkExists_eq.
  destruct (List.find (SQL.idIs i) (db s)) as [r0|]; [|reflexivity].
  unfold bind at 1, run at 1, SQL.deleteWhere.
  unfold bind at 1, query at 1.
  unfold bind at 1. rewrite DB_updateOrder_members; [reflexivity|].
  intros x Hx. apply in_map_iff in Hx as (t & <- & Ht).
  apply filter_In in Ht as [Ht _]. now apply in_map.
Qed.

End Delete.

(** ** Claims about missing rows and about persistence *)

(** C7: for an id with no row, [read] returns the absent variant (it has no
    way to throw), and [update], [markComplete], [markIncomplete] and
    [delete] throw "Not Found" and leave the state as it was; for an id
    that has a row, [read] finds a task with that id and each of the four
    methods returns, so none throws "Not Found". *)
Theorem notFound_exactly_when_absent `{DateFns} `{SqlJs} `{Nanoid}
    (s : State) (i : string) :
  (~ In i (map row_id (db s)) ->
     DB_read i (db s) = None
     /\ (forall n, DB_update i n s = (Throw (Error "Not Found"), s))
     /\ DB_markComplete i s = (Throw (Error "Not Found"), s)
     /\ DB_markIncomplete i s = (Throw (Error "Not Found"), s)
     /\ DB_delete i s = (Throw (Error "Not Found"), s))
  /\ (In i (map row_id (db s)) ->
     (exists t, DB_read i (db s) = Some t /\ id t = i)
     /\ (forall n, exists t s', DB_update i n s = (Return t, s'))
     /\ (exists t s', DB_markComplete i s = (Return t, s'))
     /\ (exists t s', DB_markIncomplete i s = (Return t, s'))
     /\ (exists s', DB_delete i s = (Return tt, s'))).
Proof.
  split; intros Hi.
  - apply find_id_None in Hi.
    rewrite DB_read_find, DB_markComplete_eq, DB_markIncomplete_eq,
      DB_delete_eq, Hi.
    repeat split; try reflexivity.
    intros n. now rewrite DB_update_eq, Hi.
  - apply find_id_Some in Hi as (r & Hf & _ & Hid).
    rewrite DB_read_find, DB_markComplete_eq, DB_markIncomplete_eq, DB_delete_eq, Hf.
    repeat split; eauto.
    intros n. rewrite DB_update_eq, Hf. eauto.
Qed.

Lemma notFound_exactly_when_absent_witness :
  DB_delete "ZZZZZZZZZZ" Host.twoTasks = (Throw (Error "Not Found"), Host.twoTasks)
  /\ exists s', DB_delete (Host.code 10 0) Host.twoTasks = (Return tt, s').
Proof.
  split.
  - apply (proj1 (notFound_exactly_when_absent Host.twoTasks "ZZZZZZZZZZ")).
    vm_compute. intros [Hx|[Hx|[]]]; discriminate Hx.
  - apply (proj2 (notFound_exactly_when_absent Host.twoTasks (Host.code 10 0))).
    vm_compute. left. reflexivity.
Defined.

Section Persistence.

Context `{DateFns} `{SqlJs} `{Nanoid}.



End Persistence.



(** ** [create] and [list] *)
Section CreateAndList.

Context `{DateFns} `{SqlJs} `{Nanoid}.

Lemma existsb_id_false i table :
  ~ In i (map row_id table) -> existsb (SQL.idIs i) table = false.
Proof.
  intros Hnot. apply not_true_iff_false. intros (r & Hr & Hid%idIs_eq)%existsb_exists.
  apply Hnot. rewrite <- Hid. now apply in_map.
Qed.

Lemma find_appended i table r :
  ~ In i (map row_id table) -> row_id r = i ->
  List.find (SQL.idIs i) (table ++ [r]) = Some r.
Proof.
  intros Hnot Hid. induction table as [|x table IH]; simpl.
  - assert (Hr : SQL.idIs i r = true) by now apply idIs_eq.
    now rewrite Hr.
  - destruct (SQL.idIs i x) eqn:Hx.
    + apply idIs_eq in Hx. exfalso. apply Hnot. now left.
    + apply IH. intros Hin. apply Hnot. now right.
Qed.

Lemma DB_create_fresh n d p s :
  ~ In (nanoid (ids_drawn s)) (map row_id (db s)) ->
  let r := newRow (nanoid (ids_drawn s)) n d p (db s) in
  DB_create n d p s =
  (Return (Some (toTask r)),
   {| db := db s ++ [r];
      localStorage := <[DB_KEY := image (db s ++ [r])]> (localStorage s);
      ids_drawn := S (ids_drawn s) |}).
Proof.
  intros Hfresh r. rewrite DB_create_eq. cbv zeta.
  rewrite existsb_id_false by assumption.
  unfold after; simpl. rewrite DB_read_find.
  fold r. now rewrite find_appended.
Qed.

Lemma sorted_tasks l :
  StronglySorted byKey l ->
  StronglySorted (fun a b => sortOrder a <= sortOrder b) (map toTask l).
Proof.
  induction 1 as [|r l Hl IH Hall]; simpl; constructor; [exact IH|].
  apply Forall_map. exact Hall.
Qed.

End CreateAndList.



(** C6: [list(day, period)] returns exactly the tasks of the rows whose
    [date] lies in [[startOfDay(day), endOfDay(day))] and whose [period] is
    the given one, each as often as the table has it, in ascending
    [sortOrder]; so no task outside that window or of another period is in
    it (and, the windows being those of days, a listed task whose [date]
    is the start of a day has the date [startOfDay(day)] itself), and it
    is the empty list (there is nothing to throw) when no row matches. *)
Theorem list_day_period_spec `{DateFns}
    (table : list Row) (day : Date) (p : Period) :
  p <> "" ->
  let tasks := DB_list (Some day) (Some p) table in
  Permutation tasks (map toTask (List.filter (inBucket day p) table))
  /\ (forall r, inBucket day p r = true <->
                startOfDay day <= row_date r < endOfDay day /\ row_period r = p)
  /\ StronglySorted (fun a b => sortOrder a <= sortOrder b) tasks
  /\ (forall t, In t tasks ->
        startOfDay day <= date t < endOfDay day /\ period t = p)
  /\ (DayWindows ->
      forall t, In t tasks -> startOfDay (date t) = date t -> date t = startOfDay day)
  /\ ((forall r, In r table ->
         ~ (startOfDay day <= row_date r < endOfDay day /\ row_period r = p)) ->
      tasks = []).
Proof.
  intros Hp tasks. subst tasks. rewrite DB_list_bucket by assumption.
  repeat apply conj.
  - apply Permutation_map, OrderBy.orderBy_perm.
  - intros r. apply inBucket_spec.
  - apply sorted_tasks, OrderBy.orderBy_sorted.
  - intros t (r & <- & Hr)%in_map_iff.
    apply OrderBy.orderBy_In, filter_In in Hr as [_ Hr].
    now apply inBucket_spec in Hr.
  - intros Hw t (r & <- & Hr)%in_map_iff Hstart.
    apply OrderBy.orderBy_In, filter_In in Hr as [_ Hr].
    apply inBucket_spec in Hr as [Hr _]. simpl in *.
    destruct (Hw day (row_date r) Hr) as [Hs _]. congruence.
  - intros Hnone. rewrite filter_none; [reflexivity|].
    intros r Hr. apply not_true_iff_false. intros Hb%inBucket_spec.
    now apply (Hnone r).
Qed.

Lemma list_day_period_spec_witness :
  map name (DB_list (Some Host.june10) (Some "days") (db Host.twoTasks))
  = ["Buy milk"; "Call home"]
  /\ StronglySorted (fun a b => sortOrder a <= sortOrder b)
       (DB_list (Some Host.june10) (Some "days") (db Host.twoTasks)).
Proof.
  split; [vm_compute; reflexivity|].
  apply (list_day_period_spec (db Host.twoTasks) Host.june10 "days").
  discriminate.
Defined.

(** ** [updateOrder] *)
Section Reordering.

Context `{DateFns} `{SqlJs} `{Nanoid}.

Lemma renumber_nth_error ids k table j r :
  nth_error table j = Some r ->
  nth_error (renumber ids k table) j = Some (renumberRow ids k r).
Proof. intros Hj. unfold renumber. now apply map_nth_error. Qed.

(** What a call that lists ids of the bucket, each once, does to the rows. *)
Lemma updateOrder_listed s day p ids :
  List.NoDup ids ->
  (forall i, In i ids -> In i (map id (DB_list (Some day) (Some p) (db s)))) ->
  exists s',
    DB_updateOrder day p ids s = (Return tt, s')
    /\ length (db s') = length (db s)
    /\ forall k r, nth_error (db s) k = Some r ->
         exists r', nth_error (db s') k = Some r'
           /\ (forall j, nth_error ids j = Some (row_id r) ->
                 r' = SQL.setSortOrder (Z.of_nat j) r)
           /\ (~ In (row_id r) ids -> r' = r).
Proof.
  intros Hnd Hall. rewrite DB_updateOrder_members by assumption.
  eexists. split; [reflexivity|]. unfold after; simpl. split.
  - apply renumber_length.
  - intros k r Hk. exists (renumberRow ids 0 r). repeat apply conj.
    + now apply renumber_nth_error.
    + intros j Hj. now rewrite (renumberRow_nth ids 0 j r Hnd Hj).
    + apply renumberRow_notin.
Qed.

End Reordering.

(** C1, as the code has it: when some id of [orderedIds] is not in the
    bucket, [updateOrder] throws the validation error that names the first
    such id and writes nothing to [localStorage]; the rows keep their
    places and every field but [sortOrder]; a row whose id does not come
    before that first id in [orderedIds] is the same after the failed call
    as before it (so the whole state is, when the first id already
    fails). *)
Theorem updateOrder_rejects_stranger `{DateFns} `{SqlJs} `{Nanoid}
    (s : State) (day : Date) (p : Period) (ids : list string) :
  (exists i, In i ids /\ ~ In i (map id (DB_list (Some day) (Some p) (db s)))) ->
  exists pre bad post s',
    ids = pre ++ bad :: post
    /\ (forall i, In i pre -> In i (map id (DB_list (Some day) (Some p) (db s))))
    /\ ~ In bad (map id (DB_list (Some day) (Some p) (db s)))
    /\ DB_updateOrder day p ids s = (Throw (Error (validationMessage bad)), s')
    /\ localStorage s' = localStorage s
    /\ length (db s') = length (db s)
    /\ (forall k r, nth_error (db s) k = Some r ->
          exists r', nth_error (db s') k = Some r'
            /\ r' = SQL.setSortOrder (row_sortOrder r') r
            /\ (~ In (row_id r) pre -> r' = r))
    /\ (pre = [] -> s' = s).
Proof.
  intros (pre & bad & post & -> & Hpre & Hbad)%first_stranger.
  exists pre, bad, post, (set_db (renumber pre 0 (db s)) s).
  split; [reflexivity|]. split; [exact Hpre|]. split; [exact Hbad|].
  split; [now apply DB_updateOrder_stranger|].
  split; [reflexivity|]. split; [apply renumber_length|]. split.
  - intros k r Hk. exists (renumberRow pre 0 r). repeat apply conj.
    + now apply renumber_nth_error.
    + apply renumberRow_shape.
    + apply renumberRow_notin.
  - intros ->. rewrite renumber_nil. apply set_db_same.
Qed.

Lemma updateOrder_rejects_stranger_witness :
  exists pre bad post s',
    ["ZZZZZZZZZZ"; Host.code 10 1] = pre ++ bad :: post
    /\ DB_updateOrder Host.june10 "days" ["ZZZZZZZZZZ"; Host.code 10 1]
         Host.twoTasksOrdered
       = (Throw (Error (validationMessage bad)), s')
    /\ localStorage s' = localStorage Host.twoTasksOrdered.
Proof.
  destruct (updateOrder_rejects_stranger Host.twoTasksOrdered Host.june10 "days"
              ["ZZZZZZZZZZ"; Host.code 10 1])
    as (pre & bad & post & s' & Hids & _ & _ & Hthrow & Hls & _).
  - exists "ZZZZZZZZZZ". split; [now left|].
    vm_compute. intros [Hx|[Hx|[]]]; discriminate Hx.
  - exists pre, bad, post, s'. repeat apply conj; assumption.
Defined.

(** The claim C1 as the specification words it fails: the valid id listed
    before the offending one has been renumbered when the call throws. *)
Lemma updateOrder_failure_keeps_sortOrder_counterexample :
  let s := Host.twoTasksOrdered in
  let ids := [Host.code 10 1; "ZZZZZZZZZZ"] in
  let s' := after (DB_updateOrder Host.june10 "days" ids) s in
  (exists i, In i ids /\ ~ In i (map id (DB_list (Some Host.june10) (Some "days") (db s))))
  /\ fst (DB_updateOrder Host.june10 "days" ids s)
     = Throw (Error (validationMessage "ZZZZZZZZZZ"))
  /\ option_map sortOrder (DB_read (Host.code 10 1) (db s)) = Some 1
  /\ option_map sortOrder (DB_read (Host.code 10 1) (db s')) = Some 0
  /\ ~ (forall t t',
          In t (DB_list (Some Host.june10) (Some "days") (db s)) ->
          In t' (DB_list (Some Host.june10) (Some "days") (db s')) ->
          id t' = id t -> sortOrder t' = sortOrder t).
Proof.
  cbv zeta. repeat apply conj.
  - exists "ZZZZZZZZZZ". split; [right; now left|].
    vm_compute. intros [Hx|[Hx|[]]]; discriminate Hx.
  - vm_compute. reflexivity.
  - vm_compute. reflexivity.
  - vm_compute. reflexivity.
  - intros Hkept.
    specialize (Hkept (toTask (SQL.setSortOrder 1 (newRow (Host.code 10 1) "Call home"
                                                     Host.june10 "days" [])))
                      (toTask (SQL.setSortOrder 0 (newRow (Host.code 10 1) "Call home"
                                                     Host.june10 "days" [])))).
    assert (Hgoal : (0 : Z) = 1); [|discriminate Hgoal].
    apply Hkept; vm_compute; auto.
Qed.

(** Listing only the second of the two example tasks numbers both 0. *)
Lemma partial_reorder_not_dense :
  ~ dense (DB_list (Some Host.june10) (Some "days")
             (db (after (DB_updateOrder Host.june10 "days" [Host.code 10 1])
                    Host.twoTasksOrdered))).
Proof.
  unfold dense. intros Hp.
  assert (Hin : In 1 (map sortOrder
            (DB_list (Some Host.june10) (Some "days")
               (db (after (DB_updateOrder Host.june10 "days" [Host.code 10 1])
                      Host.twoTasksOrdered))))).
  { eapply Permutation_in; [symmetry; exact Hp|]. vm_compute. right. now left. }
  vm_compute in Hin. destruct Hin as [Hx|[Hx|[]]]; discriminate Hx.
Qed.

(** C10: [updateOrder] does not ask for the whole bucket.  A call that
    lists some ids of the bucket, each once, returns; every row whose id is
    listed gets its index in [orderedIds] as [sortOrder] and every other
    row is left as it was.  With a strict subset of a dense bucket the
    result can hold a [sortOrder] twice and so no longer be dense: listing
    only the second of two tasks numbered 0 and 1 numbers both 0. *)
Theorem updateOrder_partial_list :
  (forall (D : DateFns) (E : SqlJs)
          (s : State) (day : Date) (p : Period) (ids : list string),
      List.NoDup ids ->
      (forall i, In i ids -> In i (map id (DB_list (Some day) (Some p) (db s)))) ->
      exists s',
        DB_updateOrder day p ids s = (Return tt, s')
        /\ length (db s') = length (db s)
        /\ forall k r, nth_error (db s) k = Some r ->
             exists r', nth_error (db s') k = Some r'
               /\ (forall j, nth_error ids j = Some (row_id r) ->
                     r' = SQL.setSortOrder (Z.of_nat j) r)
               /\ (~ In (row_id r) ids -> r' = r))
  /\ (let s := Host.twoTasksOrdered in
      let ids := [Host.code 10 1] in
      let bucket := DB_list (Some Host.june10) (Some "days") in
      exists s',
        List.NoDup ids
        /\ (forall i, In i ids -> In i (map id (bucket (db s))))
        /\ (exists i, In i (map id (bucket (db s))) /\ ~ In i ids)
        /\ dense (bucket (db s))
        /\ DB_updateOrder Host.june10 "days" ids s = (Return tt, s')
        /\ map sortOrder (bucket (db s')) = [0; 0]
        /\ ~ dense (bucket (db s'))
        /\ ~ List.NoDup (map sortOrder (bucket (db s')))).
Proof.
  split.
  - intros D E s day p ids. apply updateOrder_listed.
  - cbv zeta.
    exists (after (DB_updateOrder Host.june10 "days" [Host.code 10 1]) Host.twoTasksOrdered).
    repeat apply conj.
    + repeat constructor. intros [].
    + intros i [<-|[]]. vm_compute. right. now left.
    + exists (Host.code 10 0). split; [vm_compute; now left|].
      vm_compute. intros [Hx|[]]; discriminate Hx.
    + unfold dense. vm_compute. reflexivity.
    + vm_compute. reflexivity.
    + vm_compute. reflexivity.
    + exact partial_reorder_not_dense.
    + intros Hnd. vm_compute in Hnd.
      inversion Hnd as [|? ? Hnotin _]; subst. apply Hnotin. now left.
Qed.

Lemma updateOrder_partial_list_witness :
  exists s',
    DB_updateOrder Host.june10 "days" [Host.code 10 1] Host.twoTasksOrdered
    = (Return tt, s')
    /\ length (db s') = length (db Host.twoTasksOrdered).
Proof.
  destruct (proj1 updateOrder_partial_list _ _ Host.twoTasksOrdered Host.june10 "days"
              [Host.code 10 1]) as (s' & Hrun & Hlen & _).
  - repeat constructor. intros [].
  - intros i [<-|[]]. vm_compute. right. now left.
  - exists s'. split; assumption.
Defined.

(** ** Windows of days *)

Lemma utc_day_windows : @DayWindows utcDateFns.
Proof.
  intros day x. simpl. unfold UTC.endOfDay, UTC.startOfDay, UTC.dayNumber, UTC.msPerDay.
  intros [Hlo Hhi].
  assert (Hq : x / 86400000 = day / 86400000).
  { symmetry. apply Z.div_unique with (r := x - day / 86400000 * 86400000); lia. }
  rewrite Hq. split; reflexivity.
Qed.

Section Windows.

Context `{DateFns}.

Lemma inBucket_same_window day x (p : Period) r :
  DayWindows -> startOfDay day <= x < endOfDay day ->
  inBucket x p r = inBucket day p r.
Proof.
  intros Hw Hx. destruct (Hw day x Hx) as [Hs He].
  unfold inBucket. now rewrite Hs, He.
Qed.

(** Two buckets are the same bucket or share no row. *)
Lemma buckets_same_or_apart day (p : Period) day' (p' : Period) :
  DayWindows ->
  (forall r, inBucket day' p' r = inBucket day p r)
  \/ (forall r, inBucket day p r = true -> inBucket day' p' r = false).
Proof.
  intros Hw.
  destruct (string_dec p p') as [<-|Hp].
  - destruct (Z.eq_dec (startOfDay day) (startOfDay day')) as [Hs|Hs];
      [destruct (Z.eq_dec (endOfDay day) (endOfDay day')) as [He|He]|].
    + left. intros r. unfold inBucket. now rewrite Hs, He.
    + right. intros r Hr. apply not_true_iff_false. intros Hr'.
      apply inBucket_spec in Hr as [Hr _]. apply inBucket_spec in Hr' as [Hr' _].
      destruct (Hw _ _ Hr) as [_ H1]. destruct (Hw _ _ Hr') as [_ H2]. congruence.
    + right. intros r Hr. apply not_true_iff_false. intros Hr'.
      apply inBucket_spec in Hr as [Hr _]. apply inBucket_spec in Hr' as [Hr' _].
      destruct (Hw _ _ Hr) as [H1 _]. destruct (Hw _ _ Hr') as [H2 _]. congruence.
  - right. intros r Hr. apply not_true_iff_false. intros Hr'.
    apply inBucket_spec in Hr as [_ Hr]. apply inBucket_spec in Hr' as [_ Hr'].
    congruence.
Qed.

End Windows.

(** ** [delete] compacts the bucket *)
Section Compaction.

Context `{DateFns} `{SqlJs} `{Nanoid}.

Lemma compactFrom_length k l : length (compactFrom k l) = length l.
Proof. revert k. induction l; intros k; simpl; [reflexivity|]. now rewrite IHl. Qed.

Lemma compactFrom_sortOrder k l :
  map sortOrder (compactFrom k l) = map Z.of_nat (seq k (length l)).
Proof. revert k. induction l; intros k; simpl; [reflexivity|]. now rewrite IHl. Qed.

Lemma compactFrom_id k l : map id (compactFrom k l) = map id l.
Proof. revert k. induction l; intros k; simpl; [reflexivity|]. now rewrite IHl. Qed.

Lemma filter_map_swap {A B} (q : B -> bool) (f : A -> B) l :
  List.filter q (map f l) = map f (List.filter (fun x => q (f x)) l).
Proof.
  induction l as [|x l IH]; simpl; [reflexivity|].
  destruct (q (f x)); simpl; now rewrite IH.
Qed.

Lemma length_filter_other i L :
  uniqueIds L -> In i (map row_id L) ->
  length (List.filter (fun r => negb (SQL.idIs i r)) L) = (length L - 1)%nat.
Proof.
  unfold uniqueIds. induction L as [|r L IH]; intros Hnd Hin; [easy|].
  simpl in *. inversion Hnd as [|? ? Hnotin Hnd']; subst.
  destruct (SQL.idIs i r) eqn:Hr; simpl.
  - apply idIs_eq in Hr. subst i. rewrite filter_all; [lia|].
    intros x Hx. apply negb_true_iff, not_true_iff_false. intros Hx'%idIs_eq.
    apply Hnotin. rewrite <- Hx'. now apply in_map.
  - destruct Hin as [Hin|Hin].
    + apply not_true_iff_false in Hr. exfalso. apply Hr. now apply idIs_eq.
    + rewrite IH by assumption.
      destruct L; [easy|simpl; lia].
Qed.

(** What [delete] does to the table and to the listing of the bucket of
    the row it removes. *)
Lemma DB_delete_bucket s day (p : Period) r0 :
  DayWindows -> uniqueIds (db s) -> p <> "" ->
  In r0 (db s) -> inBucket day p r0 = true ->
  let L := SQL.orderBy (List.filter (inBucket day p) (db s)) in
  let L1 := List.filter (fun r => negb (SQL.idIs (row_id r0) r)) L in
  let table1 := List.filter (fun r => negb (SQL.idIs (row_id r0) r)) (db s) in
  exists s',
    DB_delete (row_id r0) s = (Return tt, s')
    /\ db s' = renumber (map row_id L1) 0 table1
    /\ DB_list (Some day) (Some p) (db s') = compactFrom 0 (map toTask L1).
Proof.
  intros Hw Huniq Hp Hin Hb L L1 table1.
  assert (HL1 : SQL.orderBy (List.filter (inBucket day p) table1) = L1).
  { unfold table1, L1, L. rewrite filter_filter_commute.
    symmetry. apply OrderBy.orderBy_filter. }
  assert (Hu1 : uniqueIds (List.filter (inBucket day p) table1)).
  { apply uniqueIds_filter. now apply uniqueIds_filter. }
  pose proof (proj1 (inBucket_spec day p r0) Hb) as [Hdate Hperiod].
  rewrite DB_delete_eq, (find_id_unique _ _ r0 Huniq Hin eq_refl).
  fold table1. cbv zeta. rewrite Hperiod.
  assert (Htasks : DB_list (Some (row_date r0)) (Some p) table1 = map toTask L1).
  { rewrite DB_list_bucket by assumption. rewrite <- HL1. do 2 f_equal.
    apply filter_ext. intros r. now apply inBucket_same_window. }
  rewrite Htasks.
  assert (Hids : map id (List.filter (fun t => negb (String.eqb (row_id r0) (id t)))
                           (map toTask L1)) = map row_id L1).
  { rewrite filter_all; [apply map_id_toTask|].
    intros t (r & <- & Hr)%in_map_iff. unfold L1 in Hr.
    apply filter_In in Hr as [_ Hr]. unfold SQL.idIs in Hr.
    now rewrite String.eqb_sym. }
  rewrite Hids. eexists. split; [reflexivity|]. unfold after; simpl.
  split; [reflexivity|].
  rewrite DB_list_bucket by assumption. rewrite filter_renumber.
  rewrite <- HL1. rewrite orderBy_renumber_in_order by exact Hu1.
  apply renumber_in_order.
  eapply uniqueIds_perm; [symmetry; apply OrderBy.orderBy_perm | exact Hu1].
Qed.

End Compaction.

(** C5: in a table with unique ids, a bucket whose listing is dense and
    holds the task [t]: [delete(t.id)] returns, and the listing of the
    bucket is then the old one without [t], in the same order and with the
    same names, flags, periods and dates, renumbered from 0; so it has one
    task less and its [sortOrder] values are [0 .. n-2] in the order of the
    listing.  (A dense listing has no two equal [sortOrder] values, so
    nothing here rests on how ORDER BY places equal ones.) *)
Theorem delete_compacts_bucket `{DateFns} `{SqlJs} `{Nanoid}
    (s : State) (day : Date) (p : Period) (t : Task) :
  DayWindows -> uniqueIds (db s) -> p <> "" ->
  let before := DB_list (Some day) (Some p) (db s) in
  In t before -> dense before ->
  exists s',
    DB_delete (id t) s = (Return tt, s')
    /\ let rest := List.filter (fun t' => negb (String.eqb (id t) (id t'))) before in
       let after_ := DB_list (Some day) (Some p) (db s') in
       after_ = compactFrom 0 rest
       /\ length after_ = (length before - 1)%nat
       /\ map sortOrder after_ = map Z.of_nat (seq 0 (length before - 1))
       /\ dense after_
       /\ map id after_ = map id rest
       /\ ~ In (id t) (map id after_).
Proof.
  intros Hw Huniq Hp before Hin _. subst before.
  rewrite DB_list_bucket in * by assumption.
  apply in_map_iff in Hin as (r0 & <- & Hr0).
  pose proof (proj1 (OrderBy.orderBy_In _ _) Hr0) as Hr0'.
  apply filter_In in Hr0' as [Hin Hb].
  destruct (DB_delete_bucket s day p r0 Hw Huniq Hp Hin Hb) as (s' & Hrun & _ & Hlist).
  exists s'. split; [exact Hrun|]. cbv zeta.
  set (L := SQL.orderBy (List.filter (inBucket day p) (db s))) in *.
  assert (Hrest : List.filter (fun t' => negb (String.eqb (id (toTask r0)) (id t')))
                    (map toTask L)
                  = map toTask (List.filter (fun r => negb (SQL.idIs (row_id r0) r)) L)).
  { rewrite filter_map_swap. f_equal. apply filter_ext. intros r.
    unfold SQL.idIs. simpl. now rewrite String.eqb_sym. }
  rewrite Hrest, Hlist.
  assert (Hlen : length (compactFrom 0
                   (map toTask (List.filter (fun r => negb (SQL.idIs (row_id r0) r)) L)))
                 = (length (map toTask L) - 1)%nat).
  { rewrite compactFrom_length, !length_map. apply length_filter_other.
    - eapply uniqueIds_perm; [symmetry; apply OrderBy.orderBy_perm|].
      now apply uniqueIds_filter.
    - now apply in_map. }
  repeat apply conj.
  - reflexivity.
  - exact Hlen.
  - rewrite compactFrom_sortOrder. rewrite compactFrom_length in Hlen. now rewrite Hlen.
  - unfold dense. rewrite compactFrom_sortOrder, compactFrom_length. reflexivity.
  - apply compactFrom_id.
  - rewrite compactFrom_id, map_id_toTask. intros (r & Hid & Hr)%in_map_iff.
    apply filter_In in Hr as [_ Hr]. apply negb_true_iff, not_true_iff_false in Hr.
    apply Hr. now apply idIs_eq.
Qed.

Lemma delete_compacts_bucket_witness :
  exists s',
    DB_delete (Host.code 10 0) Host.twoTasksOrdered = (Return tt, s')
    /\ map (fun t => (name t, sortOrder t))
         (DB_list (Some Host.june10) (Some "days") (db s'))
       = [("Call home", 0)].
Proof.
  destruct (delete_compacts_bucket Host.twoTasksOrdered Host.june10 "days"
              {| id := Host.code 10 0; name := "Buy milk"; complete := false;
                 sortOrder := 0; period := "days"; date := Host.june10 |})
    as (s' & Hrun & Hlist & _).
  - exact utc_day_windows.
  - unfold uniqueIds. vm_compute.
    repeat constructor; simpl; intros Hx; repeat destruct Hx as [Hx|Hx]; discriminate || exact Hx.
  - discriminate.
  - vm_compute. now left.
  - unfold dense. vm_compute. reflexivity.
  - exists s'. split; [exact Hrun|]. rewrite Hlist. vm_compute. reflexivity.
Defined.

(** ** Dense buckets are kept dense *)
Section DensePreserved.

Context `{DateFns} `{SqlJs} `{Nanoid}.

Lemma dense_nil : dense [].
Proof. unfold dense; simpl. constructor. Qed.

Lemma dense_rows (p : Period) day table :
  p <> "" ->
  dense (DB_list (Some day) (Some p) table) <->
  Permutation (map row_sortOrder (List.filter (inBucket day p) table))
              (map Z.of_nat (seq 0 (length (List.filter (inBucket day p) table)))).
Proof.
  intros Hp. unfold dense. rewrite DB_list_bucket by assumption.
  rewrite map_sortOrder_toTask, length_map, OrderBy.orderBy_length.
  split; intros Hperm.
  - rewrite <- Hperm. apply Permutation_map. symmetry. apply OrderBy.orderBy_perm.
  - rewrite <- Hperm. apply Permutation_map, OrderBy.orderBy_perm.
Qed.

Lemma wellFormed_map (f : Row -> Row) table :
  (forall r, row_id (f r) = row_id r) ->
  (forall r, row_period (f r) = row_period r) ->
  wellFormed table -> wellFormed (map f table).
Proof.
  intros Hid Hper [Hu Hp]. split.
  - unfold uniqueIds in *. rewrite map_map.
    erewrite map_ext; [exact Hu|]. intros r. apply Hid.
  - apply Forall_map. eapply List.Forall_impl; [|exact Hp].
    intros r Hr. simpl. now rewrite Hper.
Qed.

Lemma wellFormed_filter q table : wellFormed table -> wellFormed (List.filter q table).
Proof.
  intros [Hu Hp]. split; [now apply uniqueIds_filter|].
  apply List.Forall_forall. intros r [Hr _]%filter_In.
  rewrite List.Forall_forall in Hp. now apply Hp.
Qed.

Lemma wellFormed_renumber ids k table :
  wellFormed table -> wellFormed (renumber ids k table).
Proof.
  apply wellFormed_map.
  - intros r. apply renumberRow_id.
  - intros r. now rewrite renumberRow_shape.
Qed.

(** A rewrite of the rows that leaves [sortOrder], [period] and [date]
    alone leaves the keys of every bucket alone. *)
Lemma Dense_map (f : Row -> Row) table :
  (forall r, row_sortOrder (f r) = row_sortOrder r) ->
  (forall r, row_period (f r) = row_period r) ->
  (forall r, row_date (f r) = row_date r) ->
  Dense table -> Dense (map f table).
Proof.
  intros Hkey Hper Hdate Hd day p Hp. specialize (Hd day p Hp).
  apply dense_rows in Hd; [|assumption]. apply dense_rows; [assumption|].
  rewrite filter_map_commute.
  - rewrite map_map, length_map.
    erewrite map_ext; [exact Hd|]. intros r. apply Hkey.
  - intros r. unfold inBucket, SQL.dateBetween, SQL.periodIs.
    now rewrite Hper, Hdate.
Qed.

Lemma Dense_updated set i table :
  (forall r, row_sortOrder (set r) = row_sortOrder r) ->
  (forall r, row_period (set r) = row_period r) ->
  (forall r, row_date (set r) = row_date r) ->
  Dense table -> Dense (updated set i table).
Proof.
  intros Hkey Hper Hdate. apply Dense_map; intros r; destruct (SQL.idIs i r); auto.
Qed.

Lemma wellFormed_updated set i table :
  (forall r, row_id (set r) = row_id r) ->
  (forall r, row_period (set r) = row_period r) ->
  wellFormed table -> wellFormed (updated set i table).
Proof.
  intros Hid Hper. apply wellFormed_map; intros r; destruct (SQL.idIs i r); auto.
Qed.

(** Renumbering the rows of one bucket leaves the rows of a bucket apart
    from it alone. *)
Lemma renumber_apart day (p : Period) day' (p' : Period) ids k table :
  uniqueIds table ->
  (forall i, In i ids -> In i (map row_id (List.filter (inBucket day p) table))) ->
  (forall r, inBucket day p r = true -> inBucket day' p' r = false) ->
  List.filter (inBucket day' p') (renumber ids k table)
  = List.filter (inBucket day' p') table.
Proof.
  intros Hu Hids Hapart. rewrite filter_renumber. unfold renumber.
  erewrite map_ext_in; [apply map_id|].
  intros r [Hr Hb]%filter_In. apply renumberRow_notin. intros Hin.
  apply Hids, in_map_iff in Hin as (r1 & Hid & [Hr1 Hb1]%filter_In).
  assert (r1 = r) as -> by (eapply uniqueIds_eq; eauto).
  apply Hapart in Hb1. congruence.
Qed.

(** Renumbering a bucket by an arrangement of all its ids makes it dense. *)
Lemma renumber_same day (p : Period) day' (p' : Period) ids table :
  uniqueIds table -> p' <> "" ->
  Permutation ids (map row_id (List.filter (inBucket day p) table)) ->
  (forall r, inBucket day' p' r = inBucket day p r) ->
  dense (DB_list (Some day') (Some p') (renumber ids 0 table)).
Proof.
  intros Hu Hp' Hperm Hsame. apply dense_rows; [assumption|].
  rewrite (filter_ext _ _ Hsame), filter_renumber, renumber_length.
  apply renumber_dense; [now apply uniqueIds_filter | exact Hperm].
Qed.

Lemma Dense_renumber day (p : Period) ids table :
  DayWindows -> uniqueIds table ->
  Permutation ids (map row_id (List.filter (inBucket day p) table)) ->
  (forall day' (p' : Period), p' <> "" ->
     (forall r, inBucket day p r = true -> inBucket day' p' r = false) ->
     dense (DB_list (Some day') (Some p') table)) ->
  Dense (renumber ids 0 table).
Proof.
  intros Hw Hu Hperm Hd day' p' Hp'.
  destruct (buckets_same_or_apart day p day' p' Hw) as [Hsame|Hapart].
  - now apply (renumber_same day p).
  - apply dense_rows; [assumption|].
    rewrite (renumber_apart day p) by
      (try assumption; intros i Hi; eapply Permutation_in; eauto).
    apply dense_rows; [assumption|]. now apply Hd.
Qed.

End DensePreserved.

Section DenseMethods.

Context `{DateFns} `{SqlJs} `{Nanoid}.

Lemma listing_ids day (p : Period) table :
  p <> "" ->
  map id (DB_list (Some day) (Some p) table)
  = map row_id (SQL.orderBy (List.filter (inBucket day p) table)).
Proof. intros Hp. rewrite DB_list_bucket by assumption. apply map_id_toTask. Qed.

Lemma updateOrder_keeps_dense s day (p : Period) ids :
  DayWindows -> wellFormed (db s) -> Dense (db s) -> p <> "" ->
  Permutation ids (map id (DB_list (Some day) (Some p) (db s))) ->
  DB_updateOrder day p ids s
  = (Return tt, after DB_save (set_db (renumber ids 0 (db s)) s))
  /\ wellFormed (renumber ids 0 (db s)) /\ Dense (renumber ids 0 (db s)).
Proof.
  intros Hw Hwf Hd Hp Hperm. split; [|split].
  - apply DB_updateOrder_members. intros i Hi. eapply Permutation_in; eauto.
  - now apply wellFormed_renumber.
  - apply (Dense_renumber day p); try assumption; [apply Hwf| |].
    + rewrite Hperm, listing_ids by assumption.
      apply Permutation_map, OrderBy.orderBy_perm.
    + intros day' p' Hp' _. now apply Hd.
Qed.

Lemma delete_keeps_dense s i :
  DayWindows -> wellFormed (db s) -> Dense (db s) ->
  wellFormed (db (after (DB_delete i) s)) /\ Dense (db (after (DB_delete i) s)).
Proof.
  intros Hw Hwf Hd. unfold after. rewrite DB_delete_eq.
  destruct (List.find (SQL.idIs i) (db s)) as [r0|] eqn:Hfind; [|now split].
  apply find_some in Hfind as [Hin Hid%idIs_eq]. subst i. cbv zeta. simpl.
  set (table1 := List.filter (fun r => negb (SQL.idIs (row_id r0) r)) (db s)).
  destruct Hwf as [Hu Hper].
  assert (Hp0 : row_period r0 <> "")
    by (rewrite List.Forall_forall in Hper; now apply Hper).
  assert (Hwf1 : wellFormed table1) by (apply wellFormed_filter; now split).
  assert (Hids : map id (List.filter (fun t => negb (String.eqb (row_id r0) (id t)))
                           (DB_list (Some (row_date r0)) (Some (row_period r0)) table1))
                 = map row_id (SQL.orderBy
                                 (List.filter (inBucket (row_date r0) (row_period r0)) table1))).
  { rewrite filter_all; [now apply listing_ids|].
    rewrite DB_list_bucket by assumption.
    intros t (r & <- & Hr)%in_map_iff.
    apply OrderBy.orderBy_In, filter_In in Hr as [Hr _].
    apply filter_In in Hr as [_ Hr]. unfold SQL.idIs in Hr.
    simpl. now rewrite String.eqb_sym. }
  rewrite Hids. split; [now apply wellFormed_renumber|].
  apply (Dense_renumber (row_date r0) (row_period r0)); try assumption; [apply Hwf1| |].
  - apply Permutation_map, OrderBy.orderBy_perm.
  - intros day' p' Hp' Hapart.
    assert (Hout : inBucket day' p' r0 = false).
    { apply not_true_iff_false. intros Hb.
      pose proof (proj1 (inBucket_spec _ _ _) Hb) as [Hdate Hper0].
      pose proof (inBucket_same_window day' (row_date r0) p' r0 Hw Hdate) as Hsame.
      rewrite <- Hper0 in Hsame at 1. rewrite Hb in Hsame.
      apply Hapart in Hsame. congruence. }
    apply dense_rows; [assumption|].
    unfold table1. rewrite filter_filter_commute.
    rewrite (filter_all (fun r => negb (SQL.idIs (row_id r0) r))).
    + apply dense_rows; [assumption|]. now apply Hd.
    + intros x [Hx Hbx]%filter_In. apply negb_true_iff, not_true_iff_false.
      intros Hidx%idIs_eq.
      assert (x = r0) as -> by (eapply uniqueIds_eq; eauto).
      congruence.
Qed.

Lemma clearPeriod_keeps_dense s day (p : Period) :
  DayWindows -> wellFormed (db s) -> Dense (db s) ->
  wellFormed (db (after (DB_clearPeriod day p) s))
  /\ Dense (db (after (DB_clearPeriod day p) s)).
Proof.
  intros Hw Hwf Hd. unfold after. rewrite DB_clearPeriod_eq. simpl.
  split; [now apply wellFormed_filter|].
  intros day' p' Hp'. apply dense_rows; [assumption|].
  rewrite filter_filter_commute.
  destruct (buckets_same_or_apart day p day' p' Hw) as [Hsame|Hapart].
  - rewrite (filter_none (fun r => negb (inBucket day p r))); [constructor|].
    intros x [_ Hx]%filter_In. rewrite Hsame in Hx. now rewrite Hx.
  - rewrite (filter_all (fun r => negb (inBucket day p r))).
    + apply dense_rows; [assumption|]. now apply Hd.
    + intros x [_ Hx]%filter_In. apply negb_true_iff, not_true_iff_false.
      intros Hb. apply Hapart in Hb. congruence.
Qed.

End DenseMethods.

Section Arranged.

Context `{DateFns} `{SqlJs} `{Nanoid}.

(** After a call that lists the whole bucket, the listing is in the order
    of [orderedIds]. *)
Lemma listing_after_renumber day (p : Period) ids table :
  uniqueIds table -> p <> "" ->
  Permutation ids (map row_id (List.filter (inBucket day p) table)) ->
  map id (DB_list (Some day) (Some p) (renumber ids 0 table)) = ids
  /\ map sortOrder (DB_list (Some day) (Some p) (renumber ids 0 table))
     = map Z.of_nat (seq 0 (length ids)).
Proof.
  intros Hu Hp Hperm.
  rewrite DB_list_bucket, map_id_toTask, map_sortOrder_toTask by assumption.
  rewrite filter_renumber.
  apply Permutation_map_inv in Hperm as (L & -> & HBL).
  assert (HL : uniqueIds L).
  { eapply uniqueIds_perm; [exact HBL|]. now apply uniqueIds_filter. }
  destruct (renumber_in_order L 0 HL) as [Hkeys _].
  assert (Hsorted : SQL.orderBy (renumber (map row_id L) 0
                                   (List.filter (inBucket day p) table))
                    = renumber (map row_id L) 0 L).
  { apply OrderBy.orderBy_unique.
    - rewrite Hkeys. apply NoDup_numbers.
    - apply (sorted_numbers _ 0%nat). now rewrite renumber_length.
    - unfold renumber. now apply Permutation_map. }
  rewrite Hsorted, Hkeys, length_map. split; [|reflexivity].
  unfold renumber. rewrite map_map. apply map_ext. intros r. apply renumberRow_id.
Qed.

End Arranged.

(** C2, as the code has it: in a table with unique ids and no empty
    period whose buckets are all dense, [update], [markComplete],
    [markIncomplete], [delete] and [clearPeriod] leave every bucket dense,
    whether they return or throw, and so does an [updateOrder] whose
    [orderedIds] is an arrangement of all the ids of its bucket, which
    returns and leaves that bucket listed in the order of [orderedIds]
    with [sortOrder] 0, 1, ...  ([create], [copyIncompletes] and an
    [updateOrder] over a part of the bucket are not among them.) *)
Theorem dense_buckets_preserved `{DateFns} `{SqlJs} `{Nanoid} (s : State) :
  DayWindows -> wellFormed (db s) -> Dense (db s) ->
  (forall i n,
      wellFormed (db (after (DB_update i n) s))
      /\ Dense (db (after (DB_update i n) s)))
  /\ (forall i,
      wellFormed (db (after (DB_markComplete i) s))
      /\ Dense (db (after (DB_markComplete i) s)))
  /\ (forall i,
      wellFormed (db (after (DB_markIncomplete i) s))
      /\ Dense (db (after (DB_markIncomplete i) s)))
  /\ (forall i,
      wellFormed (db (after (DB_delete i) s))
      /\ Dense (db (after (DB_delete i) s)))
  /\ (forall day p,
      wellFormed (db (after (DB_clearPeriod day p) s))
      /\ Dense (db (after (DB_clearPeriod day p) s)))
  /\ (forall day p ids,
      p <> "" ->
      Permutation ids (map id (DB_list (Some day) (Some p) (db s))) ->
      fst (DB_updateOrder day p ids s) = Return tt
      /\ wellFormed (db (after (DB_updateOrder day p ids) s))
      /\ Dense (db (after (DB_updateOrder day p ids) s))
      /\ map id (DB_list (Some day) (Some p) (db (after (DB_updateOrder day p ids) s)))
         = ids
      /\ map sortOrder
           (DB_list (Some day) (Some p) (db (after (DB_updateOrder day p ids) s)))
         = map Z.of_nat (seq 0 (length ids))).
Proof.
  intros Hw Hwf Hd. repeat apply conj.
  - intros i n. unfold after. rewrite DB_update_eq.
    destruct (List.find (SQL.idIs i) (db s)); [|now split]. simpl.
    split; [now apply wellFormed_updated | now apply Dense_updated].
  - intros i. unfold after. rewrite DB_markComplete_eq.
    destruct (List.find (SQL.idIs i) (db s)); [|now split]. simpl.
    split; [now apply wellFormed_updated | now apply Dense_updated].
  - intros i. unfold after. rewrite DB_markIncomplete_eq.
    destruct (List.find (SQL.idIs i) (db s)); [|now split]. simpl.
    split; [now apply wellFormed_updated | now apply Dense_updated].
  - intros i. now apply delete_keeps_dense.
  - intros day p. now apply clearPeriod_keeps_dense.
  - intros day p ids Hp Hperm.
    destruct (updateOrder_keeps_dense s day p ids Hw Hwf Hd Hp Hperm)
      as (Hrun & Hwf' & Hd').
    unfold after. rewrite Hrun. simpl.
    split; [reflexivity|]. split; [exact Hwf'|]. split; [exact Hd'|].
    apply listing_after_renumber; [apply Hwf | assumption |].
    rewrite Hperm, listing_ids by assumption.
    apply Permutation_map, OrderBy.orderBy_perm.
Qed.

(** The example state: two tasks of one bucket, numbered 0 and 1. *)
Lemma twoTasksOrdered_rows :
  db Host.twoTasksOrdered
  = [ {| row_id := Host.code 10 0; row_name := "Buy milk"; row_complete := 0;
         row_sortOrder := 0; row_period := "days"; row_date := Host.june10 |};
      {| row_id := Host.code 10 1; row_name := "Call home"; row_complete := 0;
         row_sortOrder := 1; row_period := "days"; row_date := Host.june10 |} ].
Proof. vm_compute. reflexivity. Qed.

Lemma twoTasksOrdered_wellFormed : wellFormed (db Host.twoTasksOrdered).
Proof.
  rewrite twoTasksOrdered_rows. split.
  - unfold uniqueIds. vm_compute. repeat constructor; simpl.
    + intros [Hx|[]]. discriminate Hx.
    + intros [].
  - repeat constructor; discriminate.
Qed.

Lemma twoTasksOrdered_Dense : Dense (db Host.twoTasksOrdered).
Proof.
  intros day p Hp. apply dense_rows; [assumption|].
  rewrite twoTasksOrdered_rows.
  cbn [List.filter].
  match goal with
  | |- context [if inBucket day p ?a then _ else (if inBucket day p ?b then _ else _)] =>
      change (inBucket day p b) with (inBucket day p a);
      destruct (inBucket day p a)
  end; simpl; reflexivity.
Qed.

Lemma dense_buckets_preserved_witness :
  Dense (db (after (DB_delete (Host.code 10 0)) Host.twoTasksOrdered))
  /\ map id (DB_list (Some Host.june10) (Some "days")
               (db (after (DB_updateOrder Host.june10 "days"
                             [Host.code 10 1; Host.code 10 0]) Host.twoTasksOrdered)))
     = [Host.code 10 1; Host.code 10 0].
Proof.
  pose proof (dense_buckets_preserved Host.twoTasksOrdered utc_day_windows
                twoTasksOrdered_wellFormed twoTasksOrdered_Dense)
    as (_ & _ & _ & Hdelete & _ & Horder).
  split.
  - apply Hdelete.
  - apply (Horder Host.june10 "days" [Host.code 10 1; Host.code 10 0]).
    + discriminate.
    + vm_compute. apply perm_swap.
Defined.

(** The claim C2 as the specification words it fails twice: the first
    task that a first run creates is numbered 1, not 0; and a completed
    [updateOrder] that lists a part of a dense bucket leaves it with a
    [sortOrder] held twice. *)
Lemma dense_invariant_counterexample :
  (reachable Host.oneTask
   /\ map sortOrder (DB_list (Some Host.june10) (Some "days") (db Host.oneTask)) = [1]
   /\ ~ dense (DB_list (Some Host.june10) (Some "days") (db Host.oneTask))
   /\ ~ (forall s, reachable s -> Dense (db s)))
  /\ (reachable Host.twoTasksOrdered
      /\ Dense (db Host.twoTasksOrdered)
      /\ fst (DB_updateOrder Host.june10 "days" [Host.code 10 1] Host.twoTasksOrdered)
         = Return tt
      /\ ~ Dense (db (after (DB_updateOrder Host.june10 "days" [Host.code 10 1])
                        Host.twoTasksOrdered))).
Proof.
  assert (Hone : ~ dense (DB_list (Some Host.june10) (Some "days") (db Host.oneTask))).
  { unfold dense. intros Hp.
    assert (Hin : In 0 (map sortOrder
                          (DB_list (Some Host.june10) (Some "days") (db Host.oneTask)))).
    { eapply Permutation_in; [symmetry; exact Hp|]. vm_compute. now left. }
    vm_compute in Hin. destruct Hin as [Hx|[]]. discriminate Hx. }
  split; repeat apply conj.
  - apply (reachable_call (create "Buy milk" Host.june10 "days")), reachable_firstRun.
  - vm_compute. reflexivity.
  - exact Hone.
  - intros Hall. apply Hone. apply (Hall Host.oneTask).
    + apply (reachable_call (create "Buy milk" Host.june10 "days")), reachable_firstRun.
    + discriminate.
  - apply (reachable_call (updateOrder Host.june10 "days" [Host.code 10 0; Host.code 10 1])).
    apply (reachable_call (create "Call home" Host.june10 "days")).
    apply (reachable_call (create "Buy milk" Host.june10 "days")), reachable_firstRun.
  - exact twoTasksOrdered_Dense.
  - vm_compute. reflexivity.
  - intros Hall. apply partial_reorder_not_dense, Hall. discriminate.
Qed.

(** ** [copyIncompletes] *)
Section CopyIncompletes.

Context `{DateFns} `{SqlJs} `{Nanoid}.

Lemma DB_copyIncompletes_eq d (p : Period) s :
  DB_copyIncompletes d p s =
  bind (for_of (fun task => bind (DB_create (name task) d p) (fun _ => ret tt))
          (List.filter (fun task => negb (complete task))
             (DB_list (Some (previousAnchor d p)) (Some p) (db s))))
       (fun _ => DB_save) s.
Proof.
  unfold DB_copyIncompletes, previousAnchor. unfold bind at 1, query at 1.
  destruct (String.eqb p "days"); [reflexivity|].
  destruct (String.eqb p "weeks"); [reflexivity|].
  destruct (String.eqb p "months"); reflexivity.
Qed.

Lemma freshIds_next s k r :
  freshIds s (S k) -> row_id r = nanoid (ids_drawn s) ->
  freshIds {| db := db s ++ [r];
              localStorage := <[DB_KEY := image (db s ++ [r])]> (localStorage s);
              ids_drawn := S (ids_drawn s) |} k.
Proof.
  intros [Hnd Hnew] Hid. simpl in Hnd. inversion Hnd as [|? ? Hnotin Hnd']; subst.
  split; simpl; [exact Hnd'|].
  intros j Hj. rewrite map_app, in_app_iff. intros [Hin|[Hin|[]]].
  - apply (Hnew j); [lia | exact Hin].
  - apply Hnotin. rewrite Hid in Hin. rewrite Hin.
    apply in_map, in_seq. lia.
Qed.

(** The loop of [copyIncompletes]: one row appended for each task. *)
Lemma create_each d (p : Period) tasks : forall s,
  freshIds s (length tasks) ->
  exists news s',
    for_of (fun task => bind (DB_create (name task) d p) (fun _ => ret tt)) tasks s
    = (Return tt, s')
    /\ db s' = db s ++ news
    /\ map row_name news = map name tasks
    /\ Forall (fun r => row_period r = p /\ row_date r = startOfPeriod d p
                        /\ row_complete r = 0) news.
Proof.
  induction tasks as [|t tasks IH]; intros s Hfresh; simpl.
  - exists [], s. rewrite app_nil_r. repeat split. constructor.
  - assert (Hnew : ~ In (nanoid (ids_drawn s)) (map row_id (db s)))
      by (apply (proj2 Hfresh); simpl; lia).
    pose proof (DB_create_fresh (name t) d p s Hnew) as Hc. cbv zeta in Hc.
    set (r := newRow (nanoid (ids_drawn s)) (name t) d p (db s)) in *.
    destruct (IH _ (freshIds_next s (length tasks) r Hfresh eq_refl))
      as (news & s' & Hloop & Hdb & Hnames & Hall).
    exists (r :: news), s'. repeat apply conj.
    + unfold bind at 1. unfold bind at 1. rewrite Hc. exact Hloop.
    + rewrite Hdb. simpl. now rewrite <- app_assoc.
    + simpl. now rewrite Hnames.
    + constructor; [|exact Hall]. repeat split.
Qed.

End CopyIncompletes.

(** C8: [copyIncompletes(day, period)] lists the bucket of the day one
    day back for "days", one week back for "weeks", one month back for
    "months" and one year back for every other period, and, when the
    identifiers it draws are new, returns having appended one row for each
    incomplete task of that listing and none for a complete one: the new
    rows carry the names of the incomplete tasks, in the order of the
    listing, the given [period], the [date] of [create] for the given
    [day], and [complete] 0. *)
Theorem copyIncompletes_copies_incomplete `{DateFns} `{SqlJs} `{Nanoid}
    (s : State) (d : Date) (p : Period) :
  let previous := DB_list (Some (previousAnchor d p)) (Some p) (db s) in
  let incompletes := List.filter (fun task => negb (complete task)) previous in
  freshIds s (length incompletes) ->
  previousAnchor d "days" = startOfDay (subDays d 1)
  /\ previousAnchor d "weeks" = startOfWeek (subWeeks d 1)
  /\ previousAnchor d "months" = startOfMonth (subMonths d 1)
  /\ (p <> "days" -> p <> "weeks" -> p <> "months" ->
      previousAnchor d p = startOfYear (subYears d 1))
  /\ exists news s',
       DB_copyIncompletes d p s = (Return tt, s')
       /\ db s' = db s ++ news
       /\ map row_name news = map name incompletes
       /\ Forall (fun task => complete task = false) incompletes
       /\ (forall task, In task previous -> complete task = false -> In task incompletes)
       /\ Forall (fun r => row_period r = p /\ row_date r = startOfPeriod d p
                           /\ row_complete r = 0) news.
Proof.
  intros previous incompletes Hfresh.
  split; [reflexivity|]. split; [reflexivity|]. split; [reflexivity|]. split.
  - intros Hd Hw Hm. unfold previousAnchor.
    apply String.eqb_neq in Hd, Hw, Hm. now rewrite Hd, Hw, Hm.
  - destruct (create_each d p incompletes s Hfresh)
      as (news & s1 & Hloop & Hdb & Hnames & Hall).
    exists news, (after DB_save s1). repeat apply conj.
    + rewrite DB_copyIncompletes_eq. fold previous. fold incompletes.
      unfold bind at 1. now rewrite Hloop.
    + exact Hdb.
    + exact Hnames.
    + apply List.Forall_forall. intros task [_ Ht]%filter_In.
      now apply negb_true_iff in Ht.
    + intros task Hin Hc. apply filter_In. split; [exact Hin|]. now rewrite Hc.
    + exact Hall.
Qed.

Lemma copyIncompletes_copies_incomplete_witness :
  exists news s',
    DB_copyIncompletes Host.june11 "days" Host.secondDone = (Return tt, s')
    /\ db s' = db Host.secondDone ++ news
    /\ map row_name news = ["Buy milk"].
Proof.
  destruct (copyIncompletes_copies_incomplete Host.secondDone Host.june11 "days")
    as (_ & _ & _ & _ & news & s' & Hrun & Hdb & Hnames & _).
  - split.
    + vm_compute. repeat constructor. intros [].
    + intros j Hj.
      assert (j = 2%nat) as -> by (vm_compute in Hj; lia).
      vm_compute. intros [Hx|[Hx|[]]]; discriminate Hx.
  - exists news, s'. repeat apply conj; [exact Hrun | exact Hdb |].
    rewrite Hnames. vm_compute. reflexivity.
Defined.

(** ** The persisted image *)
Module Image.

Lemma append_cons c s t : String c s +:+ t = String c (s +:+ t).
Proof. reflexivity. Qed.

Lemma append_nil_l t : "" +:+ t = t.
Proof. reflexivity. Qed.

Lemma append_nil_r s : s +:+ "" = s.
Proof.
  induction s as [|c s IH]; [reflexivity|]. now rewrite append_cons, IH.
Qed.

Lemma append_assoc s1 s2 s3 : (s1 +:+ s2) +:+ s3 = s1 +:+ (s2 +:+ s3).
Proof.
  induction s1 as [|c s1 IH]; [reflexivity|]. now rewrite !append_cons, IH.
Qed.

Lemma plain_digits d : plain (NilEmpty.string_of_uint d) = true.
Proof. induction d; simpl; auto. Qed.

Lemma plain_number n : plain (JSON.number n) = true.
Proof. apply plain_digits. Qed.

Lemma digits_nonempty d : d <> Decimal.Nil -> NilEmpty.string_of_uint d <> "".
Proof. destruct d; simpl; intros Hd; [contradiction|..]; discriminate. Qed.

Lemma number_nonempty n : JSON.number n <> "".
Proof.
  apply digits_nonempty. destruct n as [|q]; simpl; [discriminate|].
  apply DecimalPos.Unsigned.to_uint_nonnil.
Qed.

Lemma parseNumber_number n : JSON.parseNumber (JSON.number n) = Some n.
Proof.
  unfold JSON.parseNumber. pose proof (number_nonempty n) as Hn.
  destruct (JSON.number n) eqn:Hs; [contradiction|]. rewrite <- Hs.
  unfold JSON.number. rewrite NilEmpty.usu. simpl.
  now rewrite DecimalN.Unsigned.of_to.
Qed.

Lemma parseNumbers_numbers a : JSON.parseNumbers (map JSON.number a) = Some a.
Proof.
  induction a as [|n a IH]; simpl; [reflexivity|].
  now rewrite parseNumber_number, IH.
Qed.

(** A plain text in front of the rest of the array joins its first
    element. *)
Lemma elements_plain tok rest :
  plain tok = true ->
  JSON.elements (tok +:+ rest) =
  match JSON.elements rest with
  | Some (t, ts) => Some (tok +:+ t, ts)
  | None => None
  end.
Proof.
  induction tok as [|c tok IH]; intros Hplain.
  - rewrite append_nil_l. now destruct (JSON.elements rest) as [[t ts]|].
  - simpl in Hplain. apply andb_true_iff in Hplain as [Hc Htok].
    apply andb_true_iff in Hc as [Hb Hcomma].
    apply negb_true_iff in Hb, Hcomma.
    rewrite append_cons. cbn [JSON.elements]. rewrite Hb, IH by assumption.
    destruct (JSON.elements rest) as [[t ts]|]; [|reflexivity].
    now rewrite Hcomma.
Qed.

Lemma elements_join tok toks :
  Forall (fun t => plain t = true) (tok :: toks) ->
  JSON.elements (JSON.join (tok :: toks) +:+ "]") = Some (tok, toks).
Proof.
  revert tok. induction toks as [|tok' toks IH]; intros tok Hall.
  - inversion Hall; subst. cbn [JSON.join]. rewrite elements_plain by assumption.
    cbn [JSON.elements]. simpl Ascii.eqb. cbv iota. now rewrite append_nil_r.
  - inversion Hall; subst.
    change (JSON.join (tok :: tok' :: toks))
      with (tok +:+ "," +:+ JSON.join (tok' :: toks)).
    rewrite !append_assoc. rewrite elements_plain by assumption.
    rewrite append_cons, append_nil_l.
    cbn [JSON.elements]. rewrite IH by assumption.
    simpl Ascii.eqb. cbv iota. now rewrite append_nil_r.
Qed.

(** [JSON.parse(JSON.stringify(a))] is [a]. *)
Lemma parse_stringify a : JSON.parse (JSON.stringify a) = Some a.
Proof.
  unfold JSON.stringify. destruct a as [|n a]; [reflexivity|].
  rewrite append_cons, append_nil_l. cbn [map].
  cbn [JSON.parse]. simpl Ascii.eqb. cbv iota.
  rewrite elements_join.
  - pose proof (number_nonempty n) as Hn.
    destruct (JSON.number n) eqn:Hs; [contradiction|]. rewrite <- Hs.
    apply (parseNumbers_numbers (n :: a)).
  - change (JSON.number n :: map JSON.number a) with (map JSON.number (n :: a)).
    apply Forall_map, List.Forall_forall. intros x _. apply plain_number.
Qed.

Lemma stringify_truthy a : exists c text, JSON.stringify a = String c text.
Proof. unfold JSON.stringify. simpl. eauto. Qed.

(** [new Uint8Array(Array.from(bytes))] is [bytes]. *)
Lemma Uint8Array_Array_from bytes : Uint8Array (Array_from bytes) = bytes.
Proof.
  unfold Uint8Array, Array_from. rewrite map_map.
  erewrite map_ext; [apply map_id|]. intros b. simpl.
  rewrite N.mod_small by (pose proof (Byte.to_N_bounded b); lia).
  now rewrite Byte.of_to_N.
Qed.

End Image.

Section Reload.

Context `{DateFns} `{SqlJs} `{Nanoid}.

Lemma DB_constructor_image s table :
  localStorage s !! DB_KEY = Some (image table) ->
  DB_constructor s = (Return tt, set_db (db_open (db_export table)) s).
Proof.
  intros Hslot. unfold DB_constructor. rewrite Hslot. unfold image.
  destruct (Image.stringify_truthy (Array_from (db_export table))) as (c & text & Hs).
  rewrite Hs, <- Hs. rewrite Image.parse_stringify.
  now rewrite Image.Uint8Array_Array_from.
Qed.

Lemma DB_constructor_saved s :
  DB_constructor (after DB_save s)
  = (Return tt, set_db (db_open (db_export (db s))) (after DB_save s)).
Proof.
  unfold DB_constructor, after. simpl. rewrite lookup_insert_eq.
  destruct (Image.stringify_truthy (Array_from (db_export (db s)))) as (c & text & Hs).
  rewrite Hs, <- Hs. rewrite Image.parse_stringify.
  now rewrite Image.Uint8Array_Array_from.
Qed.

End Reload.

(** C9: saving the database and then constructing a store from what
    [localStorage] holds, in a page whose store starts from any table
    whatever, opens exactly the bytes that the engine exported of the
    saved table and leaves [localStorage] as it is; so, when the engine
    reopens its export of the table as that table, the [list()] of the new
    store is the [list()] of the store that was saved: the same tasks with
    the same fields, in the same order. *)
Theorem save_then_reload_lists_the_same `{DateFns} `{SqlJs} `{Nanoid}
    (s page : State) :
  localStorage page !! DB_KEY = localStorage (after DB_save s) !! DB_KEY ->
  exists s',
    DB_constructor page = (Return tt, s')
    /\ db s' = db_open (db_export (db s))
    /\ localStorage s' = localStorage page
    /\ (db_open (db_export (db s)) = db s ->
        DB_list None None (db s') = DB_list None None (db s)).
Proof.
  intros Hslot.
  assert (Hsaved : localStorage (after DB_save s) !! DB_KEY = Some (image (db s)))
    by apply DB_save_persisted.
  rewrite Hsaved in Hslot. rewrite (DB_constructor_image page (db s) Hslot).
  eexists. split; [reflexivity|]. split; [reflexivity|]. split; [reflexivity|].
  simpl. now intros ->.
Qed.

Lemma save_then_reload_lists_the_same_witness :
  let page := {| db := db Host.busyJune;
                 localStorage := localStorage (after DB_save Host.twoTasks);
                 ids_drawn := 0 |} in
  exists s',
    DB_constructor page = (Return tt, s')
    /\ map name (DB_list None None (db s')) = ["Buy milk"; "Call home"].
Proof.
  intros page.
  destruct (save_then_reload_lists_the_same Host.twoTasks page eq_refl)
    as (s' & Hrun & _ & _ & Hlist).
  exists s'. split; [exact Hrun|]. rewrite Hlist; vm_compute; reflexivity.
Defined.

(** ** What every reachable table satisfies *)
Section Invariant.

Context `{DateFns} `{SqlJs} `{Nanoid}.

Variable Inv : list Row -> Prop.

Lemma preserves_ret {A} (a : A) : preserves Inv (ret a).
Proof. intros s Hs. exact Hs. Qed.

Lemma preserves_throw {A} e : preserves Inv (@throw A e).
Proof. intros s Hs. exact Hs. Qed.

Lemma preserves_query {A} (q : list Row -> A) : preserves Inv (query q).
Proof. intros s Hs. exact Hs. Qed.

Lemma preserves_save : preserves Inv DB_save.
Proof. intros s Hs. exact Hs. Qed.

Lemma preserves_generateId : preserves Inv generateId.
Proof. intros s Hs. exact Hs. Qed.

Lemma preserves_bind {A B} (m : JS A) (k : A -> JS B) :
  preserves Inv m -> (forall a, preserves Inv (k a)) -> preserves Inv (bind m k).
Proof.
  intros Hm Hk s Hs. specialize (Hm s Hs). unfold after, bind in *.
  destruct (m s) as [[a|e] s1]; simpl in *; [|exact Hm].
  now apply (Hk a s1).
Qed.

Lemma preserves_run stmt :
  (forall t t', Inv t -> stmt t = Return t' -> Inv t') -> preserves Inv (run stmt).
Proof.
  intros Hstmt s Hs. unfold after, run.
  destruct (stmt (db s)) as [t'|e] eqn:Ht; simpl; [|exact Hs].
  now apply (Hstmt (db s)).
Qed.

Lemma preserves_forEach_from {A} (body : A -> nat -> JS unit) l :
  (forall x k, preserves Inv (body x k)) ->
  forall k, preserves Inv (forEach_from body l k).
Proof.
  intros Hbody. induction l as [|x l IH]; intros k; simpl.
  - apply preserves_ret.
  - apply preserves_bind; [apply Hbody | intros _; apply IH].
Qed.

Lemma preserves_for_of {A} (body : A -> JS unit) l :
  (forall x, preserves Inv (body x)) -> preserves Inv (for_of body l).
Proof.
  intros Hbody. induction l as [|x l IH]; simpl.
  - apply preserves_ret.
  - apply preserves_bind; [apply Hbody | intros _; exact IH].
Qed.

Lemma preserves_checkExists i : preserves Inv (DB_checkExists i).
Proof.
  apply preserves_bind; [apply preserves_query|].
  intros [t|]; [apply preserves_ret | apply preserves_throw].
Qed.

End Invariant.

Create HintDb preserves.
#[local] Hint Resolve preserves_ret preserves_throw preserves_query preserves_save
  preserves_generateId preserves_bind preserves_run preserves_forEach_from
  preserves_for_of preserves_checkExists : preserves.

Section UniqueIds.

Context `{DateFns} `{SqlJs} `{Nanoid}.

Lemma insertInto_unique r t t' :
  uniqueIds t -> SQL.insertInto r t = Return t' -> uniqueIds t'.
Proof.
  unfold SQL.insertInto, uniqueIds. intros Hu.
  destruct (existsb (SQL.idIs (row_id r)) t) eqn:Hex; [discriminate|].
  intros [= <-]. rewrite map_app. simpl.
  apply (Permutation_NoDup (l := row_id r :: map row_id t));
    [apply Permutation_cons_append|].
  constructor; [|exact Hu].
  intros (x & Hx & Hin)%in_map_iff.
  assert (Htrue : existsb (SQL.idIs (row_id r)) t = true)
    by (apply existsb_exists; exists x; split; [exact Hin | now apply idIs_eq]).
  congruence.
Qed.

Lemma updateById_unique set i t t' :
  (forall r, row_id (set r) = row_id r) ->
  uniqueIds t -> SQL.updateById set i t = Return t' -> uniqueIds t'.
Proof.
  unfold SQL.updateById, uniqueIds. intros Hset Hu [= <-].
  rewrite map_map. erewrite map_ext; [exact Hu|].
  intros r. simpl. destruct (SQL.idIs i r); auto.
Qed.

Lemma deleteWhere_unique q t t' :
  uniqueIds t -> SQL.deleteWhere q t = Return t' -> uniqueIds t'.
Proof.
  unfold SQL.deleteWhere. intros Hu [= <-]. now apply uniqueIds_filter.
Qed.

#[local] Hint Resolve insertInto_unique deleteWhere_unique : preserves.

Lemma preserves_reorder ids i k : preserves uniqueIds (reorder ids i k).
Proof.
  unfold reorder. apply preserves_bind.
  - destruct (bool_decide (i ∈ ids)); auto with preserves.
  - intros _. apply preserves_run. intros t t'. now apply updateById_unique.
Qed.

Lemma preserves_updateOrder day p ids : preserves uniqueIds (DB_updateOrder day p ids).
Proof.
  unfold DB_updateOrder, forEach.
  apply preserves_bind; [auto with preserves|]. intros tasks.
  apply preserves_bind; [|auto with preserves].
  apply preserves_forEach_from. intros i k. apply preserves_reorder.
Qed.

Lemma preserves_create n d p : preserves uniqueIds (DB_create n d p).
Proof. unfold DB_create. eauto 12 with preserves. Qed.

Lemma preserves_perform c : forall s, uniqueIds (db s) -> uniqueIds (db (perform c s)).
Proof.
  destruct c; simpl; intros s.
  - apply preserves_create.
  - unfold DB_update. apply preserves_bind; [auto with preserves|]. intros _.
    apply preserves_bind; [|auto with preserves].
    apply preserves_run. intros t t'. now apply updateById_unique.
  - unfold DB_markComplete. apply preserves_bind; [auto with preserves|]. intros _.
    apply preserves_bind; [|eauto with preserves].
    apply preserves_run. intros t t'. now apply updateById_unique.
  - unfold DB_markIncomplete. apply preserves_bind; [auto with preserves|]. intros _.
    apply preserves_bind; [|eauto with preserves].
    apply preserves_run. intros t t'. now apply updateById_unique.
  - unfold DB_delete. apply preserves_bind; [auto with preserves|]. intros t.
    apply preserves_bind; [eauto with preserves|]. intros _.
    apply preserves_bind; [auto with preserves|]. intros tasks.
    apply preserves_bind; [apply preserves_updateOrder | auto with preserves].
  - unfold DB_copyIncompletes. apply preserves_bind; [auto with preserves|].
    intros previous. apply preserves_bind; [|auto with preserves].
    apply preserves_for_of. intros t.
    apply preserves_bind; [apply preserves_create | auto with preserves].
  - unfold DB_clearPeriod. eauto with preserves.
  - apply preserves_updateOrder.
Qed.

(** The UNIQUE constraint at work: the ids of a reachable table are
    distinct. *)
Lemma reachable_uniqueIds s : reachable s -> uniqueIds (db s).
Proof.
  induction 1 as [|c s _ IH].
  - vm_compute. constructor.
  - now apply preserves_perform.
Qed.

End UniqueIds.

(** ** The scenarios of the specification, run on the example host *)

Example scenario_A :
  map (fun t => (name t, complete t, sortOrder t))
    (DB_list (Some Host.june10) (Some "days") (db Host.oneTask))
  = [("Buy milk", false, 1)].
Proof. vm_compute. reflexivity. Qed.

Example scenario_B :
  map (fun t => (name t, sortOrder t))
    (DB_list (Some Host.june10) (Some "days") (db Host.twoTasksSwapped))
  = [("Call home", 0); ("Buy milk", 1)].
Proof. vm_compute. reflexivity. Qed.

Example scenario_C :
  map name (DB_list (Some Host.june11) (Some "days")
              (db (perform (copyIncompletes Host.june11 "days") Host.secondDone)))
  = ["Buy milk"].
Proof. vm_compute. reflexivity. Qed.

Example scenario_D :
  map name (DB_list (Some Host.june1) (Some "months") (db Host.busyJune))
  = ["Rent"; "Dentist"; "Taxes"]
  /\ DB_list (Some Host.june1) (Some "months") (db Host.clearedJune) = []
  /\ DB_list (Some Host.june1) (Some "days") (db Host.clearedJune)
     = DB_list (Some Host.june1) (Some "days") (db Host.busyJune)
  /\ map name (DB_list (Some Host.june1) (Some "days") (db Host.clearedJune))
     = ["Water plants"].
Proof. vm_compute. repeat split; reflexivity. Qed.

(** A task of a month is stored under the first day of the month, so
    [create] numbers it after every task of that day, whatever its
    period: the fourth task of 1 June is the first "days" task and gets
    [sortOrder] 4. *)
Example create_counts_every_period :
  map (fun r => (row_name r, row_period r, row_sortOrder r)) (db Host.busyJune)
  = [("Rent", "months", 1); ("Dentist", "months", 2); ("Taxes", "months", 3);
     ("Water plants", "days", 4)].
Proof. vm_compute. reflexivity. Qed.

(** When the generator repeats an identifier of the table, the INSERT of
    [create] throws and the table stays as it was. *)
Lemma DB_create_collision `{DateFns} `{SqlJs} `{Nanoid} n d p s :
  In (nanoid (ids_drawn s)) (map row_id (db s)) ->
  fst (DB_create n d p s) = Throw (Error "UNIQUE constraint failed: task.id")
  /\ db (after (DB_create n d p) s) = db s.
Proof.
  intros (r & Hid & Hin)%in_map_iff. unfold after. rewrite DB_create_eq. cbv zeta.
  assert (Hex : existsb (SQL.idIs (nanoid (ids_drawn s))) (db s) = true)
    by (apply existsb_exists; exists r; split; [exact Hin | now apply idIs_eq]).
  rewrite Hex. split; reflexivity.
Qed.

(** * More of the store and of the components *)

(** ** The four modes of [list] *)
Section ListModes.

Context `{DateFns}.

Lemma DB_list_select day period table :
  DB_list day period table
  = map toTask (SQL.orderBy (List.filter (selector day period) table)).
Proof.
  unfold DB_list, selector.
  destruct day as [day|], (truthy period) as [p|]; apply tasksOf_exec.
Qed.

Lemma filter_andb {A} (p q : A -> bool) l :
  List.filter (fun x => p x && q x) l = List.filter q (List.filter p l).
Proof.
  induction l as [|x l IH]; simpl; [reflexivity|].
  destruct (p x); simpl; [destruct (q x)|]; now rewrite IH.
Qed.

Lemma listing_spec day period table :
  Permutation (DB_list day period table)
              (map toTask (List.filter (selector day period) table))
  /\ StronglySorted (fun a b => sortOrder a <= sortOrder b) (DB_list day period table).
Proof.
  rewrite DB_list_select. split.
  - apply Permutation_map, OrderBy.orderBy_perm.
  - apply sorted_tasks, OrderBy.orderBy_sorted.
Qed.

End ListModes.

(** X1: [list()] lists every task of the table exactly once, [list(day)]
    the tasks of every period whose date lies in the window of the day,
    and [list(undefined, period)] the tasks of the period on every date,
    each in ascending [sortOrder]; an empty string as [period] is no
    filter at all. *)
Theorem list_modes_spec `{DateFns} (table : list Row) (day : Date) (p : Period) :
  let sorted := StronglySorted (fun a b => sortOrder a <= sortOrder b) in
  (Permutation (DB_list None None table) (map toTask table)
   /\ sorted (DB_list None None table))
  /\ (Permutation (DB_list (Some day) None table)
        (map toTask
           (List.filter (SQL.dateBetween (startOfDay day) (endOfDay day)) table))
      /\ sorted (DB_list (Some day) None table))
  /\ (p <> "" ->
      Permutation (DB_list None (Some p) table)
        (map toTask (List.filter (SQL.periodIs p) table))
      /\ sorted (DB_list None (Some p) table))
  /\ DB_list (Some day) (Some "") table = DB_list (Some day) None table
  /\ DB_list None (Some "") table = DB_list None None table.
Proof.
  cbv zeta. repeat apply conj; try reflexivity;
    try (intros Hp; split); try apply (listing_spec None None);
    try apply (listing_spec (Some day) None).
  - pose proof (proj1 (listing_spec None None table)) as Hperm.
    unfold selector in Hperm. simpl in Hperm.
    rewrite Hperm. apply Permutation_map.
    rewrite filter_all; [reflexivity | reflexivity].
  - pose proof (proj1 (listing_spec None (Some p) table)) as Hperm.
    unfold selector in Hperm. now rewrite truthy_Some in Hperm.
  - apply (listing_spec None (Some p)).
Qed.

Lemma list_modes_spec_witness :
  map name (DB_list None (Some "months") (db Host.busyJune))
  = ["Rent"; "Dentist"; "Taxes"]
  /\ Permutation (DB_list None (Some "months") (db Host.busyJune))
       (map toTask (List.filter (SQL.periodIs "months") (db Host.busyJune))).
Proof.
  split; [vm_compute; reflexivity|].
  apply (list_modes_spec (db Host.busyJune) Host.june1 "months"). discriminate.
Defined.

(** X2: the listing of a bucket is the listing of its day with the tasks
    of the other periods left out, and the listing of its period with the
    tasks of the other days left out, in the same order; so it is never
    longer than the listing of the day, which [create] counts. *)
Theorem bucket_listing_refines `{DateFns} (table : list Row) (day : Date) (p : Period) :
  p <> "" ->
  DB_list (Some day) (Some p) table
  = List.filter (fun t => String.eqb (period t) p) (DB_list (Some day) None table)
  /\ DB_list (Some day) (Some p) table
     = List.filter (fun t => (startOfDay day <=? date t) && (date t <? endOfDay day))
         (DB_list None (Some p) table)
  /\ (length (DB_list (Some day) (Some p) table)
      <= length (DB_list (Some day) None table))%nat.
Proof.
  intros Hp.
  assert (Hday : DB_list (Some day) (Some p) table
                 = List.filter (fun t => String.eqb (period t) p)
                     (DB_list (Some day) None table)).
  { rewrite !DB_list_select. unfold selector. rewrite truthy_Some by assumption.
    simpl truthy. cbv iota. rewrite filter_map_swap. f_equal.
    rewrite OrderBy.orderBy_filter. f_equal. apply filter_andb. }
  split; [exact Hday|]. split.
  - rewrite !DB_list_select. unfold selector. rewrite truthy_Some by assumption.
    rewrite filter_map_swap. f_equal.
    rewrite OrderBy.orderBy_filter. f_equal.
    rewrite <- filter_andb. apply filter_ext. intros r.
    unfold SQL.dateBetween. simpl. apply andb_comm.
  - rewrite Hday. apply filter_length_le.
Qed.

Lemma bucket_listing_refines_witness :
  map name (DB_list (Some Host.june1) (Some "days") (db Host.busyJune))
  = ["Water plants"]
  /\ map name (DB_list (Some Host.june1) None (db Host.busyJune))
     = ["Rent"; "Dentist"; "Taxes"; "Water plants"]
  /\ DB_list (Some Host.june1) (Some "days") (db Host.busyJune)
     = List.filter (fun t => String.eqb (period t) "days")
         (DB_list (Some Host.june1) None (db Host.busyJune)).
Proof.
  split; [vm_compute; reflexivity|]. split; [vm_compute; reflexivity|].
  exact (proj1 (bucket_listing_refines (db Host.busyJune) Host.june1 "days"
                  ltac:(discriminate))).
Defined.

(** ** Where [create] puts a task *)
Section Created.

Context `{DateFns} `{SqlJs} `{Nanoid}.

Lemma listed_id_iff day (p : Period) table i :
  p <> "" ->
  In i (map id (DB_list (Some day) (Some p) table))
  <-> exists r, In r table /\ row_id r = i /\ inBucket day p r = true.
Proof.
  intros Hp. rewrite listing_ids by assumption. rewrite in_map_iff. split.
  - intros (r & Hid & Hr). apply OrderBy.orderBy_In, filter_In in Hr as [Hr Hb]. eauto.
  - intros (r & Hr & Hid & Hb). exists r. split; [exact Hid|].
    apply OrderBy.orderBy_In, filter_In. now split.
Qed.

End Created.

(** X3: the task that [create(name, day, period)] inserts is in
    [list(day', period)] exactly when its normalized date,
    [startOfPeriod(day, period)], lies in the window of [day']: with
    "days" it is listed under its own day as soon as the day starts
    before it ends, while a task of a week, month or year is listed under
    [day] only if [day] is in the first day of that period. *)
Theorem created_task_listed_iff `{DateFns} `{SqlJs} `{Nanoid}
    (s : State) (n : string) (d d' : Date) (p : Period) :
  p <> "" ->
  ~ In (nanoid (ids_drawn s)) (map row_id (db s)) ->
  let s' := after (DB_create n d p) s in
  (In (nanoid (ids_drawn s)) (map id (DB_list (Some d') (Some p) (db s')))
   <-> startOfDay d' <= startOfPeriod d p < endOfDay d')
  /\ (forall p', p' <> "" -> p' <> p ->
        ~ In (nanoid (ids_drawn s)) (map id (DB_list (Some d') (Some p') (db s'))))
  /\ (p = "days" ->
      (In (nanoid (ids_drawn s)) (map id (DB_list (Some d) (Some p) (db s')))
       <-> startOfDay d < endOfDay d)).
Proof.
  intros Hp Hfresh s'.
  assert (Hdb : db s' = db s ++ [newRow (nanoid (ids_drawn s)) n d p (db s)]).
  { unfold s', after. now rewrite (DB_create_fresh n d p s Hfresh). }
  assert (Hrow : forall r, In r (db s') -> row_id r = nanoid (ids_drawn s) ->
                           r = newRow (nanoid (ids_drawn s)) n d p (db s)).
  { intros r Hr Hid. rewrite Hdb in Hr. apply in_app_iff in Hr as [Hr|[Hr|[]]]; [|auto].
    exfalso. apply Hfresh. rewrite <- Hid. now apply in_map. }
  assert (Hmain : forall day p', p' <> "" ->
            In (nanoid (ids_drawn s)) (map id (DB_list (Some day) (Some p') (db s')))
            <-> (startOfDay day <= startOfPeriod d p < endOfDay day) /\ p = p').
  { intros day p' Hp'. rewrite listed_id_iff by assumption. split.
    - intros (r & Hr & Hid & Hb). rewrite (Hrow r Hr Hid) in Hb.
      now apply inBucket_spec in Hb.
    - intros Hb. exists (newRow (nanoid (ids_drawn s)) n d p (db s)).
      split; [rewrite Hdb; apply in_app_iff; right; now left|].
      split; [reflexivity|]. now apply inBucket_spec. }
  split; [|split].
  - rewrite Hmain by assumption. tauto.
  - intros p' Hp' Hne Hin. apply Hmain in Hin; [|assumption]. destruct Hin. congruence.
  - intros ->. rewrite Hmain by assumption.
    change (startOfPeriod d "days") with (startOfDay d). split; [lia|].
    intros Hlt. split; [lia | reflexivity].
Qed.

Lemma created_task_listed_iff_witness :
  ~ In (Host.code 10 0)
      (map id (DB_list (Some Host.june10) (Some "weeks") (db Desk.weekTask)))
  /\ In (Host.code 10 0)
       (map id (DB_list (Some (UTC.utc 2024 6 9)) (Some "weeks") (db Desk.weekTask))).
Proof.
  assert (Hp : "weeks" <> "") by discriminate.
  assert (Hfresh : ~ In (nanoid (ids_drawn firstRun)) (map row_id (db firstRun)))
    by (vm_compute; intros []).
  split.
  - intros Hin.
    apply (proj1 (created_task_listed_iff firstRun "Review" Host.june10 Host.june10
                    "weeks" Hp Hfresh)) in Hin.
    vm_compute in Hin. destruct Hin as [Hle _]. now apply Hle.
  - apply (proj1 (created_task_listed_iff firstRun "Review" Host.june10
                    (UTC.utc 2024 6 9) "weeks" Hp Hfresh)).
    vm_compute. split; [discriminate | reflexivity].
Defined.

(** X4: when the generator repeats an identifier that is in the table,
    [create] throws the error of the UNIQUE constraint; the table and
    [localStorage] stay as they were, no task is returned, and the
    identifier is used up, so the next call draws the next one. *)
Theorem create_rejects_repeated_id `{DateFns} `{SqlJs} `{Nanoid}
    (s : State) (n : string) (d : Date) (p : Period) :
  In (nanoid (ids_drawn s)) (map row_id (db s)) ->
  DB_create n d p s
  = (Throw (Error "UNIQUE constraint failed: task.id"),
     {| db := db s; localStorage := localStorage s; ids_drawn := S (ids_drawn s) |}).
Proof.
  intros (r & Hid & Hin)%in_map_iff. rewrite DB_create_eq. cbv zeta.
  assert (Hex : existsb (SQL.idIs (nanoid (ids_drawn s))) (db s) = true)
    by (apply existsb_exists; exists r; split; [exact Hin | now apply idIs_eq]).
  now rewrite Hex.
Qed.

Lemma create_rejects_repeated_id_witness :
  fst (@DB_create utcDateFns Host.engine Desk.stuck "Again" Host.june10 "days" Host.oneTask)
  = Throw (Error "UNIQUE constraint failed: task.id")
  /\ db (snd (@DB_create utcDateFns Host.engine Desk.stuck "Again" Host.june10 "days"
                Host.oneTask))
     = db Host.oneTask.
Proof.
  rewrite (@create_rejects_repeated_id utcDateFns Host.engine Desk.stuck
             Host.oneTask "Again" Host.june10 "days").
  - split; reflexivity.
  - vm_compute. now left.
Defined.

Lemma twoTasks_uniqueIds : uniqueIds (db Host.twoTasks).
Proof.
  apply reachable_uniqueIds.
  apply (reachable_call (create "Call home" Host.june10 "days")).
  apply (reachable_call (create "Buy milk" Host.june10 "days")), reachable_firstRun.
Qed.

(** X5: after any sequence of calls of the methods on a first run, the
    UNIQUE constraint has kept the ids apart: no listing shows an id
    twice, and [read] of the id of a listed task returns that very task. *)
Theorem listed_tasks_read_back `{DateFns} `{SqlJs} `{Nanoid}
    (s : State) (day : option Date) (period : option Period) :
  reachable s ->
  List.NoDup (map id (DB_list day period (db s)))
  /\ forall t, In t (DB_list day period (db s)) -> DB_read (id t) (db s) = Some t.
Proof.
  intros Hu%reachable_uniqueIds. rewrite DB_list_select. split.
  - rewrite map_id_toTask.
    apply (uniqueIds_perm (List.filter (selector day period) (db s)));
      [symmetry; apply OrderBy.orderBy_perm | now apply uniqueIds_filter].
  - intros t (r & <- & Hr)%in_map_iff.
    apply OrderBy.orderBy_In, filter_In in Hr as [Hr _].
    rewrite DB_read_find. change (id (toTask r)) with (row_id r).
    now rewrite (find_id_unique (row_id r) (db s) r Hu Hr eq_refl).
Qed.

Lemma listed_tasks_read_back_witness :
  map (fun t => DB_read (id t) (db Host.twoTasks))
    (DB_list (Some Host.june10) None (db Host.twoTasks))
  = map Some (DB_list (Some Host.june10) None (db Host.twoTasks)).
Proof.
  apply map_ext_in_iff. intros t Ht.
  assert (Hreach : reachable Host.twoTasks).
  { apply (reachable_call (create "Call home" Host.june10 "days")).
    apply (reachable_call (create "Buy milk" Host.june10 "days")), reachable_firstRun. }
  exact (proj2 (listed_tasks_read_back Host.twoTasks (Some Host.june10) None Hreach) t Ht).
Defined.

(** ** [update], [markComplete] and [markIncomplete] *)
Section Updating.

Context `{DateFns} `{SqlJs} `{Nanoid}.

Lemma find_updated set i table :
  (forall r, row_id (set r) = row_id r) ->
  List.find (SQL.idIs i) (updated set i table)
  = option_map set (List.find (SQL.idIs i) table).
Proof.
  intros Hset. unfold updated. induction table as [|r table IH]; simpl; [reflexivity|].
  destruct (SQL.idIs i r) eqn:Hr.
  - assert (Hr' : SQL.idIs i (set r) = true)
      by (apply idIs_eq; rewrite Hset; now apply idIs_eq).
    now rewrite Hr'.
  - now rewrite Hr.
Qed.

Lemma updated_twice set i table :
  (forall r, row_id (set r) = row_id r) ->
  (forall r, set (set r) = set r) ->
  updated set i (updated set i table) = updated set i table.
Proof.
  intros Hid Hset. unfold updated. rewrite map_map. apply map_ext. intros r.
  destruct (SQL.idIs i r) eqn:Hr; [|now rewrite Hr].
  assert (Hr' : SQL.idIs i (set r) = true)
    by (apply idIs_eq; rewrite Hid; now apply idIs_eq).
  now rewrite Hr', Hset.
Qed.

Lemma find_other_updated set i j table :
  (forall r, row_id (set r) = row_id r) -> j <> i ->
  List.find (SQL.idIs j) (updated set i table) = List.find (SQL.idIs j) table.
Proof.
  intros Hset Hj. unfold updated. induction table as [|x l IH]; simpl; [reflexivity|].
  destruct (SQL.idIs i x) eqn:Hx.
  - assert (Hjx : SQL.idIs j x = false).
    { apply not_true_iff_false. intros Hjx%idIs_eq. apply idIs_eq in Hx. congruence. }
    assert (Hjx' : SQL.idIs j (set x) = false)
      by (unfold SQL.idIs in *; now rewrite Hset).
    now rewrite Hjx', Hjx.
  - destruct (SQL.idIs j x); [reflexivity | exact IH].
Qed.

(** A rewrite of the rows that leaves [sortOrder], [period] and [date]
    alone leaves every listing in its order. *)
Lemma DB_list_updated set i day period table :
  (forall r, row_sortOrder (set r) = row_sortOrder r) ->
  (forall r, row_period (set r) = row_period r) ->
  (forall r, row_date (set r) = row_date r) ->
  DB_list day period (updated set i table)
  = map toTask (updated set i (SQL.orderBy (List.filter (selector day period) table))).
Proof.
  intros Hkey Hper Hdate. rewrite DB_list_select. f_equal. unfold updated.
  rewrite filter_map_commute.
  - apply OrderBy.orderBy_map. intros r. destruct (SQL.idIs i r); auto.
  - intros r. unfold selector, SQL.dateBetween, SQL.periodIs.
    destruct (SQL.idIs i r); [|reflexivity]. now rewrite Hper, Hdate.
Qed.

Lemma saved_twice s :
  after DB_save (after DB_save s) = after DB_save s.
Proof.
  unfold after; simpl. f_equal. apply insert_insert_eq.
Qed.

Lemma marked s i v :
  In i (map row_id (db s)) ->
  let mark := if Z.eqb v 1 then DB_markComplete else DB_markIncomplete in
  v = 1 \/ v = 0 ->
  exists t s',
    mark i s = (Return (Some t), s')
    /\ id t = i /\ complete t = (v =? 1)
    /\ db s' = updated (SQL.setComplete v) i (db s)
    /\ persisted s'
    /\ (forall day period,
          map unflagged (DB_list day period (db s'))
          = map unflagged (DB_list day period (db s)))
    /\ (forall j, j <> i -> DB_read j (db s') = DB_read j (db s))
    /\ mark i s' = (Return (Some t), s').
Proof.
  intros Hin mark Hv. apply find_id_Some in Hin as (r & Hfind & _ & Hid).
  assert (Hfind' : List.find (SQL.idIs i) (updated (SQL.setComplete v) i (db s))
                   = Some (SQL.setComplete v r))
    by (rewrite find_updated, Hfind; reflexivity).
  assert (Hrun : mark i s
                 = (Return (Some (toTask (SQL.setComplete v r))),
                    after DB_save (set_db (updated (SQL.setComplete v) i (db s)) s))).
  { unfold mark. destruct Hv as [-> | ->]; simpl;
      [rewrite DB_markComplete_eq | rewrite DB_markIncomplete_eq];
      rewrite Hfind; cbv zeta; unfold after at 1; simpl;
      rewrite DB_read_find, Hfind'; reflexivity. }
  eexists _, _. split; [exact Hrun|]. repeat apply conj.
  - exact Hid.
  - reflexivity.
  - reflexivity.
  - apply DB_save_persisted.
  - intros day period. unfold after; simpl.
    rewrite DB_list_updated by reflexivity. rewrite DB_list_select.
    unfold updated. rewrite !map_map. apply map_ext. intros x.
    now destruct (SQL.idIs i x).
  - intros j Hj. unfold after; simpl. rewrite !DB_read_find.
    now rewrite find_other_updated.
  - assert (Hagain : mark i (after DB_save (set_db (updated (SQL.setComplete v) i (db s)) s))
                     = (Return (Some (toTask (SQL.setComplete v r))),
                        after DB_save
                          (after DB_save (set_db (updated (SQL.setComplete v) i (db s)) s)))).
    { unfold mark. destruct Hv as [-> | ->]; simpl;
        [rewrite DB_markComplete_eq | rewrite DB_markIncomplete_eq];
        unfold after at 1 2; simpl; rewrite Hfind'; cbv zeta;
        rewrite updated_twice by reflexivity;
        unfold after; simpl; rewrite DB_read_find, Hfind'; reflexivity. }
    rewrite Hagain. now rewrite saved_twice.
Qed.

End Updating.

(** X6: for an id that has a row, [markComplete] returns the task with
    [complete] true and [markIncomplete] returns it with [complete] false;
    the flag is all that changes: every listing keeps its tasks, their
    order and their other fields, the tasks of other ids read as before,
    the table is persisted, and doing it a second time returns the same
    task and leaves the whole state as it is. *)
Theorem mark_sets_only_the_flag `{DateFns} `{SqlJs} `{Nanoid} (s : State) (i : string) :
  In i (map row_id (db s)) ->
  (exists t s',
      DB_markComplete i s = (Return (Some t), s')
      /\ id t = i /\ complete t = true
      /\ persisted s'
      /\ (forall day period,
            map unflagged (DB_list day period (db s'))
            = map unflagged (DB_list day period (db s)))
      /\ (forall j, j <> i -> DB_read j (db s') = DB_read j (db s))
      /\ DB_markComplete i s' = (Return (Some t), s'))
  /\ (exists t s',
      DB_markIncomplete i s = (Return (Some t), s')
      /\ id t = i /\ complete t = false
      /\ persisted s'
      /\ (forall day period,
            map unflagged (DB_list day period (db s'))
            = map unflagged (DB_list day period (db s)))
      /\ (forall j, j <> i -> DB_read j (db s') = DB_read j (db s))
      /\ DB_markIncomplete i s' = (Return (Some t), s')).
Proof.
  intros Hin. split.
  - destruct (marked s i 1 Hin (or_introl eq_refl))
      as (t & s' & Hrun & Hid & Hc & _ & Hp & Hl & Hr & Hagain).
    exists t, s'. repeat apply conj; assumption.
  - destruct (marked s i 0 Hin (or_intror eq_refl))
      as (t & s' & Hrun & Hid & Hc & _ & Hp & Hl & Hr & Hagain).
    exists t, s'. repeat apply conj; assumption.
Qed.

Lemma mark_sets_only_the_flag_witness :
  exists t s',
    DB_markComplete (Host.code 10 1) Host.twoTasks = (Return (Some t), s')
    /\ complete t = true
    /\ DB_markComplete (Host.code 10 1) s' = (Return (Some t), s').
Proof.
  destruct (proj1 (mark_sets_only_the_flag Host.twoTasks (Host.code 10 1)
                     ltac:(vm_compute; right; now left)))
    as (t & s' & Hrun & _ & Hc & _ & _ & _ & Hagain).
  exists t, s'. repeat apply conj; assumption.
Defined.

(** ** [update] and the constructor *)
Section Renaming.

Context `{DateFns} `{SqlJs} `{Nanoid}.

End Renaming.

(** X7: for an id that has a row, [update(id, name)] returns the task
    under its new name as it is read back (up to its first NUL, so whole
    when it holds none) and leaves everything else of every listing as it
    was (the tasks of other ids read as before), but writes nothing to
    [localStorage]: when the slot held the image of the table before the
    call, a store constructed right after it has the table of before,
    with the old name (given that the engine reopens its export of that
    table as that table). *)
Theorem rename_is_lost_on_reload `{DateFns} `{SqlJs} `{Nanoid}
    (s : State) (i n : string) :
  In i (map row_id (db s)) ->
  exists t s',
    DB_update i n s = (Return (Some t), s')
    /\ id t = i /\ name t = UTF8ToString n
    /\ (~ In Ascii.zero (list_ascii_of_string n) -> name t = n)
    /\ (forall day period,
          map unnamed (DB_list day period (db s'))
          = map unnamed (DB_list day period (db s)))
    /\ (forall j, j <> i -> DB_read j (db s') = DB_read j (db s))
    /\ localStorage s' = localStorage s
    /\ (persisted s -> db_open (db_export (db s)) = db s ->
        exists s'', DB_constructor s' = (Return tt, s'')
                    /\ db s'' = db s
                    /\ DB_read i (db s'') = DB_read i (db s)).
Proof.
  intros Hin. apply find_id_Some in Hin as (r & Hfind & _ & Hid).
  assert (Hfind' : List.find (SQL.idIs i) (updated (SQL.setName n) i (db s))
                   = Some (SQL.setName n r))
    by (rewrite find_updated, Hfind; reflexivity).
  rewrite DB_update_eq, Hfind. cbv zeta. simpl db.
  rewrite DB_read_find, Hfind'. simpl option_map.
  eexists _, _. split; [reflexivity|]. simpl. repeat apply conj.
  - exact Hid.
  - reflexivity.
  - apply UTF8ToString_whole.
  - intros day period. rewrite DB_list_updated by reflexivity.
    rewrite DB_list_select. unfold updated. rewrite !map_map. apply map_ext.
    intros x. now destruct (SQL.idIs i x).
  - intros j Hj. rewrite !DB_read_find. now rewrite find_other_updated.
  - reflexivity.
  - intros Hpers Hengine.
    rewrite (DB_constructor_image _ (db s)) by exact Hpers.
    rewrite Hengine. eexists. repeat split.
Qed.

Lemma rename_is_lost_on_reload_witness :
  exists t s' s'',
    DB_update (Host.code 10 0) "Buy oat milk" Host.oneTask = (Return (Some t), s')
    /\ name t = "Buy oat milk"
    /\ DB_constructor s' = (Return tt, s'')
    /\ option_map name (DB_read (Host.code 10 0) (db s'')) = Some "Buy milk".
Proof.
  destruct (rename_is_lost_on_reload Host.oneTask (Host.code 10 0) "Buy oat milk")
    as (t & s' & Hrun & _ & _ & Hname & _ & _ & _ & Hreload).
  - vm_compute. now left.
  - specialize (Hname ltac:(vm_compute; intuition discriminate)).
    destruct Hreload as (s'' & Hcons & _ & Hread).
    + unfold persisted. vm_compute. reflexivity.
    + vm_compute. reflexivity.
    + exists t, s', s''. repeat apply conj; try assumption.
      rewrite Hread. vm_compute. reflexivity.
Defined.

(** X8: the constructor never writes to [localStorage] and draws no
    identifier; without a slot, or with an empty text in it, the store
    starts with the empty table; with the image of a table in the slot
    it starts with what the engine opens from the very bytes that were
    exported. *)
Theorem constructor_cases `{DateFns} `{SqlJs} `{Nanoid} (s : State) :
  localStorage (after DB_constructor s) = localStorage s
  /\ ids_drawn (after DB_constructor s) = ids_drawn s
  /\ (localStorage s !! DB_KEY = None \/ localStorage s !! DB_KEY = Some "" ->
      DB_constructor s = (Return tt, set_db [] s))
  /\ (forall table,
        localStorage s !! DB_KEY = Some (image table) ->
        DB_constructor s = (Return tt, set_db (db_open (db_export table)) s)).
Proof.
  repeat apply conj.
  - unfold after, DB_constructor.
    destruct (localStorage s !! DB_KEY) as [[|c text]|]; try reflexivity.
    now destruct (JSON.parse (String c text)).
  - unfold after, DB_constructor.
    destruct (localStorage s !! DB_KEY) as [[|c text]|]; try reflexivity.
    now destruct (JSON.parse (String c text)).
  - intros [Hnone|Hempty]; unfold DB_constructor; [now rewrite Hnone | now rewrite Hempty].
  - intros table. apply DB_constructor_image.
Qed.

Lemma constructor_cases_witness :
  DB_constructor {| db := db Host.twoTasks; localStorage := ∅; ids_drawn := 7 |}
  = (Return tt, {| db := []; localStorage := ∅; ids_drawn := 7 |}).
Proof.
  apply (proj1 (proj2 (proj2 (constructor_cases
           {| db := db Host.twoTasks; localStorage := ∅; ids_drawn := 7 |})))).
  left. reflexivity.
Defined.

(** ** [delete] and [clearPeriod] *)
Section Removing.

Context `{DateFns} `{SqlJs} `{Nanoid}.

Lemma unordered_renumber ids k table :
  map unordered (renumber ids k table) = map unordered table.
Proof.
  unfold renumber. rewrite map_map. apply map_ext. intros r.
  rewrite renumberRow_shape. reflexivity.
Qed.

Lemma find_id_filtered i table :
  List.find (SQL.idIs i) (List.filter (fun r => negb (SQL.idIs i r)) table) = None.
Proof.
  induction table as [|r table IH]; simpl; [reflexivity|].
  destruct (SQL.idIs i r) eqn:Hr; simpl; [exact IH|]. now rewrite Hr.
Qed.

Lemma find_id_renumber i ids k table :
  List.find (SQL.idIs i) table = None ->
  List.find (SQL.idIs i) (renumber ids k table) = None.
Proof.
  intros Hnone. unfold renumber. induction table as [|r table IH]; simpl; [reflexivity|].
  simpl in Hnone. destruct (SQL.idIs i r) eqn:Hr; [discriminate|].
  assert (Hr' : SQL.idIs i (renumberRow ids k r) = false)
    by (unfold SQL.idIs in *; now rewrite renumberRow_id).
  rewrite Hr'. now apply IH.
Qed.

End Removing.

(** X9: for an id that has a row, [delete] returns and persists the
    table; the id then has no row: [read] returns the absent variant and
    a second [delete] throws "Not Found" and changes nothing; the rows of
    the other ids stay, in their order, with their names, flags, periods
    and dates. *)
Theorem delete_removes_the_row `{DateFns} `{SqlJs} `{Nanoid} (s : State) (i : string) :
  In i (map row_id (db s)) ->
  exists s',
    DB_delete i s = (Return tt, s')
    /\ persisted s'
    /\ DB_read i (db s') = None
    /\ ~ In i (map row_id (db s'))
    /\ DB_delete i s' = (Throw (Error "Not Found"), s')
    /\ map unordered (db s')
       = map unordered (List.filter (fun r => negb (SQL.idIs i r)) (db s)).
Proof.
  intros Hin. apply find_id_Some in Hin as (r & Hfind & _ & Hid).
  rewrite DB_delete_eq, Hfind. cbv zeta.
  eexists. split; [reflexivity|].
  assert (Hgone : forall ids,
            List.find (SQL.idIs i)
              (renumber ids 0 (List.filter (fun r => negb (SQL.idIs i r)) (db s))) = None)
    by (intros ids; apply find_id_renumber, find_id_filtered).
  unfold after; simpl. repeat apply conj.
  - unfold persisted; simpl. apply lookup_insert_eq.
  - now rewrite DB_read_find, Hgone.
  - intros Hi. apply find_id_Some in Hi as (x & Hx & _). now rewrite Hgone in Hx.
  - rewrite DB_delete_eq. simpl db. now rewrite Hgone.
  - apply unordered_renumber.
Qed.

Lemma delete_removes_the_row_witness :
  exists s',
    DB_delete (Host.code 10 0) Host.twoTasks = (Return tt, s')
    /\ DB_read (Host.code 10 0) (db s') = None
    /\ map row_name (db s') = ["Call home"].
Proof.
  destruct (delete_removes_the_row Host.twoTasks (Host.code 10 0))
    as (s' & Hrun & _ & Hread & _ & _ & Hrows).
  - vm_compute. now left.
  - exists s'. repeat apply conj; try assumption.
    assert (Hs : s' = after (DB_delete (Host.code 10 0)) Host.twoTasks)
      by (unfold after; now rewrite Hrun).
    rewrite Hs. vm_compute. reflexivity.
Defined.

(** X10: [clearPeriod(day, period)] never throws; it removes exactly the
    rows of that period whose date lies in the window of the day, keeps
    the other rows as they are and in their order, and persists the table;
    the bucket then lists nothing, and clearing it again changes
    nothing. *)
Theorem clearPeriod_removes_the_bucket `{DateFns} `{SqlJs} `{Nanoid}
    (s : State) (day : Date) (p : Period) :
  exists s',
    DB_clearPeriod day p s = (Return tt, s')
    /\ persisted s'
    /\ db s' = List.filter (fun r => negb (inBucket day p r)) (db s)
    /\ (forall r, In r (db s') <->
                  In r (db s)
                  /\ ~ (startOfDay day <= row_date r < endOfDay day /\ row_period r = p))
    /\ (p <> "" -> DB_list (Some day) (Some p) (db s') = [])
    /\ DB_clearPeriod day p s' = (Return tt, s').
Proof.
  rewrite DB_clearPeriod_eq. eexists. split; [reflexivity|].
  unfold after; simpl. repeat apply conj.
  - unfold persisted; simpl. apply lookup_insert_eq.
  - reflexivity.
  - intros r. rewrite filter_In, negb_true_iff, <- not_true_iff_false, inBucket_spec.
    tauto.
  - intros Hp. rewrite DB_list_bucket by assumption.
    rewrite filter_none; [reflexivity|].
    intros r [_ Hr]%filter_In. now apply negb_true_iff in Hr.
  - rewrite DB_clearPeriod_eq. unfold after; simpl. f_equal.
    rewrite filter_all by (intros r [_ Hr]%filter_In; exact Hr).
    f_equal. apply insert_insert_eq.
Qed.

(** ** [updateOrder] with an id listed more than once *)
Section Repeated.

Context `{DateFns} `{SqlJs} `{Nanoid}.

Lemma renumberRow_last ids : forall k r,
  renumberRow ids k r
  = match lastIndex (row_id r) ids k with
    | Some j => SQL.setSortOrder (Z.of_nat j) r
    | None => r
    end.
Proof.
  induction ids as [|i ids IH]; intros k r; simpl; [reflexivity|].
  rewrite IH. destruct (SQL.idIs i r) eqn:Hr.
  - assert (Hi : String.eqb i (row_id r) = true)
      by (rewrite String.eqb_sym; exact Hr).
    rewrite Hi. simpl row_id.
    now destruct (lastIndex (row_id r) ids (S k)).
  - assert (Hi : String.eqb i (row_id r) = false)
      by (rewrite String.eqb_sym; exact Hr).
    rewrite Hi. now destruct (lastIndex (row_id r) ids (S k)).
Qed.

Lemma lastIndex_spec i ids : forall k,
  match lastIndex i ids k with
  | Some j => (k <= j)%nat /\ nth_error ids (j - k) = Some i
              /\ ~ In i (skipn (S (j - k)) ids)
  | None => ~ In i ids
  end.
Proof.
  induction ids as [|x ids IH]; intros k; simpl; [tauto|].
  specialize (IH (S k)). destruct (lastIndex i ids (S k)) as [j|].
  - destruct IH as (Hle & Hnth & Hrest).
    replace (j - k)%nat with (S (j - S k)) by lia. simpl. repeat split; [lia|auto|auto].
  - destruct (String.eqb_spec x i) as [->|Hne].
    + rewrite Nat.sub_diag. simpl. repeat split; auto.
    + intros [Hx|Hin]; auto.
Qed.

End Repeated.

(** X11: [updateOrder] accepts an id more than once: when every listed id
    is in the bucket it returns and persists the table, and each row whose
    id is listed gets the index of the last place of its id in
    [orderedIds], the other rows staying as they are; with nothing listed
    the table stays as it is. *)
Theorem updateOrder_last_place_wins `{DateFns} `{SqlJs} `{Nanoid}
    (s : State) (day : Date) (p : Period) (ids : list string) :
  (forall i, In i ids -> In i (map id (DB_list (Some day) (Some p) (db s)))) ->
  exists s',
    DB_updateOrder day p ids s = (Return tt, s')
    /\ persisted s'
    /\ length (db s') = length (db s)
    /\ (forall k r, nth_error (db s) k = Some r ->
          exists r', nth_error (db s') k = Some r'
            /\ (forall j, nth_error ids j = Some (row_id r) ->
                  ~ In (row_id r) (skipn (S j) ids) ->
                  r' = SQL.setSortOrder (Z.of_nat j) r)
            /\ (~ In (row_id r) ids -> r' = r))
    /\ (ids = [] -> db s' = db s).
Proof.
  intros Hall. rewrite DB_updateOrder_members by assumption.
  eexists. split; [reflexivity|]. unfold after; simpl. repeat apply conj.
  - unfold persisted; simpl. apply lookup_insert_eq.
  - apply renumber_length.
  - intros k r Hk. exists (renumberRow ids 0 r). repeat apply conj.
    + now apply renumber_nth_error.
    + intros j Hj Hlast. rewrite renumberRow_last.
      pose proof (lastIndex_spec (row_id r) ids 0) as Hspec.
      destruct (lastIndex (row_id r) ids 0) as [j'|].
      * destruct Hspec as (_ & Hnth & Hrest). rewrite Nat.sub_0_r in Hnth, Hrest.
        assert (j' = j) as ->; [|reflexivity].
        destruct (Nat.lt_trichotomy j' j) as [Hlt|[Heq|Hgt]]; [|exact Heq|].
        -- exfalso. apply Hrest.
           rewrite <- (firstn_skipn (j - S j') (skipn (S j') ids)).
           apply in_app_iff. right. rewrite skipn_skipn.
           replace (j - S j' + S j')%nat with j by lia.
           destruct (skipn j ids) as [|y l] eqn:Hs.
           ++ apply (f_equal (fun l => nth_error l 0)) in Hs.
              rewrite nth_error_skipn, Nat.add_0_r, Hj in Hs. discriminate.
           ++ apply (f_equal (fun l => nth_error l 0)) in Hs.
              rewrite nth_error_skipn, Nat.add_0_r, Hj in Hs.
              injection Hs as <-. now left.
        -- exfalso. apply Hlast.
           rewrite <- (firstn_skipn (j' - S j) (skipn (S j) ids)).
           apply in_app_iff. right. rewrite skipn_skipn.
           replace (j' - S j + S j)%nat with j' by lia.
           destruct (skipn j' ids) as [|y l] eqn:Hs.
           ++ apply (f_equal (fun l => nth_error l 0)) in Hs.
              rewrite nth_error_skipn, Nat.add_0_r, Hnth in Hs. discriminate.
           ++ apply (f_equal (fun l => nth_error l 0)) in Hs.
              rewrite nth_error_skipn, Nat.add_0_r, Hnth in Hs.
              injection Hs as <-. now left.
      * exfalso. apply Hspec. eapply nth_error_In, Hj.
    + apply renumberRow_notin.
  - intros ->. apply renumber_nil.
Qed.

Lemma updateOrder_last_place_wins_witness :
  exists s',
    DB_updateOrder Host.june10 "days"
      [Host.code 10 0; Host.code 10 1; Host.code 10 0] Host.twoTasks
    = (Return tt, s')
    /\ map row_sortOrder (db s') = [2; 1].
Proof.
  destruct (updateOrder_last_place_wins Host.twoTasks Host.june10 "days"
              [Host.code 10 0; Host.code 10 1; Host.code 10 0])
    as (s' & Hrun & _).
  - intros i Hi. vm_compute.
    destruct Hi as [<-|[<-|[<-|[]]]]; [now left | right; now left | now left].
  - exists s'. split; [exact Hrun|].
    assert (Hs : s' = after (DB_updateOrder Host.june10 "days"
                    [Host.code 10 0; Host.code 10 1; Host.code 10 0]) Host.twoTasks)
      by (unfold after; now rewrite Hrun).
    rewrite Hs. vm_compute. reflexivity.
Defined.

Lemma clearPeriod_removes_the_bucket_witness :
  exists s',
    DB_clearPeriod Host.june1 "months" Host.busyJune = (Return tt, s')
    /\ DB_list (Some Host.june1) (Some "months") (db s') = []
    /\ map row_name (db s') = ["Water plants"].
Proof.
  destruct (clearPeriod_removes_the_bucket Host.busyJune Host.june1 "months")
    as (s' & Hrun & _ & Hdb & _ & Hempty & _).
  exists s'. repeat apply conj; [exact Hrun | apply Hempty; discriminate |].
  rewrite Hdb. vm_compute. reflexivity.
Defined.

(** ** [copyIncompletes], whatever happens *)
Section Copying.

Context `{DateFns} `{SqlJs} `{Nanoid}.

Lemma create_each_any d (p : Period) tasks : forall s,
  exists news k,
    db (after (for_of (fun task => bind (DB_create (name task) d p) (fun _ => ret tt))
                 tasks) s)
    = db s ++ news
    /\ map row_name news = firstn k (map name tasks)
    /\ Forall (fun r => row_period r = p /\ row_date r = startOfPeriod d p
                        /\ row_complete r = 0) news.
Proof.
  induction tasks as [|t tasks IH]; intros s.
  - exists [], 0%nat. unfold after; simpl. rewrite app_nil_r. repeat split. constructor.
  - unfold after. cbn [for_of]. unfold bind at 1. unfold bind at 1.
    rewrite DB_create_eq. cbv zeta.
    destruct (existsb (SQL.idIs (nanoid (ids_drawn s))) (db s)).
    + exists [], 0%nat. simpl. rewrite app_nil_r. repeat split. constructor.
    + set (r := newRow (nanoid (ids_drawn s)) (name t) d p (db s)).
      set (s1 := after DB_save _).
      destruct (IH s1) as (news & k & Hdb & Hnames & Hall).
      exists (r :: news), (S k). unfold after in Hdb. unfold ret at 1.
      rewrite Hdb. repeat apply conj.
      * unfold s1, after; simpl. now rewrite <- app_assoc.
      * simpl. now rewrite Hnames.
      * constructor; [|exact Hall]. repeat split.
Qed.

End Copying.

(** X12: whether it returns or throws, [copyIncompletes(day, period)]
    never changes or removes a row: the table afterwards is the old table
    followed by new rows, which carry the names of the first so many
    incomplete tasks of the previous bucket, the given period, the
    normalized date and [complete] 0; when the previous bucket has no
    incomplete task it draws no identifier, adds nothing, and returns
    having persisted the table. *)
Theorem copyIncompletes_only_appends `{DateFns} `{SqlJs} `{Nanoid}
    (s : State) (d : Date) (p : Period) :
  let incompletes :=
    List.filter (fun task => negb (complete task))
      (DB_list (Some (previousAnchor d p)) (Some p) (db s)) in
  (exists news k,
      db (after (DB_copyIncompletes d p) s) = db s ++ news
      /\ map row_name news = firstn k (map name incompletes)
      /\ Forall (fun r => row_period r = p /\ row_date r = startOfPeriod d p
                          /\ row_complete r = 0) news)
  /\ (incompletes = [] -> DB_copyIncompletes d p s = (Return tt, after DB_save s)).
Proof.
  intros incompletes. split.
  - destruct (create_each_any d p incompletes s) as (news & k & Hdb & Hnames & Hall).
    exists news, k. split; [|split; assumption].
    unfold after in *. rewrite DB_copyIncompletes_eq. fold incompletes.
    unfold bind at 1.
    destruct (for_of _ incompletes s) as [[[]|e] s1]; exact Hdb.
  - intros Hnone. rewrite DB_copyIncompletes_eq. fold incompletes. now rewrite Hnone.
Qed.

Lemma copyIncompletes_only_appends_witness :
  DB_copyIncompletes Host.june11 "days" firstRun = (Return tt, after DB_save firstRun).
Proof.
  apply (proj2 (copyIncompletes_only_appends firstRun Host.june11 "days")).
  vm_compute. reflexivity.
Defined.

(** ** Arrays: [findIndex] and [splice] *)
Section Arrays.

Context {A : Type}.

Lemma findIndex_from_spec (p : A -> bool) l : forall k,
  (findIndex_from p l k = -1 /\ forall x, In x l -> p x = false)
  \/ exists n x,
       findIndex_from p l k = k + Z.of_nat n /\ nth_error l n = Some x /\ p x = true
       /\ forall m y, (m < n)%nat -> nth_error l m = Some y -> p y = false.
Proof.
  induction l as [|x l IH]; intros k; simpl.
  - left. split; [reflexivity | intros x []].
  - destruct (p x) eqn:Hx.
    + right. exists 0%nat, x. repeat split; [lia | exact Hx | intros m y Hm; lia].
    + destruct (IH (k + 1)) as [[Hnone Hall]|(n & y & Hn & Hy & Hpy & Hbefore)].
      * left. split; [exact Hnone|]. intros z [<-|Hz]; auto.
      * right. exists (S n), y. repeat split; [lia | exact Hy | exact Hpy |].
        intros [|m] z Hm Hz; simpl in Hz; [now injection Hz as <-|].
        apply (Hbefore m); [lia | exact Hz].
Qed.

Lemma skipn_nth (l : list A) n x :
  nth_error l n = Some x -> skipn n l = x :: skipn (S n) l.
Proof.
  revert l. induction n as [|n IH]; intros [|y l] Hn; try discriminate.
  - now injection Hn as ->.
  - simpl in Hn. exact (IH l Hn).
Qed.

Lemma split_nth (l : list A) n x :
  nth_error l n = Some x -> l = firstn n l ++ x :: skipn (S n) l.
Proof.
  intros Hn. rewrite <- (skipn_nth l n x Hn). symmetry. apply firstn_skipn.
Qed.

Lemma splice_take (l : list A) n x :
  nth_error l n = Some x ->
  splice l (Z.of_nat n) 1 [] = ([x], firstn n l ++ skipn (S n) l).
Proof.
  intros Hn. assert (Hlen : (n < length l)%nat) by (apply nth_error_Some; congruence).
  unfold splice.
  destruct (Z.ltb_spec (Z.of_nat n) 0) as [Hneg|_]; [lia|].
  rewrite (Z.min_l (Z.of_nat n)) by lia.
  rewrite (Z.max_l 1 0) by lia. rewrite (Z.min_l 1) by lia.
  rewrite Nat2Z.id. change (Z.to_nat 1) with 1%nat.
  rewrite (skipn_nth l n x Hn). simpl. now rewrite Nat.add_1_r.
Qed.

Lemma splice_take_last (l : list A) :
  l <> [] -> splice l (-1) 1 [] = splice l (Z.of_nat (length l - 1)) 1 [].
Proof.
  intros Hl. assert (Hlen : (0 < length l)%nat) by (destruct l; [contradiction|simpl; lia]).
  unfold splice.
  destruct (Z.ltb_spec (-1) 0) as [_|Hneg]; [|lia].
  destruct (Z.ltb_spec (Z.of_nat (length l - 1)) 0) as [Hneg|_]; [lia|].
  rewrite (Z.max_l (Z.of_nat (length l) + -1)) by lia.
  rewrite (Z.min_l (Z.of_nat (length l - 1))) by lia.
  now replace (Z.of_nat (length l) + -1) with (Z.of_nat (length l - 1)) by lia.
Qed.

Lemma splice_put (l : list A) start x :
  exists a,
    splice l start 0 [x] = ([], firstn a l ++ [x] ++ skipn a l)
    /\ (0 <= start <= Z.of_nat (length l) -> a = Z.to_nat start).
Proof.
  unfold splice.
  set (actualStart := if start <? 0 then Z.max (Z.of_nat (length l) + start) 0
                      else Z.min start (Z.of_nat (length l))).
  assert (Hrange : 0 <= actualStart <= Z.of_nat (length l)).
  { unfold actualStart. destruct (Z.ltb_spec start 0); lia. }
  exists (Z.to_nat actualStart). split.
  - rewrite (Z.max_l 0 0) by lia. rewrite (Z.min_l 0) by lia.
    simpl. now rewrite Nat.add_0_r.
  - intros Hstart. unfold actualStart.
    destruct (Z.ltb_spec start 0); [lia|]. now rewrite Z.min_l by lia.
Qed.

Lemma moved_perm (l : list A) i j x :
  nth_error l i = Some x -> Permutation (moved l i j x) l.
Proof.
  intros Hi. unfold moved. cbv zeta.
  set (rest := firstn i l ++ skipn (S i) l).
  transitivity (x :: rest).
  - change (firstn j rest ++ [x] ++ skipn j rest)
      with (firstn j rest ++ x :: skipn j rest).
    rewrite <- Permutation_middle. constructor. now rewrite firstn_skipn.
  - unfold rest. rewrite (split_nth l i x Hi) at 3. apply Permutation_middle.
Qed.

End Arrays.

(** ** [onDragEnd] *)
Section Dragging.

Context `{DateFns} `{SqlJs} `{Nanoid} `{DateFnsView}.

(** Whatever is dragged onto whatever: nothing happens, or one task of
    the list is taken out and put back in, and [updateOrder] gets the ids
    in that order. *)
Lemma onDragEnd_cases tasks (p : Period) active over :
  onDragEnd tasks p active over = ret tt
  \/ exists n task j,
       nth_error tasks n = Some task
       /\ onDragEnd tasks p active over
          = DB_updateOrder (date task) p (map id (moved tasks n j task)).
Proof.
  destruct active as [a|], over as [o|]; try (left; reflexivity).
  unfold onDragEnd.
  set (isA := fun item : Task => String.eqb (id item) a).
  set (isO := fun item : Task => String.eqb (id item) o).
  destruct (findIndex isA tasks =? findIndex isO tasks) eqn:Hsame;
    [left; reflexivity|]. right. simpl negb. cbv iota.
  assert (Htake : exists n task,
            nth_error tasks n = Some task
            /\ splice tasks (findIndex isA tasks) 1 []
               = ([task], firstn n tasks ++ skipn (S n) tasks)).
  { unfold findIndex in *.
    destruct (findIndex_from_spec isA tasks 0)
      as [[Hnone _]|(n & x & Hn & Hx & _)].
    - assert (Hne : tasks <> []).
      { intros ->. simpl in Hsame. discriminate. }
      assert (Hlast : (length tasks - 1 < length tasks)%nat)
        by (destruct tasks; [contradiction | simpl; lia]).
      apply nth_error_Some in Hlast.
      destruct (nth_error tasks (length tasks - 1)) as [x|] eqn:Hx; [|contradiction].
      exists (length tasks - 1)%nat, x. split; [exact Hx|].
      rewrite Hnone, splice_take_last by assumption. now apply splice_take.
    - exists n, x. split; [exact Hx|]. rewrite Hn. now apply splice_take. }
  destruct Htake as (n & task & Hn & Htake).
  destruct (splice_put (firstn n tasks ++ skipn (S n) tasks) (findIndex isO tasks) task)
    as (j & Hput & _).
  exists n, task, j. split; [exact Hn|].
  rewrite Htake. cbv iota beta. rewrite Hput. reflexivity.
Qed.

Lemma findIndex_unique (tasks : list Task) i a :
  List.NoDup (map id tasks) -> nth_error tasks i = Some a ->
  findIndex (fun item => String.eqb (id item) (id a)) tasks = Z.of_nat i.
Proof.
  intros Hnd Hi. unfold findIndex.
  destruct (findIndex_from_spec (fun item => String.eqb (id item) (id a)) tasks 0)
    as [[_ Hall]|(n & x & Hn & Hx & Hpx & _)].
  - apply nth_error_In in Hi. apply Hall in Hi. now rewrite String.eqb_refl in Hi.
  - rewrite Hn. apply String.eqb_eq in Hpx.
    assert (n = i) as ->; [|lia].
    apply (proj1 (NoDup_nth_error (map id tasks)) Hnd).
    + rewrite length_map. apply nth_error_Some. congruence.
    + rewrite !nth_error_map, Hx, Hi. simpl. now rewrite Hpx.
Qed.

Lemma onDragEnd_move tasks (p : Period) i j a b :
  List.NoDup (map id tasks) ->
  nth_error tasks i = Some a -> nth_error tasks j = Some b -> i <> j ->
  onDragEnd tasks p (Some (id a)) (Some (id b))
  = DB_updateOrder (date a) p (map id (moved tasks i j a)).
Proof.
  intros Hnd Hi Hj Hij. unfold onDragEnd.
  rewrite (findIndex_unique tasks i a Hnd Hi), (findIndex_unique tasks j b Hnd Hj).
  destruct (Z.eqb_spec (Z.of_nat i) (Z.of_nat j)) as [Heq|_]; [lia|].
  simpl negb. cbv iota. rewrite (splice_take tasks i a Hi). cbv iota beta.
  destruct (splice_put (firstn i tasks ++ skipn (S i) tasks) (Z.of_nat j) a)
    as (k & Hput & Hk).
  rewrite Hput. cbv iota beta.
  assert (Hlen : (j < length tasks)%nat) by (apply nth_error_Some; congruence).
  assert (Hlen' : (i < length tasks)%nat) by (apply nth_error_Some; congruence).
  rewrite Hk; [now rewrite Nat2Z.id|].
  rewrite length_app, length_firstn, length_skipn. lia.
Qed.

Lemma map_moved {A B} (f : A -> B) l i j x :
  map f (moved l i j x) = moved (map f l) i j (f x).
Proof.
  unfold moved. cbv zeta.
  rewrite (firstn_map f i l), (skipn_map f (S i) l), <- map_app.
  rewrite firstn_map, skipn_map, !map_app. reflexivity.
Qed.

Lemma moved_nth {A} (l : list A) i j x :
  (i < length l)%nat -> (j < length l)%nat -> nth_error (moved l i j x) j = Some x.
Proof.
  intros Hi Hj. unfold moved. cbv zeta.
  set (rest := firstn i l ++ skipn (S i) l).
  assert (Hrest : (j <= length rest)%nat)
    by (unfold rest; rewrite length_app, length_firstn, length_skipn; lia).
  rewrite nth_error_app2; rewrite length_firstn, Nat.min_l by exact Hrest; [|lia].
  now rewrite Nat.sub_diag.
Qed.

Lemma moved_others (l : list string) i j x :
  nth_error l i = Some x ->
  List.filter (fun y => negb (String.eqb x y)) (moved l i j x)
  = List.filter (fun y => negb (String.eqb x y)) l.
Proof.
  intros Hi. unfold moved. cbv zeta.
  set (rest := firstn i l ++ skipn (S i) l).
  set (q := fun y => negb (String.eqb x y)).
  assert (Hx : q x = false) by (unfold q; now rewrite String.eqb_refl).
  assert (Hleft : List.filter q (firstn j rest ++ [x] ++ skipn j rest) = List.filter q rest).
  { rewrite List.filter_app. change ([x] ++ skipn j rest) with (x :: skipn j rest).
    cbn [List.filter]. rewrite Hx. rewrite <- List.filter_app. now rewrite firstn_skipn. }
  assert (Hright : List.filter q l = List.filter q rest).
  { rewrite (split_nth l i x Hi) at 1. rewrite List.filter_app.
    cbn [List.filter]. rewrite Hx. unfold rest. now rewrite List.filter_app. }
  now rewrite Hleft, Hright.
Qed.

(** The listing of the bucket of a listed task is the listing it is in. *)
Lemma listing_of_listed day (p : Period) table t :
  DayWindows -> p <> "" ->
  In t (DB_list (Some day) (Some p) table) ->
  DB_list (Some (date t)) (Some p) table = DB_list (Some day) (Some p) table.
Proof.
  intros Hw Hp Hin. rewrite DB_list_bucket in Hin by assumption.
  apply in_map_iff in Hin as (r & <- & Hr).
  apply OrderBy.orderBy_In, filter_In in Hr as [_ Hb].
  apply inBucket_spec in Hb as [Hdate _].
  rewrite !DB_list_bucket by assumption. do 2 f_equal.
  apply filter_ext. intros x. now apply inBucket_same_window.
Qed.

(** What [updateOrder] does with an arrangement of the ids of a listing,
    called with the date of one of its tasks. *)
Lemma reorder_listing s day (p : Period) task ids :
  DayWindows -> uniqueIds (db s) -> p <> "" ->
  In task (DB_list (Some day) (Some p) (db s)) ->
  Permutation ids (map id (DB_list (Some day) (Some p) (db s))) ->
  let s' := after DB_save (set_db (renumber ids 0 (db s)) s) in
  DB_updateOrder (date task) p ids s = (Return tt, s')
  /\ persisted s'
  /\ map unordered (db s') = map unordered (db s)
  /\ map id (DB_list (Some day) (Some p) (db s')) = ids
  /\ map sortOrder (DB_list (Some day) (Some p) (db s'))
     = map Z.of_nat (seq 0 (length (DB_list (Some day) (Some p) (db s)))).
Proof.
  intros Hw Hu Hp Hin Hperm s'.
  assert (Hrows : Permutation ids (map row_id (List.filter (inBucket day p) (db s)))).
  { rewrite Hperm, listing_ids by assumption.
    apply Permutation_map, OrderBy.orderBy_perm. }
  destruct (listing_after_renumber day p ids (db s) Hu Hp Hrows) as [Hids Hkeys].
  split; [|split; [|split; [|split]]].
  - apply DB_updateOrder_members. intros i Hi.
    rewrite (listing_of_listed day p (db s) task Hw Hp Hin).
    eapply Permutation_in; eauto.
  - apply DB_save_persisted.
  - apply unordered_renumber.
  - exact Hids.
  - unfold s', after; simpl. rewrite Hkeys.
    now rewrite (Permutation_length Hperm), length_map.
Qed.

End Dragging.

(** X13: a drag in the list of a bucket never throws, whatever is dragged
    onto whatever (an id that is not in the list, the item itself, or
    nothing): the store is left as it is, or [updateOrder] is called with
    an arrangement of all the ids of the bucket, so that the table is
    persisted, the bucket keeps its tasks and is numbered 0, 1, ... in
    the order of its listing; no row is added or removed and no field but
    [sortOrder] changes. *)
Theorem drag_never_throws `{DateFns} `{SqlJs} `{Nanoid} `{DateFnsView}
    (s : State) (d : Date) (p : Period) (active over : option string) :
  DayWindows -> uniqueIds (db s) -> p <> "" ->
  let tasks := DB_list (Some d) (Some p) (db s) in
  exists s',
    handle (DragEnd d p active over) s = (Return tt, s')
    /\ map unordered (db s') = map unordered (db s)
    /\ (s' = s
        \/ (persisted s'
            /\ Permutation (map id (DB_list (Some d) (Some p) (db s'))) (map id tasks)
            /\ map sortOrder (DB_list (Some d) (Some p) (db s'))
               = map Z.of_nat (seq 0 (length tasks)))).
Proof.
  intros Hw Hu Hp tasks.
  change (handle (DragEnd d p active over) s) with (onDragEnd tasks p active over s).
  destruct (onDragEnd_cases tasks p active over)
    as [Hnothing|(n & task & j & Hn & Hcall)].
  - exists s. rewrite Hnothing. repeat split. now left.
  - assert (Hperm : Permutation (map id (moved tasks n j task)) (map id tasks))
      by (apply Permutation_map; now apply moved_perm).
    destruct (reorder_listing s d p task (map id (moved tasks n j task)) Hw Hu Hp
                (nth_error_In _ _ Hn) Hperm)
      as (Hrun & Hpers & Hrows & Hids & Hkeys).
    eexists. rewrite Hcall. split; [exact Hrun|]. split; [exact Hrows|].
    right. split; [exact Hpers|]. split; [|exact Hkeys].
    rewrite Hids. exact Hperm.
Qed.

Lemma drag_never_throws_witness :
  exists s',
    handle (DragEnd Host.june10 "days" (Some "ZZZZZZZZZZ") (Some (Host.code 10 0)))
      Host.twoTasks
    = (Return tt, s')
    /\ map (fun t => (name t, sortOrder t))
         (DB_list (Some Host.june10) (Some "days") (db s'))
       = [("Call home", 0); ("Buy milk", 1)].
Proof.
  destruct (drag_never_throws Host.twoTasks Host.june10 "days"
              (Some "ZZZZZZZZZZ") (Some (Host.code 10 0)))
    as (s' & Hrun & _).
  - exact utc_day_windows.
  - exact twoTasks_uniqueIds.
  - discriminate.
  - exists s'. split; [exact Hrun|].
    assert (Hs : s' = after (handle (DragEnd Host.june10 "days" (Some "ZZZZZZZZZZ")
                                       (Some (Host.code 10 0)))) Host.twoTasks)
      by (unfold after; now rewrite Hrun).
    rewrite Hs. vm_compute. reflexivity.
Defined.

(** X14: dragging the task at index [i] of the list of a bucket onto the
    task at index [j] moves it to index [j]: afterwards the bucket lists
    the dragged task at index [j], the other tasks in the order they had,
    and the [sortOrder] values are 0, 1, ... in that order; the table is
    persisted. *)
Theorem drag_moves_the_task `{DateFns} `{SqlJs} `{Nanoid} `{DateFnsView}
    (s : State) (d : Date) (p : Period) (i j : nat) (a b : Task) :
  DayWindows -> uniqueIds (db s) -> p <> "" ->
  let tasks := DB_list (Some d) (Some p) (db s) in
  nth_error tasks i = Some a -> nth_error tasks j = Some b -> i <> j ->
  exists s',
    handle (DragEnd d p (Some (id a)) (Some (id b))) s = (Return tt, s')
    /\ persisted s'
    /\ let listing := DB_list (Some d) (Some p) (db s') in
       map id listing = moved (map id tasks) i j (id a)
       /\ nth_error (map id listing) j = Some (id a)
       /\ List.filter (fun y => negb (String.eqb (id a) y)) (map id listing)
          = List.filter (fun y => negb (String.eqb (id a) y)) (map id tasks)
       /\ map sortOrder listing = map Z.of_nat (seq 0 (length tasks)).
Proof.
  intros Hw Hu Hp tasks Hi Hj Hij.
  change (handle (DragEnd d p (Some (id a)) (Some (id b))) s)
    with (onDragEnd tasks p (Some (id a)) (Some (id b)) s).
  assert (Hnd : List.NoDup (map id tasks)).
  { unfold tasks. rewrite listing_ids by assumption.
    apply (uniqueIds_perm (List.filter (inBucket d p) (db s)));
      [symmetry; apply OrderBy.orderBy_perm | now apply uniqueIds_filter]. }
  rewrite (onDragEnd_move tasks p i j a b Hnd Hi Hj Hij).
  assert (Hperm : Permutation (map id (moved tasks i j a)) (map id tasks))
    by (apply Permutation_map; now apply moved_perm).
  destruct (reorder_listing s d p a (map id (moved tasks i j a)) Hw Hu Hp
              (nth_error_In _ _ Hi) Hperm)
    as (Hrun & Hpers & _ & Hids & Hkeys).
  eexists. split; [exact Hrun|]. split; [exact Hpers|]. cbv zeta.
  rewrite Hids, map_moved. repeat apply conj.
  - reflexivity.
  - apply moved_nth; rewrite length_map; apply nth_error_Some; congruence.
  - apply moved_others. now rewrite nth_error_map, Hi.
  - rewrite <- map_moved. exact Hkeys.
Qed.

Lemma drag_moves_the_task_witness :
  exists s',
    handle (DragEnd Host.june10 "days" (Some (Host.code 10 0)) (Some (Host.code 10 1)))
      Host.twoTasks
    = (Return tt, s')
    /\ map id (DB_list (Some Host.june10) (Some "days") (db s'))
       = [Host.code 10 1; Host.code 10 0]
    /\ map sortOrder (DB_list (Some Host.june10) (Some "days") (db s')) = [0; 1].
Proof.
  destruct (drag_moves_the_task Host.twoTasks Host.june10 "days" 0 1
              {| id := Host.code 10 0; name := "Buy milk"; complete := false;
                 sortOrder := 1; period := "days"; date := Host.june10 |}
              {| id := Host.code 10 1; name := "Call home"; complete := false;
                 sortOrder := 2; period := "days"; date := Host.june10 |})
    as (s' & Hrun & _ & Hids & _ & _ & Hkeys).
  - exact utc_day_windows.
  - exact twoTasks_uniqueIds.
  - discriminate.
  - vm_compute. reflexivity.
  - vm_compute. reflexivity.
  - discriminate.
  - exists s'. split; [exact Hrun|]. split.
    + rewrite Hids. vm_compute. reflexivity.
    + rewrite Hkeys. vm_compute. reflexivity.
Defined.

(** ** What the components keep of the table *)
Section Components.

Context `{DateFns} `{SqlJs} `{Nanoid} `{DateFnsView}.

Lemma preserves_query_bind (Inv : list Row -> Prop) {A B}
    (q : list Row -> A) (k : A -> JS B) :
  (forall t, Inv t -> preserves Inv (k (q t))) ->
  preserves Inv (bind (query q) k).
Proof.
  intros Hk s Hs. unfold after, bind, query. apply (Hk (db s) Hs s Hs).
Qed.

Lemma preserves_for_of_In (Inv : list Row -> Prop) {A} (body : A -> JS unit) l :
  (forall x, In x l -> preserves Inv (body x)) -> preserves Inv (for_of body l).
Proof.
  induction l as [|x l IH]; intros Hbody; simpl.
  - apply preserves_ret.
  - apply preserves_bind; [apply Hbody; now left|].
    intros _. apply IH. intros y Hy. apply Hbody. now right.
Qed.

Lemma period_selected (p : Period) : In p periods -> p <> "".
Proof. intros [<-|[<-|[<-|[<-|[]]]]]; discriminate. Qed.

Lemma selected_wellFormed table : uniqueIds table -> selected table -> wellFormed table.
Proof.
  intros Hu Hn. split; [exact Hu|].
  eapply List.Forall_impl; [|exact Hn]. intros r Hp. now apply period_selected.
Qed.

(** A property of the rows that rests on the name and the period only. *)
Section Each.

Variable P : Row -> Prop.

Hypothesis P_ext :
  forall r r', row_name r' = row_name r -> row_period r' = row_period r -> P r -> P r'.

Lemma each_insertInto r t t' :
  P r -> Forall P t -> SQL.insertInto r t = Return t' -> Forall P t'.
Proof.
  intros Hr Ht Hins. unfold SQL.insertInto in Hins.
  destruct (existsb (SQL.idIs (row_id r)) t); [discriminate|]. injection Hins as <-.
  apply Forall_app. split; [exact Ht|]. constructor; [exact Hr | constructor].
Qed.

Lemma each_updateById set i t t' :
  (forall r, row_name (set r) = row_name r) ->
  (forall r, row_period (set r) = row_period r) ->
  Forall P t -> SQL.updateById set i t = Return t' -> Forall P t'.
Proof.
  intros Hname Hper Ht Hupd. injection Hupd as <-. apply Forall_map.
  eapply List.Forall_impl; [|exact Ht]. intros r Hr. simpl.
  destruct (SQL.idIs i r); [|exact Hr]. now apply (P_ext r).
Qed.

Lemma each_deleteWhere q t t' :
  Forall P t -> SQL.deleteWhere q t = Return t' -> Forall P t'.
Proof.
  intros Ht Hdel. injection Hdel as <-. apply List.Forall_forall.
  intros r [Hr _]%filter_In. rewrite List.Forall_forall in Ht. now apply Ht.
Qed.

Lemma each_create n d (p : Period) :
  (forall r, row_name r = n -> row_period r = p -> P r) ->
  preserves (Forall P) (DB_create n d p).
Proof.
  intros Hnew. unfold DB_create.
  apply preserves_bind; [apply preserves_generateId|]. intros i.
  apply preserves_bind; [apply preserves_query|]. intros tasks.
  apply preserves_bind.
  - apply preserves_run. intros t t'. apply each_insertInto. now apply Hnew.
  - intros _. apply preserves_bind; [apply preserves_save|].
    intros _. apply preserves_query.
Qed.

Lemma each_mark set i :
  (forall r, row_name (set r) = row_name r) ->
  (forall r, row_period (set r) = row_period r) ->
  preserves (Forall P)
    (bind (DB_checkExists i)
       (fun _ => bind (run (SQL.updateById set i))
                   (fun _ => bind DB_save (fun _ => query (DB_read i))))).
Proof.
  intros Hname Hper.
  apply preserves_bind; [apply preserves_checkExists|]. intros _.
  apply preserves_bind.
  - apply preserves_run. intros t t'. now apply each_updateById.
  - intros _. apply preserves_bind; [apply preserves_save|].
    intros _. apply preserves_query.
Qed.

Lemma each_updateOrder day (p : Period) ids :
  preserves (Forall P) (DB_updateOrder day p ids).
Proof.
  unfold DB_updateOrder, forEach.
  apply preserves_bind; [apply preserves_query|]. intros tasks.
  apply preserves_bind; [|intros _; apply preserves_save].
  apply preserves_forEach_from. intros i k. unfold reorder.
  apply preserves_bind.
  - destruct (bool_decide _); [apply preserves_ret | apply preserves_throw].
  - intros _. apply preserves_run. intros t t'. now apply each_updateById.
Qed.

Lemma each_delete i : preserves (Forall P) (DB_delete i).
Proof.
  unfold DB_delete.
  apply preserves_bind; [apply preserves_checkExists|]. intros t.
  apply preserves_bind; [apply preserves_run; intros x x'; apply each_deleteWhere|].
  intros _. apply preserves_bind; [apply preserves_query|]. intros tasks.
  apply preserves_bind; [apply each_updateOrder | intros _; apply preserves_save].
Qed.

Lemma each_clearPeriod day (p : Period) : preserves (Forall P) (DB_clearPeriod day p).
Proof.
  unfold DB_clearPeriod.
  apply preserves_bind; [apply preserves_run; intros x x'; apply each_deleteWhere|].
  intros _. apply preserves_save.
Qed.

Lemma listed_from day period table t :
  In t (DB_list day period table) -> exists r, In r table /\ t = toTask r.
Proof.
  rewrite DB_list_select. intros (r & <- & Hr)%in_map_iff.
  apply OrderBy.orderBy_In, filter_In in Hr as [Hr _]. now exists r.
Qed.

Lemma each_copyIncompletes day (p : Period) :
  (forall r r', P r -> row_name r' = name (toTask r) -> row_period r' = p -> P r') ->
  preserves (Forall P) (DB_copyIncompletes day p).
Proof.
  intros Hcopy s Hs. unfold after. rewrite DB_copyIncompletes_eq.
  revert Hs. generalize (eq_refl (db s)).
  generalize (db s) at 1 3 as t. intros t Ht Hs. revert s Ht.
  assert (Hloop : preserves (Forall P)
            (bind (for_of (fun task => bind (DB_create (name task) day p) (fun _ => ret tt))
                     (List.filter (fun task => negb (complete task))
                        (DB_list (Some (previousAnchor day p)) (Some p) t)))
                  (fun _ => DB_save))).
  { apply preserves_bind; [|intros _; apply preserves_save].
    apply preserves_for_of_In. intros task [Hin _]%filter_In.
    apply preserves_bind; [|intros _; apply preserves_ret].
    apply each_create. intros r' Hname Hper.
    apply listed_from in Hin as (r & Hr & ->).
    apply (Hcopy r r'); [|exact Hname|exact Hper].
    rewrite List.Forall_forall in Hs. now apply Hs. }
  intros s Ht. rewrite <- Ht. apply Hloop. rewrite <- Ht. exact Hs.
Qed.

Lemma each_handle e :
  (forall d n p, e = Submit (Some d) n p -> n <> "" ->
     forall r, row_name r = n -> row_period r = p -> P r) ->
  (forall d p, e = CopyPrevious d p ->
     forall r r', P r -> row_name r' = name (toTask r) -> row_period r' = p -> P r') ->
  preserves (Forall P) (handle e).
Proof.
  destruct e as [day n p|d p active over|task val|task|d p|d p]; simpl;
    intros Hsubmit Hcopy.
  - unfold onSubmit. destruct day as [day|]; [|apply preserves_ret].
    destruct (String.eqb_spec n ""); [apply preserves_ret|].
    apply preserves_bind; [|intros _; apply preserves_ret].
    apply each_create. now apply (Hsubmit day n p).
  - apply preserves_bind; [apply preserves_query|]. intros tasks.
    destruct (onDragEnd_cases tasks p active over) as [->|(n & task & j & _ & ->)];
      [apply preserves_ret | apply each_updateOrder].
  - unfold onCheckedChange. apply preserves_bind; [|intros _; apply preserves_ret].
    destruct val; now apply each_mark.
  - apply each_delete.
  - apply each_copyIncompletes. now apply (Hcopy d p).
  - apply each_clearPeriod.
Qed.

End Each.

Lemma uniqueIds_handle e : preserves uniqueIds (handle e).
Proof.
  destruct e as [day n p|d p active over|task val|task|d p|d p]; simpl.
  - unfold onSubmit. destruct day as [day|]; [|apply preserves_ret].
    destruct (String.eqb n ""); [apply preserves_ret|].
    apply preserves_bind; [apply preserves_create | intros _; apply preserves_ret].
  - apply preserves_bind; [apply preserves_query|]. intros tasks.
    destruct (onDragEnd_cases tasks p active over) as [->|(n & task & j & _ & ->)];
      [apply preserves_ret | apply preserves_updateOrder].
  - unfold onCheckedChange. apply preserves_bind; [|intros _; apply preserves_ret].
    destruct val;
      [exact (preserves_perform (markComplete (id task)))
      |exact (preserves_perform (markIncomplete (id task)))].
  - exact (preserves_perform (delete_ (id task))).
  - exact (preserves_perform (copyIncompletes d p)).
  - exact (preserves_perform (clearPeriod d p)).
Qed.

Lemma uiReachable_sound s : uiReachable s -> uniqueIds (db s) /\ selected (db s).
Proof.
  induction 1 as [|e s _ [IHu IHs] Hsel].
  - split; vm_compute; constructor.
  - split; [now apply uniqueIds_handle|].
    apply (each_handle (fun r => In (row_period r) periods)); [| | |exact IHs].
    + intros r r' _ Hper Hr. now rewrite Hper.
    + intros d n p -> _ r _ ->. now apply Hsel.
    + intros d p -> r r' _ _ ->. now apply Hsel.
Qed.

Lemma uiTyped_named s : uiTyped s -> named (db s).
Proof.
  induction 1 as [|e s _ IH _ Htext].
  - vm_compute. constructor.
  - apply (each_handle
             (fun r => row_name r <> "" /\ UTF8ToString (row_name r) = row_name r));
      [| | |exact IH].
    + intros r r' Hname _ Hr. now rewrite Hname.
    + intros d n p -> Hn r -> _. split; [exact Hn|]. now apply Htext.
    + intros d p _ r r' [Hn Hwhole] Hname _. rewrite toTask_name, Hwhole in Hname.
      now rewrite Hname.
Qed.

Lemma uiTyped_uiReachable s : uiTyped s -> uiReachable s.
Proof.
  induction 1 as [|e s _ IH Hsel _]; [constructor | now constructor].
Qed.

Lemma listed_named day period table t :
  named table -> In t (DB_list day period table) -> name t <> "".
Proof.
  intros Hn (r & Hr & ->)%listed_from.
  unfold named in Hn. rewrite List.Forall_forall in Hn.
  destruct (Hn r Hr) as [Hne Hwhole]. now rewrite toTask_name, Hwhole.
Qed.

End Components.

(** ** What the components keep of the saved image *)
Section Durable.

Context `{DateFns} `{SqlJs} `{Nanoid} `{DateFnsView}.

Lemma keeps_ret (P : State -> Prop) {A} (a : A) : keeps P (ret a).
Proof. now intros s Hs. Qed.

Lemma keeps_bind (P : State -> Prop) {A B} (m : JS A) (k : A -> JS B) :
  keeps P m -> (forall a, keeps P (k a)) -> keeps P (bind m k).
Proof.
  intros Hm Hk s Hs. specialize (Hm s Hs). unfold after, bind in *.
  destruct (m s) as [[a|e] s1]; simpl in *; [|exact Hm].
  now apply (Hk a s1).
Qed.

Lemma keeps_for_of (P : State -> Prop) {A} (body : A -> JS unit) l :
  (forall x, keeps P (body x)) -> keeps P (for_of body l).
Proof.
  intros Hbody. induction l as [|x l IH]; simpl.
  - apply keeps_ret.
  - apply keeps_bind; [apply Hbody | intros _; exact IH].
Qed.

Lemma durable_same s s' :
  db s' = db s -> localStorage s' = localStorage s -> durable s -> durable s'.
Proof.
  unfold durable, persisted. intros -> ->. tauto.
Qed.

Lemma durable_saved s : durable (after DB_save s).
Proof. right. apply DB_save_persisted. Qed.

Lemma durable_save : keeps durable DB_save.
Proof. intros s _. apply durable_saved. Qed.

Lemma durable_create n d (p : Period) : keeps durable (DB_create n d p).
Proof.
  intros s Hs. unfold after. rewrite DB_create_eq. cbv zeta.
  destruct (existsb _ (db s)); simpl.
  - now apply (durable_same s).
  - apply durable_saved.
Qed.

Lemma durable_mark (m : string -> JS (option Task)) i :
  m = DB_markComplete \/ m = DB_markIncomplete -> keeps durable (m i).
Proof.
  intros [->| ->] s Hs; unfold after;
    [rewrite DB_markComplete_eq | rewrite DB_markIncomplete_eq];
    (destruct (List.find (SQL.idIs i) (db s)); simpl; [apply durable_saved | exact Hs]).
Qed.

Lemma durable_delete i : keeps durable (DB_delete i).
Proof.
  intros s Hs. unfold after. rewrite DB_delete_eq.
  destruct (List.find (SQL.idIs i) (db s)); simpl; [apply durable_saved | exact Hs].
Qed.

Lemma durable_copyIncompletes d (p : Period) : keeps durable (DB_copyIncompletes d p).
Proof.
  intros s Hs. unfold after. rewrite DB_copyIncompletes_eq.
  refine (keeps_bind durable _ _ _ _ s Hs); [|intros _; apply durable_save].
  apply keeps_for_of. intros task.
  apply keeps_bind; [apply durable_create | intros _; apply keeps_ret].
Qed.

Lemma durable_clearPeriod d (p : Period) : keeps durable (DB_clearPeriod d p).
Proof. intros s _. unfold after. rewrite DB_clearPeriod_eq. apply durable_saved. Qed.

End Durable.

Lemma session_uiReachable : uiReachable Desk.session.
Proof.
  unfold Desk.session.
  repeat (apply uiReachable_event;
          [|intros period [= <-]; simpl; auto]).
  apply uiReachable_firstRun.
Qed.

Lemma session_uiTyped : uiTyped Desk.session.
Proof.
  unfold Desk.session.
  repeat (apply uiTyped_event;
          [|intros period [= <-]; simpl; auto
           |intros text Htext; try discriminate Htext;
            injection Htext as <-; reflexivity]).
  apply uiTyped_firstRun.
Qed.

(** X15: whatever the user does in the components (submitting the form
    with or without a day and a name, dragging, ticking, deleting,
    copying the incomplete tasks of the previous period, clearing a
    period), starting from a first run and with the period chosen among
    the four of the selector, the table has no two rows with the same id
    and no period other than those four; in particular no row has an
    empty period.  When, besides, no text submitted holds a NUL, every
    name of the table is not empty and is read back whole, so that no
    listing shows a task with an empty name. *)
Theorem ui_keeps_table_tidy `{DateFns} `{SqlJs} `{Nanoid} `{DateFnsView} (s : State) :
  uiReachable s ->
  uniqueIds (db s) /\ selected (db s) /\ wellFormed (db s)
  /\ (uiTyped s ->
      named (db s)
      /\ forall day period t, In t (DB_list day period (db s)) -> name t <> "").
Proof.
  intros [Hu Hs]%uiReachable_sound. split; [exact Hu|]. split; [exact Hs|].
  split; [now apply selected_wellFormed|].
  intros Hn%uiTyped_named. split; [exact Hn|].
  intros day period t. now apply listed_named.
Qed.

Lemma ui_keeps_table_tidy_witness :
  uniqueIds (db Desk.session) /\ selected (db Desk.session)
  /\ named (db Desk.session)
  /\ map name (DB_list None None (db Desk.session))
     = ["Call home"; "Buy milk"; "Call home"; "Buy milk"].
Proof.
  destruct (ui_keeps_table_tidy Desk.session session_uiReachable)
    as (Hu & Hs & _ & Hn).
  split; [exact Hu|]. split; [exact Hs|].
  split; [exact (proj1 (Hn session_uiTyped)) | vm_compute; reflexivity].
Defined.

(** X16: the components keep the saved image in step with the table: in
    every state they reach from a first run, either nothing was ever
    stored (the table is empty and the slot of [localStorage] is absent)
    or the slot holds the image of the table as it is; so constructing a
    store anew from that [localStorage], in a page whose store starts from
    any table whatever, recovers the table, given that the engine reopens
    its export of the table as that table. *)
Theorem ui_keeps_image_current `{DateFns} `{SqlJs} `{Nanoid} `{DateFnsView} (s : State) :
  DayWindows -> uiReachable s ->
  durable s
  /\ forall page,
       localStorage page !! DB_KEY = localStorage s !! DB_KEY ->
       db_open (db_export (db s)) = db s ->
       DB_constructor page = (Return tt, set_db (db s) page).
Proof.
  intros Hw Hreach.
  assert (Hd : durable s).
  { induction Hreach as [|e s Hreach IH Hsel].
    - left. split; reflexivity.
    - destruct e as [day n p|d p active over|task val|task|d p|d p]; simpl.
      + unfold onSubmit. destruct day as [day|]; [|exact IH].
        destruct (String.eqb n ""); [exact IH|].
        refine (keeps_bind durable _ _ _ _ s IH);
          [apply durable_create | intros _; apply keeps_ret].
      + change (after _ s)
          with (after (onDragEnd (DB_list (Some d) (Some p) (db s)) p active over) s).
        destruct (onDragEnd_cases (DB_list (Some d) (Some p) (db s)) p active over)
          as [->|(k & task & j & Hk & ->)]; [exact IH|].
        assert (Hp : p <> "") by (apply period_selected, Hsel; reflexivity).
        assert (Hu : uniqueIds (db s)) by now apply uiReachable_sound.
        destruct (reorder_listing s d p task
                    (map id (moved (DB_list (Some d) (Some p) (db s)) k j task))
                    Hw Hu Hp (nth_error_In _ _ Hk))
          as (Hrun & Hpers & _).
        { apply Permutation_map. now apply moved_perm. }
        right. unfold after. rewrite Hrun. exact Hpers.
      + unfold onCheckedChange.
        refine (keeps_bind durable _ _ _ _ s IH); [|intros _; apply keeps_ret].
        destruct val; apply durable_mark; auto.
      + now apply durable_delete.
      + now apply durable_copyIncompletes.
      + now apply durable_clearPeriod. }
  split; [exact Hd|]. intros page Hpage Hopen.
  destruct Hd as [[Hempty Hslot]|Hpers].
  - rewrite Hslot in Hpage. unfold DB_constructor. now rewrite Hpage, Hempty.
  - unfold persisted in Hpers. rewrite Hpers in Hpage.
    rewrite (DB_constructor_image page (db s) Hpage). now rewrite Hopen.
Qed.

Lemma ui_keeps_image_current_witness :
  let page := {| db := db Host.busyJune; localStorage := localStorage Desk.session;
                 ids_drawn := 0 |} in
  durable Desk.session
  /\ DB_constructor page = (Return tt, set_db (db Desk.session) page)
  /\ map (fun r => (row_name r, row_date r =? Host.june11, row_sortOrder r)) (db Desk.session)
     = [("Buy milk", false, 1); ("Call home", false, 0);
        ("Call home", true, 1); ("Buy milk", true, 2)].
Proof.
  intros page.
  destruct (ui_keeps_image_current Desk.session utc_day_windows session_uiReachable)
    as [Hd Hc].
  split; [exact Hd|]. split; [apply (Hc page eq_refl)|]; vm_compute; reflexivity.
Defined.

(** ** The sections of [DatesWithTasksList] *)
Section Views.

Context `{DateFns} `{SqlJs} `{Nanoid} `{DateFnsView}.

Lemma view_entry day (p : Period) table date tasks :
  In (date, tasks) (BuildDatesWithTasks day p table) ->
  In p periods /\ tasks = DB_list (Some date) (Some p) table.
Proof.
  unfold BuildDatesWithTasks. intros (d0 & [= <- <-] & Hd)%in_map_iff.
  split; [|reflexivity]. unfold periods.
  destruct (String.eqb_spec p "days") as [->|_]; [simpl; auto|].
  destruct (String.eqb_spec p "weeks") as [->|_]; [simpl; auto|].
  destruct (String.eqb_spec p "months") as [->|_]; [simpl; auto|].
  destruct (String.eqb_spec p "year") as [->|_]; [simpl; auto|].
  destruct Hd.
Qed.

Lemma listed_row day (p : Period) table t :
  p <> "" ->
  In t (DB_list (Some day) (Some p) table)
  <-> exists r, In r table /\ t = toTask r /\ inBucket day p r = true.
Proof.
  intros Hp. rewrite DB_list_bucket by assumption. rewrite in_map_iff. split.
  - intros (r & <- & Hr). apply OrderBy.orderBy_In, filter_In in Hr as [Hr Hb]. eauto.
  - intros (r & Hr & -> & Hb). exists r. split; [reflexivity|].
    apply OrderBy.orderBy_In, filter_In. now split.
Qed.

Lemma same_id_same_row table r r' :
  uniqueIds table -> In r table -> In r' table -> row_id r = row_id r' -> r = r'.
Proof.
  intros Hu Hr Hr' Hid.
  pose proof (find_id_unique (row_id r) table r Hu Hr eq_refl) as Hf.
  pose proof (find_id_unique (row_id r) table r' Hu Hr' (eq_sym Hid)) as Hf'.
  congruence.
Qed.

Lemma completedCount_from tasks k :
  fold_left (fun total task => total + (if complete task then 1 else 0)) tasks k
  = k + Z.of_nat (length (List.filter complete tasks)).
Proof.
  revert k. induction tasks as [|t tasks IH]; intros k; simpl; [lia|].
  rewrite IH. destruct (complete t); simpl length; lia.
Qed.

Lemma completedCount_filter tasks :
  completedCount tasks = Z.of_nat (length (List.filter complete tasks)).
Proof. unfold completedCount. now rewrite completedCount_from. Qed.

Lemma updated_stranger set i rows :
  ~ In i (map row_id rows) -> updated set i rows = rows.
Proof.
  intros Hnot. unfold updated. rewrite <- (map_id rows) at 2. apply map_ext_in.
  intros y Hy. destruct (SQL.idIs i y) eqn:Hyid; [|reflexivity].
  apply idIs_eq in Hyid. exfalso. apply Hnot. rewrite <- Hyid. now apply in_map.
Qed.

Lemma updated_cons set i x rows :
  updated set i (x :: rows) = (if SQL.idIs i x then set x else x) :: updated set i rows.
Proof. reflexivity. Qed.

Lemma ticked_count i rows :
  List.NoDup (map row_id rows) ->
  forall r, In r rows -> row_id r = i -> (row_complete r =? 1) = false ->
  length (List.filter complete (map toTask (updated (SQL.setComplete 1) i rows)))
  = S (length (List.filter complete (map toTask rows))).
Proof.
  induction rows as [|x rows IH]; intros Hnd r Hr Hid Hc; [destruct Hr|].
  inversion Hnd as [|? ? Hnotin Hnd']; subst. rewrite updated_cons.
  destruct Hr as [->|Hr].
  - assert (Hx : SQL.idIs (row_id r) r = true) by now apply idIs_eq.
    rewrite Hx, updated_stranger by assumption.
    simpl. now rewrite Hc.
  - assert (Hx : SQL.idIs (row_id r) x = false).
    { apply not_true_iff_false. intros Hx%idIs_eq. apply Hnotin.
      rewrite Hx. now apply in_map. }
    rewrite Hx. simpl.
    destruct (row_complete x =? 1); simpl; rewrite (IH Hnd' r Hr eq_refl Hc); reflexivity.
Qed.

Lemma completedCount_bounds (tasks : list Task) :
  0 <= completedCount tasks <= Z.of_nat (length tasks).
Proof.
  rewrite completedCount_filter.
  pose proof (List.filter_length_le complete tasks). lia.
Qed.

Lemma completedCount_all (tasks : list Task) :
  completedCount tasks = Z.of_nat (length tasks) <-> forallb complete tasks = true.
Proof.
  rewrite completedCount_filter. induction tasks as [|x tasks IH]; simpl; [tauto|].
  pose proof (List.filter_length_le complete tasks) as Hle.
  destruct (complete x); simpl.
  - rewrite <- IH. lia.
  - split; [lia | discriminate].
Qed.

End Views.

(** X17: every section of the view of a period holds the tasks of that
    period whose stored date lies in the day of the section, in the order
    of [sortOrder]; and no task is shown in two different sections: when
    ids are unique, two sections that show a task with the same id show
    the same tasks. *)
Theorem view_sections `{DateFns} `{SqlJs} `{Nanoid} `{DateFnsView}
    (day : Date) (p : Period) (table : list Row) (date : Date) (tasks : list Task) :
  In (date, tasks) (BuildDatesWithTasks day p table) ->
  In p periods
  /\ (forall t, In t tasks
        <-> exists r, In r table /\ t = toTask r /\ row_period r = p
                      /\ startOfDay date <= row_date r < endOfDay date)
  /\ StronglySorted (fun a b => sortOrder a <= sortOrder b) tasks
  /\ (DayWindows -> uniqueIds table ->
      forall date' tasks' t t',
        In (date', tasks') (BuildDatesWithTasks day p table) ->
        In t tasks -> In t' tasks' -> id t = id t' ->
        t = t' /\ tasks' = tasks).
Proof.
  intros [Hsel ->]%view_entry.
  assert (Hp : p <> "") by now apply period_selected.
  split; [exact Hsel|]. split; [|split].
  - intros t. rewrite listed_row by assumption.
    split; intros (r & Hr & Ht & Hb); exists r; (split; [exact Hr|]); (split; [exact Ht|]).
    + apply inBucket_spec in Hb. tauto.
    + apply inBucket_spec. tauto.
  - apply listing_spec.
  - intros Hw Hu date' tasks' t t' [_ ->]%view_entry Ht Ht' Hid.
    apply listed_row in Ht as (r & Hr & -> & Hb); [|assumption].
    apply listed_row in Ht' as (r' & Hr' & -> & Hb'); [|assumption].
    assert (r = r') as <- by now apply (same_id_same_row table).
    split; [reflexivity|].
    destruct (buckets_same_or_apart date p date' p Hw) as [Hsame|Hapart].
    + rewrite !DB_list_bucket by assumption. f_equal. f_equal.
      apply filter_ext. exact Hsame.
    + rewrite (Hapart r Hb) in Hb'. discriminate.
Qed.

Lemma view_sections_witness :
  StronglySorted (fun a b => sortOrder a <= sortOrder b)
    (DB_list (Some Host.june10) (Some "days") (db Desk.session))
  /\ map (fun e => map name (snd e)) (BuildDatesWithTasks Host.june10 "days" (db Desk.session))
     = [[]; ["Call home"; "Buy milk"]; ["Call home"; "Buy milk"]; []; []; []; []].
Proof.
  split; [|vm_compute; reflexivity].
  refine (proj1 (proj2 (proj2 (view_sections Host.june10 "days" (db Desk.session)
                                 Host.june10 _ _)))).
  right. left. vm_compute. reflexivity.
Defined.

(** X18: the task that the form adds (a day and a name being given, and
    the id being new) has the name up to its first NUL (the whole name
    when it holds none) and is shown in a section of the view exactly when the
    start of the period of the chosen day lies in the day of that
    section; so a task added from the section of a day that does not
    start its week, month or year is not shown in that section. *)
Theorem added_task_in_view `{DateFns} `{SqlJs} `{Nanoid} `{DateFnsView}
    (s : State) (day d : Date) (n : string) (p : Period) :
  In p periods -> n <> "" ->
  ~ In (nanoid (ids_drawn s)) (map row_id (db s)) ->
  let s' := after (handle (Submit (Some d) n p)) s in
  exists t,
    DB_read (nanoid (ids_drawn s)) (db s') = Some t
    /\ name t = UTF8ToString n
    /\ (~ In Ascii.zero (list_ascii_of_string n) -> name t = n)
    /\ complete t = false /\ date t = startOfPeriod d p
    /\ forall d' tasks, In (d', tasks) (BuildDatesWithTasks day p (db s')) ->
         (In t tasks <-> startOfDay d' <= startOfPeriod d p < endOfDay d').
Proof.
  intros Hsel Hn Hfresh s'.
  assert (Hp : p <> "") by now apply period_selected.
  assert (Hdb : db s' = db s ++ [newRow (nanoid (ids_drawn s)) n d p (db s)]).
  { unfold s', after, handle, onSubmit.
    destruct (String.eqb_spec n "") as [|_]; [contradiction|].
    unfold bind. now rewrite (DB_create_fresh n d p s Hfresh). }
  exists (toTask (newRow (nanoid (ids_drawn s)) n d p (db s))).
  split; [|split; [reflexivity|split; [apply UTF8ToString_whole|
                    split; [reflexivity|split; [reflexivity|]]]]].
  - rewrite Hdb, DB_read_find. now rewrite find_appended.
  - intros d' tasks [_ ->]%view_entry. rewrite listed_row by assumption. split.
    + intros (r & _ & Ht & Hb). apply inBucket_spec in Hb as [Hb _].
      apply (f_equal date) in Ht. simpl in Ht. now rewrite Ht.
    + intros Hb. exists (newRow (nanoid (ids_drawn s)) n d p (db s)).
      split; [rewrite Hdb; apply in_app_iff; right; now left|].
      split; [reflexivity|]. now apply inBucket_spec.
Qed.

Lemma added_task_in_view_witness :
  let s' := after (handle (Submit (Some Host.june1) "Review" "weeks")) firstRun in
  ~ In {| id := Host.code 10 0; name := "Review"; complete := false; sortOrder := 1;
          period := "weeks"; date := UTC.utc 2024 5 26 |}
       (DB_list (Some Host.june1) (Some "weeks") (db s'))
  /\ map snd (BuildDatesWithTasks Host.june1 "weeks" (db s')) = [[]; []; []; []; []; []].
Proof.
  intros s'. subst s'. split; [|vm_compute; reflexivity].
  destruct (added_task_in_view firstRun Host.june1 Host.june1 "Review" "weeks")
    as (t & Hread & _ & _ & _ & _ & Hview).
  - simpl. auto.
  - discriminate.
  - vm_compute. intros [].
  - assert (Ht : Some t = Some {| id := Host.code 10 0; name := "Review";
                                   complete := false; sortOrder := 1; period := "weeks";
                                   date := UTC.utc 2024 5 26 |})
      by (rewrite <- Hread; vm_compute; reflexivity).
    assert (Ht' : t = {| id := Host.code 10 0; name := "Review";
                         complete := false; sortOrder := 1; period := "weeks";
                         date := UTC.utc 2024 5 26 |}) by congruence.
    clear Ht. subst t. intros Hin.
    assert (Hentry :
              In (Host.june1,
                  DB_list (Some Host.june1) (Some "weeks")
                    (db (after (handle (Submit (Some Host.june1) "Review" "weeks")) firstRun)))
                 (BuildDatesWithTasks Host.june1 "weeks"
                    (db (after (handle (Submit (Some Host.june1) "Review" "weeks")) firstRun))))
      by (vm_compute; left; reflexivity).
    pose proof (proj1 (Hview Host.june1 _ Hentry) Hin) as Hwindow.
    vm_compute in Hwindow. destruct Hwindow as [Hle _]. exact (Hle eq_refl).
Defined.

(** X19: the count in the header of a section is the number of complete
    tasks of the section, between 0 and the number of its tasks, which it
    equals exactly when every task is complete; ticking a listed task
    that is not complete raises the count of its listing by one and
    keeps the number of tasks. *)
Theorem completedCount_spec `{DateFns} `{SqlJs} `{Nanoid} `{DateFnsView}
    (s : State) (day : option Date) (p : option Period) :
  let tasks := DB_list day p (db s) in
  completedCount tasks = Z.of_nat (length (List.filter complete tasks))
  /\ 0 <= completedCount tasks <= Z.of_nat (length tasks)
  /\ (completedCount tasks = Z.of_nat (length tasks) <-> forallb complete tasks = true)
  /\ (uniqueIds (db s) ->
      forall t, In t tasks -> complete t = false ->
        let tasks' := DB_list day p (db (after (handle (CheckedChange t true)) s)) in
        completedCount tasks' = completedCount tasks + 1
        /\ length tasks' = length tasks).
Proof.
  intros tasks.
  split; [apply completedCount_filter|].
  split; [apply completedCount_bounds|].
  split; [apply completedCount_all|].
  intros Hu t Ht Hc tasks'.
  unfold tasks in Ht. rewrite DB_list_select in Ht.
  apply in_map_iff in Ht as (r & <- & Hr).
  assert (Hrow : In r (db s))
    by (apply OrderBy.orderBy_In, filter_In in Hr as [Hr _]; exact Hr).
  assert (Hdb : db (after (handle (CheckedChange (toTask r) true)) s)
                = updated (SQL.setComplete 1) (row_id r) (db s)).
  { unfold after, handle, onCheckedChange, bind.
    change (id (toTask r)) with (row_id r). rewrite DB_markComplete_eq.
    now rewrite (find_id_unique (row_id r) (db s) r Hu Hrow eq_refl). }
  unfold tasks'. rewrite Hdb, DB_list_updated by reflexivity.
  rewrite !completedCount_filter. unfold tasks. rewrite DB_list_select.
  split.
  - rewrite (ticked_count (row_id r) _) with (r := r); [lia| |exact Hr|reflexivity|exact Hc].
    apply (uniqueIds_perm (List.filter (selector day p) (db s)));
      [symmetry; apply OrderBy.orderBy_perm | now apply uniqueIds_filter].
  - unfold updated. now rewrite !length_map.
Qed.

Lemma completedCount_spec_witness :
  let t := {| id := Host.code 10 0; name := "Buy milk"; complete := false; sortOrder := 1;
              period := "days"; date := Host.june10 |} in
  completedCount (DB_list (Some Host.june10) (Some "days") (db Host.twoTasks)) = 0
  /\ completedCount (DB_list (Some Host.june10) (Some "days")
                       (db (after (handle (CheckedChange t true)) Host.twoTasks))) = 1.
Proof.
  intros t. split; [vm_compute; reflexivity|].
  destruct (completedCount_spec Host.twoTasks (Some Host.june10) (Some "days"))
    as (_ & _ & _ & Htick).
  destruct (Htick twoTasks_uniqueIds t) as [Hcount _].
  - vm_compute. now left.
  - reflexivity.
  - rewrite Hcount. vm_compute. reflexivity.
Defined.
